(** * Smooth-quant transform, calibration, graph-trace filtering and the
    random tuning strategy of neural-compressor

    A shallow embedding of

    - [neural_compressor/torch/algorithms/smooth_quant/utility.py]
      ([cal_scale], [Calibration], [GraphTrace], [SQLinearWrapper],
      [TorchSmoothQuant]) and
    - [neural_compressor/strategy/random.py]
      ([RandomTuneStrategy.next_tune_cfg]).

    Tensor entries are extended reals: exact real arithmetic on the finite
    values, and the IEEE-754 rules for the three special values that the
    code paths under study can produce (a division by zero, [0 * inf],
    a power of a negative base).  Rounding, overflow and the sign of zero
    are not modelled.  A Python exception, and anything that leaves the
    embedded fragment, is [None] in the [option] monad. *)

From Stdlib Require Import Reals Lra Lia ROrderedType R_sqrt Rpower.
From Stdlib Require Import String List ZArith Bool Permutation.
From stdpp Require Import base option list strings gmap.

Set Default Proof Using "Type".

(** ** Tensor entries *)

Module Float.

Inductive fval : Type :=
| Real (r : R)
| PosInf
| NegInf
| NaN.

Definition zero : fval := Real 0%R.
Definition one : fval := Real 1%R.

(** Sign of a real, as a [comparison] with zero. *)
Definition sgn (r : R) : comparison := Rcompare r 0%R.

Definition is_finite (x : fval) : bool :=
  match x with Real _ => true | _ => false end.

Definition is_nan (x : fval) : bool :=
  match x with NaN => true | _ => false end.

Definition is_inf (x : fval) : bool :=
  match x with PosInf | NegInf => true | _ => false end.

(** [x == 0] *)
Definition eq0 (x : fval) : bool :=
  match x with
  | Real r => if Req_dec_T r 0%R then true else false
  | _ => false
  end.

Definition fneg (x : fval) : fval :=
  match x with
  | Real r => Real (- r)%R
  | PosInf => NegInf
  | NegInf => PosInf
  | NaN => NaN
  end.

(** An infinity of the given sign; [Eq] is the sign of zero, for which
    [0 * inf] is not a number. *)
Definition signed_inf (s : comparison) : fval :=
  match s with Gt => PosInf | Lt => NegInf | Eq => NaN end.

Definition fmul (x y : fval) : fval :=
  match x, y with
  | NaN, _ | _, NaN => NaN
  | Real a, Real b => Real (a * b)%R
  | Real a, PosInf | PosInf, Real a => signed_inf (sgn a)
  | Real a, NegInf | NegInf, Real a => signed_inf (CompOpp (sgn a))
  | PosInf, PosInf | NegInf, NegInf => PosInf
  | PosInf, NegInf | NegInf, PosInf => NegInf
  end.

(** Division: a finite value over zero is an infinity of the sign of the
    numerator, [0 / 0] and [inf / inf] are not numbers. *)
Definition fdiv (x y : fval) : fval :=
  match x, y with
  | NaN, _ | _, NaN => NaN
  | Real a, Real b =>
      if Req_dec_T b 0%R then signed_inf (sgn a) else Real (a / b)%R
  | Real _, (PosInf | NegInf) => Real 0%R
  | PosInf, Real b =>
      match sgn b with Lt => NegInf | _ => PosInf end
  | NegInf, Real b =>
      match sgn b with Lt => PosInf | _ => NegInf end
  | (PosInf | NegInf), (PosInf | NegInf) => NaN
  end.

Definition fadd (x y : fval) : fval :=
  match x, y with
  | NaN, _ | _, NaN => NaN
  | Real a, Real b => Real (a + b)%R
  | PosInf, NegInf | NegInf, PosInf => NaN
  | PosInf, _ | _, PosInf => PosInf
  | NegInf, _ | _, NegInf => NegInf
  end.

Definition fabs (x : fval) : fval :=
  match x with
  | Real r => Real (Rabs r)
  | PosInf | NegInf => PosInf
  | NaN => NaN
  end.

(** [torch.max(a, b)] on entries: a NaN on either side wins. *)
Definition fmax (x y : fval) : fval :=
  match x, y with
  | NaN, _ | _, NaN => NaN
  | PosInf, _ | _, PosInf => PosInf
  | NegInf, z | z, NegInf => z
  | Real a, Real b => Real (Rmax a b)
  end.

(** [torch.min(a, b)] on entries. *)
Definition fmin (x y : fval) : fval :=
  match x, y with
  | NaN, _ | _, NaN => NaN
  | NegInf, _ | _, NegInf => NegInf
  | PosInf, z | z, PosInf => z
  | Real a, Real b => Real (Rmin a b)
  end.

(** [torch.clip(x, min=lo)] with a finite bound. *)
Definition clip_min (lo : R) (x : fval) : fval :=
  match x with
  | NaN => NaN
  | PosInf => PosInf
  | NegInf => Real lo
  | Real r => Real (Rmax r lo)
  end.

(** Whether a real exponent is an integer, and then whether it is odd. *)
Definition is_integer (a : R) : bool :=
  if Req_dec_T (frac_part a) 0%R then true else false.

Definition is_odd_integer (a : R) : bool :=
  is_integer a && Z.odd (Int_part a).

(** [torch.pow(x, a)] with a finite Python float exponent [a]. *)
Definition fpow (x : fval) (a : R) : fval :=
  match sgn a with
  | Eq => Real 1%R
  | sa =>
      match x with
      | NaN => NaN
      | Real r =>
          match sgn r with
          | Gt => Real (Rpower r a)
          | Eq => match sa with Gt => Real 0%R | _ => PosInf end
          | Lt =>
              if is_integer a
              then Real (if Z.odd (Int_part a)
                         then - Rpower (- r) a else Rpower (- r) a)%R
              else NaN
          end
      | PosInf => match sa with Gt => PosInf | _ => Real 0%R end
      | NegInf =>
          match sa with
          | Gt => if is_odd_integer a then NegInf else PosInf
          | _ => Real 0%R
          end
      end
  end.

End Float.

Export Float.

(** ** Tensors

    A one-dimensional tensor is a list of entries, a two-dimensional one a
    list of rows, and a convolution weight is indexed
    [out][in][height][width]. *)

Module Tensor.

Abbreviation vec := (list fval).
Abbreviation mat := (list (list fval)).
Abbreviation tensor4 := (list (list (list (list fval)))).

Inductive tensor : Type :=
| T1 (v : vec)
| T2 (m : mat)
| T3 (x : list mat)
| T4 (w : tensor4).

(** [len(t.shape)] *)
Definition rank (t : tensor) : nat :=
  match t with T1 _ => 1 | T2 _ => 2 | T3 _ => 3 | T4 _ => 4 end.

(** Out-of-place broadcasting along one dimension, [xs * s]: the sizes are
    equal, or one of them is one (and is then repeated); any other pair of
    sizes raises. *)
Definition bcast_outer {A : Type} (f : A -> fval -> A)
    (xs : list A) (s : vec) : option (list A) :=
  if (length xs =? length s)%nat then Some (zip_with f xs s)
  else match xs, s with
       | _, [c] => Some (map (fun x => f x c) xs)
       | [x], _ => Some (map (f x) s)
       | _, _ => None
       end.

(** In-place broadcasting, [xs *= s]: the result keeps the shape of [xs],
    so only [s] may be repeated. *)
Definition inplace_outer {A : Type} (f : A -> fval -> A)
    (xs : list A) (s : vec) : option (list A) :=
  if (length xs =? length s)%nat then Some (zip_with f xs s)
  else match s with
       | [c] => Some (map (fun x => f x c) xs)
       | _ => None
       end.

Definition vec_mul (c : fval) (v : vec) : vec := map (fun x => fmul x c) v.
Definition mat_mul (c : fval) (m : mat) : mat := map (vec_mul c) m.

Definition all_finite (v : vec) : bool := forallb is_finite v.

(** [1.0 / v] *)
Definition reciprocal (v : vec) : vec := map (fdiv one) v.

(** [t[mask] = c] for a boolean mask; the mask must have the shape of
    [t]. *)
Definition mask_set (mask : list bool) (c : fval) (t : vec) : option vec :=
  if (length mask =? length t)%nat
  then Some (zip_with (fun (b : bool) x => if b then c else x) mask t)
  else None.

(** A mask repeated to a given length, as broadcasting repeats a
    dimension of size one. *)
Definition cycle_mask (mask : list bool) (n : nat) : list bool :=
  match mask with
  | [b] => replicate n b
  | _ => mask
  end.

(** All rows of a matrix have the same length. *)
Definition uniform (m : mat) : bool :=
  match m with
  | [] => true
  | r :: rest => forallb (fun r' => (length r' =? length r)%nat) rest
  end.

(** [torch.cat(ws, dim=0)] of two-dimensional tensors. *)
Definition cat0 (ws : list mat) : option mat :=
  match ws with
  | [] => None
  | _ => let m := concat ws in if uniform m then Some m else None
  end.

(** A reduction over dimension 0, [torch.max(m, dim=0)[0]] and
    [torch.min(m, dim=0)[0]]; it raises on a tensor without rows. *)
Definition reduce0 (f : fval -> fval -> fval) (m : mat) : option vec :=
  match m with
  | [] => None
  | r :: rest =>
      if uniform m then Some (foldl (zip_with f) r rest) else None
  end.

Fixpoint transpose {A : Type} (m : list (list A)) : list (list A) :=
  match m with
  | [] => []
  | [r] => map (fun x => [x]) r
  | r :: rest => zip_with cons r (transpose rest)
  end.

(** [t.permute(0, 2, 3, 1)]: from [n][c][h][w] to [n][h][w][c]. *)
Definition permute_0231 (t : tensor4) : tensor4 :=
  map (fun x => map transpose (transpose x)) t.

(** [t.reshape(-1, t.shape[-1])]: the rows along the last dimension.  A
    last dimension of size zero raises. *)
Definition reshape_last (t : tensor) : option mat :=
  let rows :=
    match t with
    | T1 v => [v]
    | T2 m => m
    | T3 x => concat x
    | T4 w => concat (concat w)
    end in
  match rows with
  | [] :: _ => None
  | _ => Some rows
  end.

End Tensor.

Export Tensor.

(** ** Python dictionaries that are iterated: insertion-ordered
    association lists with unique keys *)

Module Dict.

Abbreviation odict V := (list (string * V)).

Fixpoint dict_get {V : Type} (d : odict V) (k : string) : option V :=
  match d with
  | [] => None
  | (k', v) :: rest => if String.eqb k' k then Some v else dict_get rest k
  end.

Definition dict_mem {V : Type} (d : odict V) (k : string) : bool :=
  match dict_get d k with Some _ => true | None => false end.

(** [d[k] = v]: replace in place, or append. *)
Fixpoint dict_set {V : Type} (d : odict V) (k : string) (v : V) : odict V :=
  match d with
  | [] => [(k, v)]
  | (k', v') :: rest =>
      if String.eqb k' k then (k', v) :: rest
      else (k', v') :: dict_set rest k v
  end.

(** [del d[k]] / [d.pop(k)] for a key known to be present. *)
Definition dict_del {V : Type} (d : odict V) (k : string) : odict V :=
  filter (fun kv => negb (String.eqb (fst kv) k)) d.

Definition dict_keys {V : Type} (d : odict V) : list string := map fst d.

(** [d.update(d')] *)
Definition dict_update {V : Type} (d d' : odict V) : odict V :=
  fold_left (fun acc kv => dict_set acc (fst kv) (snd kv)) d' d.

End Dict.

Export Dict.

(** A [for] loop over a list whose body may raise. *)
Fixpoint for_each {A S : Type} (body : A -> S -> option S) (l : list A)
    (s : S) : option S :=
  match l with
  | [] => Some s
  | x :: rest => s' ← body x s; for_each body rest s'
  end.

(** ** [cal_scale] *)

(** The lower clip bound [1e-5]. *)
Definition scale_eps : R := (/ 100000)%R.

(** [torch.max(torch.abs(torch.cat(weights, dim=0)), dim=0)[0]] *)
Definition weight_max_per_channel (weights : list mat) : option vec :=
  weights ← cat0 weights;
  reduce0 fmax (map (map fabs) weights).

(** [cal_scale(input_max, weights, alpha, scale_type="orig")].  The debug
    line evaluates [max(input_max)], which raises on an empty tensor. *)
Definition cal_scale (input_max : vec) (weights : list mat) (alpha : R)
    : option vec :=
  weight_max ← weight_max_per_channel weights;
  let input_power := map (fun x => fpow x alpha) input_max in
  _ ← (match input_max with [] => None | _ => Some tt end);
  let weight_power := map (fun x => fpow x (1 - alpha)) weight_max in
  scale ← bcast_outer fdiv input_power weight_power;
  let scale := map (clip_min scale_eps) scale in
  scale ← mask_set (map eq0 input_power) one scale;
  if (length input_power =? length weight_power)%nat
  then mask_set (map eq0 weight_power) zero scale
  else Some scale.

(** The scale computation as section 4.6 of the specification words it:
    the zero is forced where the sizes of the two powers disagree. *)
Definition cal_scale_as_specified (input_max : vec) (weights : list mat)
    (alpha : R) : option vec :=
  weight_max ← weight_max_per_channel weights;
  let input_power := map (fun x => fpow x alpha) input_max in
  _ ← (match input_max with [] => None | _ => Some tt end);
  let weight_power := map (fun x => fpow x (1 - alpha)) weight_max in
  scale ← bcast_outer fdiv input_power weight_power;
  let scale := map (clip_min scale_eps) scale in
  scale ← mask_set (map eq0 input_power) one scale;
  if negb (length input_power =? length weight_power)%nat
  then Some (zip_with (fun (b : bool) x => if b then zero else x)
               (cycle_mask (map eq0 weight_power) (length scale)) scale)
  else Some scale.

(** One channel of the result of [cal_scale] when the two powers have the
    same size, and when the weight power is a single entry that is
    repeated. *)
Definition scale_entry (alpha : R) (x w : fval) : fval :=
  let input_power := fpow x alpha in
  let weight_power := fpow w (1 - alpha) in
  if eq0 weight_power then zero
  else if eq0 input_power then one
  else clip_min scale_eps (fdiv input_power weight_power).

Definition scale_entry_bcast (alpha : R) (w x : fval) : fval :=
  let input_power := fpow x alpha in
  let weight_power := fpow w (1 - alpha) in
  if eq0 input_power then one
  else clip_min scale_eps (fdiv input_power weight_power).

(** ** Modules and the model

    A [module] is one of the layer classes that the code distinguishes
    with [isinstance], or any other class.  [cls] is
    [layer.__class__.__name__], which a subclass may change.  The model is
    the ordered store of its named sub-modules, keyed by their dotted
    names as [named_modules()] lists them. *)

Module Model.

Inductive norm_kind : Type := BatchNorm2d | GroupNorm | InstanceNorm2d.

Inductive module : Type :=
| Linear (cls : string) (weight : mat) (bias : option vec)
| Conv2d (cls : string) (groups in_channels out_channels : nat)
    (weight : tensor4) (bias : option vec)
| LayerNorm (cls : string) (elementwise_affine : bool)
    (weight bias : option vec)
| Norm (k : norm_kind) (cls : string) (affine : bool) (num_features : nat)
    (weight bias : option vec)
| SQLinearWrapper (input_scale : vec) (alpha : R) (sq_linear : module)
    (ipex : bool)
| WrapperLayer (orig_layer : module)
| OtherModule (cls : string) (weight bias : option tensor).

(** [layer.__class__.__name__] *)
Definition class_name (l : module) : string :=
  match l with
  | Linear cls _ _ | Conv2d cls _ _ _ _ _ | LayerNorm cls _ _ _
  | Norm _ cls _ _ _ _ | OtherModule cls _ _ => cls
  | SQLinearWrapper _ _ _ _ => "SQLinearWrapper"
  | WrapperLayer _ => "WrapperLayer"
  end.

(** The classes that can be listed in [op_types]. *)
Inductive op_type : Type :=
| TLinear | TConv2d | TLayerNorm | TBatchNorm2d | TGroupNorm
| TInstanceNorm2d.

#[global] Instance op_type_eq_dec : EqDecision op_type.
Proof. solve_decision. Defined.

(** [i.__name__] *)
Definition op_type_name (t : op_type) : string :=
  match t with
  | TLinear => "Linear" | TConv2d => "Conv2d" | TLayerNorm => "LayerNorm"
  | TBatchNorm2d => "BatchNorm2d" | TGroupNorm => "GroupNorm"
  | TInstanceNorm2d => "InstanceNorm2d"
  end.

(** [isinstance(l, t)] *)
Definition isinstance (l : module) (t : op_type) : bool :=
  match l, t with
  | Linear _ _ _, TLinear | Conv2d _ _ _ _ _ _, TConv2d
  | LayerNorm _ _ _ _, TLayerNorm | Norm BatchNorm2d _ _ _ _ _, TBatchNorm2d
  | Norm GroupNorm _ _ _ _ _, TGroupNorm
  | Norm InstanceNorm2d _ _ _ _ _, TInstanceNorm2d => true
  | _, _ => false
  end.

(** [isinstance(l, tuple(op_types))] *)
Definition isinstance_any (l : module) (ts : list op_type) : bool :=
  existsb (isinstance l) ts.

Record model : Type := {
  (** class name of the model object itself *)
  model_cls : string;
  (** [isinstance(model, torch.nn.Module)] *)
  is_torch_module : bool;
  (** [isinstance(model, PeftModel)] *)
  is_peft : bool;
  named_modules : odict module
}.

Definition with_modules (m : model) (ms : odict module) : model :=
  {| model_cls := model_cls m; is_torch_module := is_torch_module m;
     is_peft := is_peft m; named_modules := ms |}.

(** [get_module(model, key)]: a name that does not resolve leaves the
    traversal at the model object itself, which has neither weight nor
    bias. *)
Definition get_module (m : model) (key : string) : module :=
  match dict_get (named_modules m) key with
  | Some l => l
  | None => OtherModule (model_cls m) None None
  end.

(** [set_module(model, key, new_module)] *)
Definition set_module (m : model) (key : string) (new_module : module)
    : model :=
  with_modules m (dict_set (named_modules m) key new_module).

(** Writing back a sub-module that was mutated in place. *)
Definition put_module (m : model) (key : string) (l : module) : model :=
  if dict_mem (named_modules m) key then set_module m key l else m.

End Model.

Export Model.

(** ** The environment

    What the embedding takes from PyTorch and from the caller: the hook
    events of the forward passes, and the outcomes of the calls of
    [torch.jit.trace] and [torch.jit.freeze]. *)

(** How [GraphTrace.trace] passes the example input to [torch.jit.trace]:
    as keyword arguments, as it is, or its first element. *)
Inductive trace_input : Type := Kwargs | Whole | First.

(** A traced model, as [get_absorb_to_layer] reads it: for the requested
    types, every traced node of these types with the layer name from its
    scope and the name of the absorbing node that [get_prev_absorb_layer]
    found for it, if any. *)
Abbreviation traced := (list string -> list (string * option string)).

Record env : Type := {
  (** [self.q_func] is set *)
  has_q_func : bool;
  (** [self.dataloader] is set *)
  has_dataloader : bool;
  (** [inputs[0]] of every module call, by module name, in the order of
      the forward passes that [_dump_min_max] runs on the given model for
      the given [calib_iter] *)
  forward_events : model -> Z -> list (string * tensor);
  (** [isinstance(dummy_input, dict) or isinstance(dummy_input, UserDict)] *)
  input_is_dict : bool;
  (** [torch.jit.trace] on the model with the example input passed in the
      given way; [None] when the call (or taking the first element of the
      input) raises *)
  torch_jit_trace : model -> trace_input -> option traced;
  (** [torch.jit.freeze(traced_model.eval(), ...)]; [None] when it raises *)
  torch_jit_freeze : traced -> option traced
}.

(** ** [Calibration] *)

Module Calib.

Record stats : Type := {
  input_mins : gmap string vec;
  input_maxes : gmap string vec
}.

Definition empty_stats : stats :=
  {| input_mins := ∅; input_maxes := ∅ |}.

(** [len(module.weight.shape)] *)
Fixpoint weight_rank (l : module) : option nat :=
  match l with
  | Linear _ _ _ => Some 2
  | Conv2d _ _ _ _ _ _ => Some 4
  | LayerNorm _ _ w _ | Norm _ _ _ _ w _ =>
      match w with Some _ => Some 1 | None => None end
  | SQLinearWrapper _ _ inner _ => weight_rank inner
  | WrapperLayer _ => None
  | OtherModule _ w _ =>
      match w with Some t => Some (rank t) | None => None end
  end.

(** The first lines of the hook: [inputs[0]], permuted when the weight of
    the module has four dimensions, and reshaped to rows of channels. *)
Definition hook_rows (l : module) (input : tensor) : option mat :=
  r ← weight_rank l;
  input ← (if (r =? 4)%nat
           then match input with
                | T4 x => Some (T4 (permute_0231 x))
                | _ => None
                end
           else Some input);
  reshape_last input.

(** [min_tensor] and [max_tensor] of one call. *)
Definition batch_min_max (l : module) (input : tensor) : option (vec * vec) :=
  input ← hook_rows l input;
  max_tensor ← reduce0 fmax input;
  min_tensor ← reduce0 fmin input;
  Some (min_tensor, max_tensor).

(** The number of channels of one call. *)
Definition channels (l : module) (input : tensor) : option nat :=
  input ← hook_rows l input;
  length <$> head input.

(** The closure returned by [_save_input_pc_hook(name)], applied to the
    hooked module and to [inputs[0]]. *)
Definition save_input_hook (name : string) (l : module) (input : tensor)
    (st : stats) : option stats :=
  '(min_tensor, max_tensor) ← batch_min_max l input;
  match input_maxes st !! name with
  | None =>
      Some {| input_mins := <[name := min_tensor]> (input_mins st);
              input_maxes := <[name := max_tensor]> (input_maxes st) |}
  | Some old_max =>
      old_min ← input_mins st !! name;
      new_min ← bcast_outer fmin old_min min_tensor;
      new_max ← bcast_outer fmax old_max max_tensor;
      Some {| input_mins := <[name := new_min]> (input_mins st);
              input_maxes := <[name := new_max]> (input_maxes st) |}
  end.

(** The calls of the hook of one module on a sequence of inputs. *)
Definition feed (name : string) (l : module) (inputs : list tensor)
    (st : stats) : option stats :=
  for_each (save_input_hook name l) inputs st.

(** One module call during a forward pass: the hook runs if the module was
    hooked, that is if it is an instance of one of [op_types]. *)
Definition on_forward (m : model) (op_types : list op_type)
    (st : stats) (ev : string * tensor) : option stats :=
  match dict_get (named_modules m) (fst ev) with
  | Some l =>
      if isinstance_any l op_types
      then save_input_hook (fst ev) l (snd ev) st
      else Some st
  | None => Some st
  end.

Fixpoint run_hooks (m : model) (op_types : list op_type)
    (evs : list (string * tensor)) (st : stats) : option stats :=
  match evs with
  | [] => Some st
  | ev :: rest => st' ← on_forward m op_types st ev;
                  run_hooks m op_types rest st'
  end.

(** [_dump_min_max]: with neither a calibration function nor a dataloader
    the assertion fails. *)
Definition _dump_min_max (e : env) (m : model) (calib_iter : Z)
    : option (list (string * tensor)) :=
  if has_q_func e || has_dataloader e
  then Some (forward_events e m calib_iter)
  else None.

(** [Calibration(model, dataloader, q_func, device).calibrate(calib_iter,
    op_types)] *)
Definition calibrate (e : env) (m : model) (calib_iter : Z)
    (op_types : list op_type) : option stats :=
  evs ← _dump_min_max e m calib_iter;
  run_hooks m op_types evs empty_stats.

End Calib.

(** ** [GraphTrace] *)

Module Trace.

(** The keys of [supported_torch_module_to_aten]. *)
Definition supported_torch_module_to_aten : list string :=
  ["Linear"; "Conv2d"; "ConvTranspose2d"; "LayerNorm"; "BatchNorm2d";
   "GroupNorm"; "InstanceNorm2d"; "LlamaRMSNorm"; "T5LayerNorm";
   "LPLayerNorm"].

Definition supported_type (name : string) : bool :=
  existsb (String.eqb name) supported_torch_module_to_aten.

(** [_check_valid_conv]: group convolutions are removed except depthwise
    ones. *)
Definition _check_valid_conv (l : module) : bool :=
  match l with
  | Conv2d _ groups in_channels out_channels _ _ =>
      if (1 <? groups)%nat
      then (in_channels =? out_channels)%nat && (groups =? in_channels)%nat
      else true
  | _ => true
  end.

(** The test of the inner loop of [remove_unsupported_layers]. *)
Definition layer_supported (m : model) (layer_name : string) : bool :=
  let layer := get_module m layer_name in
  supported_type (class_name layer) && _check_valid_conv layer.

(** The loop of [remove_unsupported_layers] over the keys of
    [absorb_to_layer]; [res] and [no_absorb_layers] are the dictionary and
    the list that the loop extends. *)
Fixpoint remove_unsupported_loop (m : model)
    (absorb_to_layer : odict (list string)) (res : odict (list string))
    (no_absorb_layers : list string)
    : odict (list string) * list string :=
  match absorb_to_layer with
  | [] => (res, no_absorb_layers)
  | (key, layers) :: rest =>
      if negb (supported_type (class_name (get_module m key)))
      then remove_unsupported_loop m rest res (no_absorb_layers ++ layers)
      else if forallb (layer_supported m) layers
      then remove_unsupported_loop m rest (dict_set res key layers)
             no_absorb_layers
      else remove_unsupported_loop m rest res (no_absorb_layers ++ layers)
  end.

(** [remove_unsupported_layers(model, absorb_to_layer, no_absorb_layers)]:
    the returned dictionary, and the list that the call extended in
    place. *)
Definition remove_unsupported_layers (m : model)
    (absorb_to_layer : odict (list string)) (no_absorb_layers : list string)
    : odict (list string) * list string :=
  remove_unsupported_loop m absorb_to_layer [] no_absorb_layers.

(** The loop of [get_absorb_to_layer] over the traced nodes. *)
Fixpoint group_nodes (nodes : list (string * option string))
    (absorb_to_layer : odict (list string)) (no_absorb_layers : list string)
    : odict (list string) * list string :=
  match nodes with
  | [] => (absorb_to_layer, no_absorb_layers)
  | (layer_name, None) :: rest =>
      group_nodes rest absorb_to_layer (no_absorb_layers ++ [layer_name])
  | (layer_name, Some absorb_name) :: rest =>
      if String.eqb layer_name "" || String.eqb absorb_name ""
      then group_nodes rest absorb_to_layer no_absorb_layers
      else match dict_get absorb_to_layer absorb_name with
           | Some layers =>
               group_nodes rest
                 (dict_set absorb_to_layer absorb_name (layers ++ [layer_name]))
                 no_absorb_layers
           | None =>
               group_nodes rest
                 (dict_set absorb_to_layer absorb_name [layer_name])
                 no_absorb_layers
           end
  end.

(** A traced model after [torch.jit.freeze]; when freezing raises, the
    variable keeps the traced model that was assigned before. *)
Definition frozen (e : env) (g : traced) : traced :=
  default g (torch_jit_freeze e g).

(** [trace(model, dummy_input)]: the exceptions of tracing are caught, and
    [None] is returned when no attempt has assigned a traced model.  With
    an input that is not a dictionary a second attempt is made with the
    first element of the input.  The model of a [TorchSmoothQuant] object
    has a parameter (its constructor reads the device of the first one),
    so that reading the device here does not raise; moving the model
    between devices is not embedded. *)
Definition trace (e : env) (m : model) : option traced :=
  if input_is_dict e then
    match torch_jit_trace e m Kwargs with
    | Some g => Some (frozen e g)
    | None => None
    end
  else
    match torch_jit_trace e m Whole with
    | Some g =>
        match torch_jit_freeze e g with
        | Some g' => Some g'
        | None =>
            match torch_jit_trace e m First with
            | Some g2 => Some (frozen e g2)
            | None => Some g
            end
        end
    | None =>
        match torch_jit_trace e m First with
        | Some g2 => Some (frozen e g2)
        | None => None
        end
    end.

(** The traced nodes of the requested types, when a trace is available. *)
Definition traced_nodes (e : env) (m : model) (op_types : list string)
    : option (list (string * option string)) :=
  traced_model ← trace e m; Some (traced_model op_types).

(** [get_absorb_to_layer(model, example_input, op_types,
    skip_unsupported_layers)]; the pair [(None, None)] is the result when
    no trace is available. *)
Definition get_absorb_to_layer (e : env) (m : model) (op_types : list string)
    (skip_unsupported_layers : bool)
    : option (odict (list string)) * option (list string) :=
  match traced_nodes e m op_types with
  | None => (None, None)
  | Some nodes =>
      let '(absorb_to_layer, no_absorb_layers) := group_nodes nodes [] [] in
      if skip_unsupported_layers
      then let '(res, no_absorb_layers) :=
             remove_unsupported_layers m absorb_to_layer no_absorb_layers in
           (Some res, Some no_absorb_layers)
      else (Some absorb_to_layer, Some no_absorb_layers)
  end.

End Trace.

(** ** Forward passes of the PyTorch layers

    [torch.nn.functional.linear] and the affine part of
    [torch.nn.LayerNorm]; the normalisation itself,
    [(x - E[x]) / sqrt(Var[x] + eps)], is a parameter. *)

Module Forward.

Definition dot (x w : vec) : fval := foldr fadd zero (zip_with fmul x w).

(** Strict elementwise operation: the shapes must agree. *)
Definition zip_strict (f : fval -> fval -> fval) (x y : vec) : option vec :=
  if (length x =? length y)%nat then Some (zip_with f x y) else None.

(** One output row of [F.linear(x, weight, bias)]. *)
Definition linear (weight : mat) (bias : option vec) (x : vec) : option vec :=
  if forallb (fun row => (length row =? length x)%nat) weight
  then let y := map (dot x) weight in
       match bias with
       | Some b => zip_strict fadd y b
       | None => Some y
       end
  else None.

Definition layer_norm (normalize : vec -> vec) (weight bias : option vec)
    (x : vec) : option vec :=
  let y := normalize x in
  y ← (match weight with Some w => zip_strict fmul y w | None => Some y end);
  match bias with Some b => zip_strict fadd y b | None => Some y end.

(** [module(X)] on a batch of rows, for the layers whose forward pass is
    embedded. *)
Fixpoint forward (normalize : vec -> vec) (l : module) (X : mat)
    : option mat :=
  match l with
  | Linear _ weight bias => mapM (linear weight bias) X
  | LayerNorm _ _ weight bias => mapM (layer_norm normalize weight bias) X
  | SQLinearWrapper input_scale _ sq_linear ipex =>
      if ipex then forward normalize sq_linear X
      else X ← mapM (fun x => bcast_outer fmul x input_scale) X;
           forward normalize sq_linear X
  | _ => None
  end.

End Forward.

(** ** [SQLinearWrapper] *)

Module SQWrapper.

(** [t op= s] and [t op s] for a one-dimensional [s] (or its view
    [(1, n)]) against the last dimension of [t]. *)
Definition rows_inplace (f : fval -> fval -> fval) (s : vec) (m : mat)
    : option mat :=
  mapM (fun row => inplace_outer f row s) m.

Definition rows_bcast (f : fval -> fval -> fval) (s : vec) (m : mat)
    : option mat :=
  mapM (fun row => bcast_outer f row s) m.

Definition tensor_inplace (f : fval -> fval -> fval) (t : tensor) (s : vec)
    : option tensor :=
  match t with
  | T1 v => T1 <$> inplace_outer f v s
  | T2 m => T2 <$> rows_inplace f s m
  | T3 x => T3 <$> mapM (rows_inplace f s) x
  | T4 w => T4 <$> mapM (mapM (rows_inplace f s)) w
  end.

Definition tensor_bcast (f : fval -> fval -> fval) (t : tensor) (s : vec)
    : option tensor :=
  match t with
  | T1 v => T1 <$> bcast_outer f v s
  | T2 m => T2 <$> rows_bcast f s m
  | T3 x => T3 <$> mapM (rows_bcast f s) x
  | T4 w => T4 <$> mapM (mapM (rows_bcast f s)) w
  end.

(** [module.weight op= scale.view(1, n)].  The in-place result keeps the
    shape of the weight, which a one-dimensional weight cannot. *)
Definition weight_inplace (f : fval -> fval -> fval) (l : module) (s : vec)
    : option module :=
  match l with
  | Linear cls w b => w ← rows_inplace f s w; Some (Linear cls w b)
  | Conv2d cls g i o w b =>
      w ← mapM (mapM (rows_inplace f s)) w; Some (Conv2d cls g i o w b)
  | OtherModule cls (Some (T1 _)) _ => None
  | OtherModule cls (Some t) b =>
      t ← tensor_inplace f t s; Some (OtherModule cls (Some t) b)
  | _ => None
  end.

(** [_calculate_qparams]: only whether it returns is embedded; the scale
    and zero point that it computes are read by no embedded path. *)
Definition _calculate_qparams (input_scale : vec) (input_minmax : vec * vec)
    : option unit :=
  lo ← bcast_outer fmul (fst input_minmax) input_scale;
  hi ← bcast_outer fmul (snd input_minmax) input_scale;
  match lo, hi with
  | [], _ | _, [] => None
  | _, _ => Some tt
  end.

(** [_update_sq_linear]: [self.sq_linear.weight /= scale] *)
Definition _update_sq_linear (input_scale : vec) (sq_linear : module)
    : option module :=
  weight_inplace fdiv sq_linear input_scale.

(** [_recover_sq_linear]: [self.sq_linear.weight *= scale] *)
Definition _recover_sq_linear (input_scale : vec) (sq_linear : module)
    : option module :=
  weight_inplace fmul sq_linear input_scale.

(** [SQLinearWrapper(module, input_scale, input_minmax, alpha)] *)
Definition __init__ (l : module) (input_scale : vec)
    (input_minmax : option (vec * vec)) (alpha : R) : option module :=
  input_minmax ← input_minmax;
  _ ← _calculate_qparams input_scale input_minmax;
  sq_linear ← _update_sq_linear input_scale l;
  Some (SQLinearWrapper input_scale alpha sq_linear false).

End SQWrapper.

(** ** [TorchSmoothQuant] *)

Module SmoothQuant.

(** The [alpha] argument: a Python float, a dictionary from absorbing
    layer to float, or the string ["auto"]. *)
Inductive alpha_t : Type :=
| AlphaFloat (a : R)
| AlphaDict (d : odict R)
| AlphaAuto.

Definition is_auto (a : alpha_t) : bool :=
  match a with AlphaAuto => true | _ => false end.

Definition is_float (a : alpha_t) : bool :=
  match a with AlphaFloat _ => true | _ => false end.

(** The attributes of a [TorchSmoothQuant] object.  The five cached call
    parameters do not exist before the first [transform].  Attributes that
    are only written ([weight_clip], [self_absorb_layers], [_save_scale],
    [model._smoothquant_optimized]) are left out, and so are logging and
    the equivalence check, which only warn. *)
Record t : Type := {
  model : Model.model;
  input_maxes : gmap string vec;
  input_mins : gmap string vec;
  input_maxes_abs : gmap string vec;
  weight_scale_info : odict vec;
  absorb_scales_info : odict vec;
  scale_sharing : bool;
  insert_mul : bool;
  allow_absorb : bool;
  record_max_info : bool;
  absorb_to_layer : option (odict (list string));
  need_calibration : bool;
  alpha : option alpha_t;
  percentile : option Z;
  op_types : option (list op_type);
  scales_per_op : option bool;
  calib_iter : option Z
}.

(** [TorchSmoothQuant(model, ..., scale_sharing, record_max_info)] for a
    model that is a [torch.nn.Module]. *)
Definition __init__ (m : Model.model) (scale_sharing record_max_info : bool)
    : t :=
  {| model := m; input_maxes := ∅; input_mins := ∅; input_maxes_abs := ∅;
     weight_scale_info := []; absorb_scales_info := [];
     scale_sharing := scale_sharing; insert_mul := false;
     allow_absorb := true; record_max_info := record_max_info;
     absorb_to_layer := Some []; need_calibration := false;
     alpha := None; percentile := None; op_types := None;
     scales_per_op := None; calib_iter := None |}.

Definition set_model (m : Model.model) (s : t) : t :=
  {| model := m; input_maxes := input_maxes s; input_mins := input_mins s;
     input_maxes_abs := input_maxes_abs s;
     weight_scale_info := weight_scale_info s;
     absorb_scales_info := absorb_scales_info s;
     scale_sharing := scale_sharing s; insert_mul := insert_mul s;
     allow_absorb := allow_absorb s; record_max_info := record_max_info s;
     absorb_to_layer := absorb_to_layer s;
     need_calibration := need_calibration s;
     alpha := alpha s; percentile := percentile s; op_types := op_types s;
     scales_per_op := scales_per_op s; calib_iter := calib_iter s |}.

Definition set_stats (mins maxes : gmap string vec) (s : t) : t :=
  {| model := model s; input_maxes := maxes; input_mins := mins;
     input_maxes_abs := input_maxes_abs s;
     weight_scale_info := weight_scale_info s;
     absorb_scales_info := absorb_scales_info s;
     scale_sharing := scale_sharing s; insert_mul := insert_mul s;
     allow_absorb := allow_absorb s; record_max_info := record_max_info s;
     absorb_to_layer := absorb_to_layer s;
     need_calibration := need_calibration s;
     alpha := alpha s; percentile := percentile s; op_types := op_types s;
     scales_per_op := scales_per_op s; calib_iter := calib_iter s |}.

Definition set_scale_info (weight_scales absorb_scales : odict vec) (s : t)
    : t :=
  {| model := model s; input_maxes := input_maxes s;
     input_mins := input_mins s; input_maxes_abs := input_maxes_abs s;
     weight_scale_info := weight_scales;
     absorb_scales_info := absorb_scales;
     scale_sharing := scale_sharing s; insert_mul := insert_mul s;
     allow_absorb := allow_absorb s; record_max_info := record_max_info s;
     absorb_to_layer := absorb_to_layer s;
     need_calibration := need_calibration s;
     alpha := alpha s; percentile := percentile s; op_types := op_types s;
     scales_per_op := scales_per_op s; calib_iter := calib_iter s |}.

Definition set_mode (insert_mul' allow_absorb' : bool) (s : t) : t :=
  {| model := model s; input_maxes := input_maxes s;
     input_mins := input_mins s; input_maxes_abs := input_maxes_abs s;
     weight_scale_info := weight_scale_info s;
     absorb_scales_info := absorb_scales_info s;
     scale_sharing := scale_sharing s; insert_mul := insert_mul';
     allow_absorb := allow_absorb'; record_max_info := record_max_info s;
     absorb_to_layer := absorb_to_layer s;
     need_calibration := need_calibration s;
     alpha := alpha s; percentile := percentile s; op_types := op_types s;
     scales_per_op := scales_per_op s; calib_iter := calib_iter s |}.

Definition set_absorb_to_layer (a : option (odict (list string))) (s : t)
    : t :=
  {| model := model s; input_maxes := input_maxes s;
     input_mins := input_mins s; input_maxes_abs := input_maxes_abs s;
     weight_scale_info := weight_scale_info s;
     absorb_scales_info := absorb_scales_info s;
     scale_sharing := scale_sharing s; insert_mul := insert_mul s;
     allow_absorb := allow_absorb s; record_max_info := record_max_info s;
     absorb_to_layer := a;
     need_calibration := need_calibration s;
     alpha := alpha s; percentile := percentile s; op_types := op_types s;
     scales_per_op := scales_per_op s; calib_iter := calib_iter s |}.

Definition set_need_calibration (b : bool) (s : t) : t :=
  {| model := model s; input_maxes := input_maxes s;
     input_mins := input_mins s; input_maxes_abs := input_maxes_abs s;
     weight_scale_info := weight_scale_info s;
     absorb_scales_info := absorb_scales_info s;
     scale_sharing := scale_sharing s; insert_mul := insert_mul s;
     allow_absorb := allow_absorb s; record_max_info := record_max_info s;
     absorb_to_layer := absorb_to_layer s;
     need_calibration := b;
     alpha := alpha s; percentile := percentile s; op_types := op_types s;
     scales_per_op := scales_per_op s; calib_iter := calib_iter s |}.

(** [self.alpha, self.percentile, self.op_types, self.scales_per_op,
    self.calib_iter = ...] *)
Definition set_params (alpha' : alpha_t) (percentile' : Z)
    (op_types' : list op_type) (scales_per_op' : bool) (calib_iter' : Z)
    (s : t) : t :=
  {| model := model s; input_maxes := input_maxes s;
     input_mins := input_mins s; input_maxes_abs := input_maxes_abs s;
     weight_scale_info := weight_scale_info s;
     absorb_scales_info := absorb_scales_info s;
     scale_sharing := scale_sharing s; insert_mul := insert_mul s;
     allow_absorb := allow_absorb s; record_max_info := record_max_info s;
     absorb_to_layer := absorb_to_layer s;
     need_calibration := need_calibration s;
     alpha := Some alpha'; percentile := Some percentile';
     op_types := Some op_types'; scales_per_op := Some scales_per_op';
     calib_iter := Some calib_iter' |}.

(** [reshape_scale_as_weight] followed by [layer.weight * scale], the
    fold-mode branch of [_scale_layer_weight].  A wrapper layer has no
    weight attribute of its own to assign. *)
Definition scale_weight (l : module) (scale : vec) : option module :=
  match l with
  | Conv2d cls g i o w b =>
      w ← (if (1 <? g)%nat
           then bcast_outer (fun x c => map (mat_mul c) x) w scale
           else mapM (fun x => bcast_outer (fun m c => mat_mul c m) x scale) w);
      Some (Conv2d cls g i o w b)
  | Linear cls w b =>
      w ← SQWrapper.rows_bcast fmul scale w; Some (Linear cls w b)
  | LayerNorm cls a (Some w) b =>
      w ← bcast_outer fmul w scale; Some (LayerNorm cls a (Some w) b)
  | Norm k cls a n (Some w) b =>
      w ← bcast_outer fmul w scale; Some (Norm k cls a n (Some w) b)
  | OtherModule cls (Some t) b =>
      t ← SQWrapper.tensor_bcast fmul t scale;
      Some (OtherModule cls (Some t) b)
  | _ => None
  end.

(** [_scale_layer_weight(layer_name, scale, alpha, input_minmax)] *)
Definition _scale_layer_weight (layer_name : string) (scale : vec)
    (alpha : R) (input_minmax : option (vec * vec)) (s : t) : option t :=
  let layer := get_module (model s) layer_name in
  if insert_mul s then
    match layer with
    | SQLinearWrapper input_scale _ sq_linear _ =>
        sq_linear ← SQWrapper._recover_sq_linear input_scale sq_linear;
        Some (set_model (set_module (model s) layer_name sq_linear) s)
    | _ =>
        new_module ← SQWrapper.__init__ layer (reciprocal scale)
                       input_minmax alpha;
        Some (set_model (set_module (model s) layer_name new_module) s)
    end
  else if allow_absorb s then
    layer ← scale_weight layer scale;
    Some (set_model (put_module (model s) layer_name layer) s)
  else Some s.

Definition opt_inplace (o : option vec) (scale : vec)
    : option (option vec) :=
  match o with
  | Some b => Some <$> inplace_outer fmul b scale
  | None => Some None
  end.

Definition opt_tensor_inplace (o : option tensor) (scale : vec)
    : option (option tensor) :=
  match o with
  | Some t => Some <$> SQWrapper.tensor_inplace fmul t scale
  | None => Some None
  end.

(** The branches of [_absorb_scales] on the layer itself. *)
Definition absorb (l : module) (scale : vec) : option module :=
  match l with
  | Norm k cls affine num_features w b =>
      if affine then
        w ← w; w ← inplace_outer fmul w scale;
        b ← b; b ← inplace_outer fmul b scale;
        Some (Norm k cls affine num_features (Some w) (Some b))
      else
        match k with
        | GroupNorm => None
        | _ =>
            w ← bcast_outer fmul (replicate num_features one) scale;
            Some (Norm k cls true num_features (Some w)
                    (Some (replicate num_features zero)))
        end
  | LayerNorm cls elementwise_affine w b =>
      if elementwise_affine then
        w ← w; w ← inplace_outer fmul w scale;
        b ← b; b ← inplace_outer fmul b scale;
        Some (LayerNorm cls elementwise_affine (Some w) (Some b))
      else None
  | Conv2d cls g i o w b =>
      b ← opt_inplace b scale;
      w ← inplace_outer (fun x c => map (mat_mul c) x) w scale;
      Some (Conv2d cls g i o w b)
  | Linear cls w b =>
      b ← opt_inplace b scale;
      w ← inplace_outer (fun row c => vec_mul c row) w scale;
      Some (Linear cls w b)
  | OtherModule cls w b =>
      if String.eqb cls "LlamaRMSNorm" || String.eqb cls "T5LayerNorm" then
        w ← w; w ← SQWrapper.tensor_inplace fmul w scale;
        Some (OtherModule cls (Some w) b)
      else
        w ← opt_tensor_inplace w scale;
        b ← opt_tensor_inplace b scale;
        Some (OtherModule cls w b)
  | SQLinearWrapper _ _ _ _ => None
  | WrapperLayer _ => Some l
  end.

(** [_absorb_scales(layer_name, scale)] *)
Definition _absorb_scales (layer_name : string) (scale : vec) (s : t)
    : option t :=
  if insert_mul s || negb (allow_absorb s) then Some s
  else
    let layer := get_module (model s) layer_name in
    layer ← (match layer with
             | WrapperLayer orig_layer => WrapperLayer <$> absorb orig_layer scale
             | _ => absorb layer scale
             end);
    Some (set_model (put_module (model s) layer_name layer) s).

(** [layer.weight] brought to rows of input channels, for weights of two
    and four dimensions; the [weight] of a [SQLinearWrapper] is that of the
    wrapped layer. *)
Fixpoint weight_rows (l : module) : option mat :=
  match l with
  | Linear _ w _ => Some w
  | Conv2d _ _ _ _ w _ => reshape_last (T4 (permute_0231 w))
  | OtherModule _ (Some (T2 w)) _ => Some w
  | OtherModule _ (Some (T4 w)) _ => reshape_last (T4 (permute_0231 w))
  | SQLinearWrapper _ _ sq_linear _ => weight_rows sq_linear
  | _ => None
  end.

(** [reshape_in_channel_to_last(layer_name, model)] *)
Definition reshape_in_channel_to_last (layer_name : string)
    (m : Model.model) : option mat :=
  match get_module m layer_name with
  | WrapperLayer orig_layer => weight_rows orig_layer
  | layer => weight_rows layer
  end.

(** [alpha[key] if isinstance(alpha, dict) else alpha] *)
Definition alpha_for (alpha : alpha_t) (key : string) : option R :=
  match alpha with
  | AlphaFloat a => Some a
  | AlphaDict d => dict_get d key
  | AlphaAuto => None
  end.

(** [1.0 / scale] with the entries of a zero scale set to zero. *)
Definition absorb_scale_of (scale : vec) : vec :=
  zip_with (fun (z : bool) x => if z then zero else x)
    (map eq0 scale) (reciprocal scale).

(** The second loop of [_cal_scales]. *)
Fixpoint cal_scales_loop (m : Model.model)
    (entries : odict (list string)) (input_maxes : gmap string vec)
    (alpha : alpha_t) (absorb_scales_info weight_scales_info : odict vec)
    : option (odict vec * odict vec) :=
  match entries with
  | [] => Some (absorb_scales_info, weight_scales_info)
  | (key, layer_names) :: rest =>
      alpha_tmp ← alpha_for alpha key;
      first ← head layer_names;
      input_max ← input_maxes !! first;
      weights ← mapM (fun n => reshape_in_channel_to_last n m) layer_names;
      scale ← cal_scale input_max weights alpha_tmp;
      cal_scales_loop m rest input_maxes alpha
        (dict_set absorb_scales_info key (absorb_scale_of scale))
        (fold_left (fun d n => dict_set d n scale) layer_names
           weight_scales_info)
  end.

(** [_cal_scales(absorb_to_layer, input_maxes, alpha)]; the first loop
    looks every group's first layer up in [input_maxes]. *)
Definition _cal_scales (m : Model.model)
    (absorb_to_layer : odict (list string)) (input_maxes : gmap string vec)
    (alpha : alpha_t) : option (odict vec * odict vec) :=
  _ ← mapM (fun kv => first ← head (snd kv); input_maxes !! first)
        absorb_to_layer;
  cal_scales_loop m absorb_to_layer input_maxes alpha [] [].

Fixpoint scale_layers (layer_names : list string) (first : string)
    (weight_scales_info : odict vec) (alpha_tmp : R) (s : t) : option t :=
  match layer_names with
  | [] => Some s
  | layer_name :: rest =>
      lo ← input_mins s !! first;
      hi ← input_maxes s !! first;
      scale ← dict_get weight_scales_info layer_name;
      s ← _scale_layer_weight layer_name scale alpha_tmp (Some (lo, hi)) s;
      scale_layers rest first weight_scales_info alpha_tmp s
  end.

(** The loop of [_adjust_parameters].  [alpha_tmp] stays unbound when
    [alpha] is neither a float nor a dictionary, and reading it raises. *)
Fixpoint adjust_loop (entries : odict (list string)) (alpha : alpha_t)
    (absorb_scales_info weight_scales_info : odict vec) (s : t) : option t :=
  match entries with
  | [] => Some s
  | (key, layer_names) :: rest =>
      alpha_tmp ← (match alpha with
                   | AlphaFloat a => Some (Some a)
                   | AlphaDict d => Some <$> dict_get d key
                   | AlphaAuto => Some None
                   end);
      absorb_scale ← dict_get absorb_scales_info key;
      s ← _absorb_scales key absorb_scale s;
      s ← (match layer_names with
           | [] => Some s
           | first :: _ =>
               alpha_tmp ← alpha_tmp;
               scale_layers layer_names first weight_scales_info alpha_tmp s
           end);
      adjust_loop rest alpha absorb_scales_info weight_scales_info s
  end.

(** [_adjust_parameters(absorb_to_layer, input_maxes, alpha)]: the object
    after the call, with the returned pair
    [(weight_scales_info, absorb_scales_info)]. *)
Definition _adjust_parameters (absorb_to_layer : odict (list string))
    (input_maxes : gmap string vec) (alpha : alpha_t) (s : t)
    : option (t * (odict vec * odict vec)) :=
  '(absorb_scales_info, weight_scales_info) ←
     _cal_scales (model s) absorb_to_layer input_maxes alpha;
  match absorb_scales_info, weight_scales_info with
  | [], _ | _, [] => Some (s, (weight_scales_info, absorb_scales_info))
  | _, _ =>
      s ← adjust_loop absorb_to_layer alpha absorb_scales_info
            weight_scales_info s;
      Some (s, (weight_scales_info, absorb_scales_info))
  end.

(** [_check_need_calibration(alpha, percentile, op_types, scales_per_op,
    calib_iter)]: the returned flag and the object with the parameters
    recorded. *)
Definition _check_need_calibration (alpha' : alpha_t) (percentile' : Z)
    (op_types' : list op_type) (scales_per_op' : bool) (calib_iter' : Z)
    (s : t) : option (bool * t) :=
  let need_calib := true in
  let is_peft := Model.is_peft (model s) in
  let is_auto := is_auto alpha' in
  if (size (input_maxes s) =? 0)%nat then
    let need_calib := true in
    let s := set_params alpha' percentile' op_types' scales_per_op'
               calib_iter' s in
    Some (if is_auto && negb is_peft then false else need_calib, s)
  else
    old_alpha ← alpha s;
    old_percentile ← percentile s;
    old_op_types ← op_types s;
    old_scales_per_op ← scales_per_op s;
    old_calib_iter ← calib_iter s;
    let need_calib :=
      if bool_decide (old_percentile = percentile')
         && bool_decide (old_op_types = op_types')
         && bool_decide (old_scales_per_op = scales_per_op')
         && bool_decide (old_calib_iter = calib_iter')
      then if is_float alpha' || SmoothQuant.is_auto old_alpha
           then false else need_calib
      else need_calib in
    Some (need_calib,
          set_params alpha' percentile' op_types' scales_per_op' calib_iter' s).

(** [_get_all_layer_names]: only [torch.nn.Linear], whatever [op_types]. *)
Definition _get_all_layer_names (s : t) : odict (list string) :=
  omap (fun kv => if isinstance (snd kv) TLinear
                  then Some (fst kv, [fst kv]) else None)
    (named_modules (model s)).

(** [_trace(op_types, skip_unsupported_layers)]; without
    [skip_unsupported_layers] only the dictionary is returned. *)
Definition _trace (e : env) (op_types : list string)
    (skip_unsupported_layers : bool) (s : t)
    : option (odict (list string)) * option (list string) :=
  Trace.get_absorb_to_layer e (model s) op_types skip_unsupported_layers.

(** [for i in v: if i in d: d.pop(i)] *)
Definition pop_all (v : list string) (d : odict (list string))
    : odict (list string) :=
  fold_left (fun d i => if dict_mem d i then dict_del d i else d) v d.

(** The grouping of layers with the same input: every group replaces the
    entries of its members by one entry under its first member. *)
Fixpoint share_groups (group_modules : odict (list string))
    (self_absorb_layers : odict (list string))
    : option (odict (list string)) :=
  match group_modules with
  | [] => Some self_absorb_layers
  | (_, v) :: rest =>
      first ← head v;
      share_groups rest (dict_set (pop_all v self_absorb_layers) first v)
  end.

(** [max(abs(input_mins[key]), abs(input_maxes[key]))] for every key of
    [input_mins]. *)
Definition abs_maxes (mins maxes : gmap string vec)
    : option (gmap string vec) :=
  kvs ← mapM (fun kv : string * vec =>
                hi ← maxes !! fst kv;
                v ← bcast_outer fmax (map fabs (snd kv)) (map fabs hi);
                Some (fst kv, v))
         (map_to_list mins);
  Some (list_to_map kvs).

(** [_parse_absorb_to_layers(op_types, folding)]: the object after the
    call and the returned value.  In insert mode [no_absorb_layers] is
    unbound, and [input_mins] is unbound when statistics are already
    present. *)
Definition _parse_absorb_to_layers (e : env) (op_types' : list op_type)
    (folding : bool) (s : t)
    : option (t * option (odict (list string))) :=
  let str_op_types := map op_type_name op_types' in
  self_absorb_layers ←
    (if insert_mul s then
       let self_absorb_layers := _get_all_layer_names s in
       match fst (_trace e str_op_types false s) with
       | Some group_modules => share_groups group_modules self_absorb_layers
       | None => Some self_absorb_layers
       end
     else Some []);
  let traced :=
    if allow_absorb s then Some (_trace e str_op_types true s) else None in
  let s := match traced with
           | Some (a, _) => set_absorb_to_layer a s
           | None => s
           end in
  match traced with
  | Some (None, None) => Some (s, None)
  | _ =>
      a ← absorb_to_layer s;
      let self_absorb_layers :=
        fold_left (fun d kv => pop_all (snd kv) d) a self_absorb_layers in
      let a := dict_update a self_absorb_layers in
      let s := set_absorb_to_layer (Some a) s in
      if negb folding && need_calibration s then
        if (size (input_mins s) =? 0)%nat then
          st ← Calib.calibrate e (model s) 1 op_types';
          let s := set_stats (Calib.input_mins st) (Calib.input_maxes st) s in
          let a := filter (fun kv => bool_decide
                              (is_Some (Calib.input_mins st !! fst kv))) a in
          let s := set_absorb_to_layer (Some a) s in
          Some (s, Some a)
        else None
      else Some (s, Some a)
  end.

(** [revert()] *)
Definition revert (s : t) : option t :=
  s1 ← for_each (fun kv => _scale_layer_weight (fst kv)
                             (reciprocal (snd kv)) (/ 2) None)
         (weight_scale_info s) s;
  s2 ← for_each (fun kv => _absorb_scales (fst kv) (reciprocal (snd kv)))
         (absorb_scales_info s) s1;
  Some (set_scale_info [] [] s2).

(** [transform(alpha, folding, percentile, op_types, scales_per_op,
    calib_iter)]: the object after the call; the returned model is its
    [model].  For a negative float [alpha] the call
    [numpy.clip(alpha, 0.0)] lacks the required argument [a_max] and
    raises.  The automatic search of [alpha] needs a tuner from the
    registry [TUNERS], in which this file registers none, and
    [record_max_info] needs the observers of [torch.ao]: both leave the
    embedded fragment. *)
Definition transform (e : env) (alpha' : alpha_t) (folding : bool)
    (percentile' : Z) (op_types' : list op_type) (scales_per_op' : bool)
    (calib_iter' : Z) (s : t) : option t :=
  if negb (is_torch_module (model s)) then Some s else
  _ ← (match alpha' with
       | AlphaFloat a => if Rlt_dec a 0 then None else Some tt
       | _ => Some tt
       end);
  let s := if folding then set_mode false true s else set_mode true false s in
  s ← revert s;
  '(need, s) ← _check_need_calibration alpha' percentile' op_types'
                 scales_per_op' calib_iter' s;
  let s := set_need_calibration need s in
  let input_maxes_abs' := input_maxes_abs s in
  '(s, a) ← _parse_absorb_to_layers e op_types' folding s;
  let s := set_absorb_to_layer a s in
  '(s, input_maxes_abs') ←
     (if (size (input_mins s) =? 0)%nat then Some (s, input_maxes_abs')
      else
        m ← abs_maxes (input_mins s) (input_maxes s);
        Some (if has_q_func e then set_need_calibration false s else s, m));
  match absorb_to_layer s with
  | None => Some s
  | Some a =>
      if is_auto alpha' then None else
      '(s, input_maxes_abs') ←
         (if need_calibration s then
            st ← Calib.calibrate e (model s) calib_iter' op_types';
            let s := set_stats (Calib.input_mins st) (Calib.input_maxes st) s in
            m ← abs_maxes (input_mins s) (input_maxes s);
            Some (s, m)
          else Some (s, input_maxes_abs'));
      if record_max_info s then None else
      alpha_now ← alpha s;
      '(s, (weight_scales, absorb_scales)) ←
         _adjust_parameters a input_maxes_abs' alpha_now s;
      Some (set_scale_info weight_scales absorb_scales s)
  end.

End SmoothQuant.

(** ** [RandomTuneStrategy.next_tune_cfg]

    The loop of the generator.  The two lists that it draws from are built
    before the loop, from the tuning space, by [TuningSpace] and
    [OpWiseTuningSampler]; they are taken as given.  The configurations
    of [op_tuning_cfg_lst] are objects: the loop writes the drawn sampling
    size into the drawn configuration and yields that same object, so the
    list is a heap that is addressed by index.  [np.random.choice(n)] reads
    the next value of the random source and raises when [n] is zero. *)

Module RandomStrategy.

Section Generator.

Context {OpCfg : Type}.

(** A tuning configuration: the operator-wise assignment and the entry
    ['calib_sampling_size']. *)
Record tune_cfg : Type := {
  op_cfg : OpCfg;
  calib_sampling_size : option Z
}.

Record gen_state : Type := {
  op_tuning_cfg_lst : list tune_cfg;
  draws : nat
}.

Variable source : nat -> nat.
Variable calib_sampling_size_lst : list Z.

Definition choice (n : nat) (k : nat) : option nat :=
  if (n =? 0)%nat then None else Some (source k mod n)%nat.

(** One iteration of [while True], up to its [yield]: the index of the
    yielded object and the state in which the consumer sees it. *)
Definition iteration (st : gen_state) : option (nat * gen_state) :=
  calib_index ← choice (length calib_sampling_size_lst) (draws st);
  size ← calib_sampling_size_lst !! calib_index;
  op_tuning_cfg_index ←
    choice (length (op_tuning_cfg_lst st)) (S (draws st));
  op_tuning_cfg ← op_tuning_cfg_lst st !! op_tuning_cfg_index;
  let op_tuning_cfg :=
    {| op_cfg := op_cfg op_tuning_cfg; calib_sampling_size := Some size |} in
  Some (op_tuning_cfg_index,
        {| op_tuning_cfg_lst :=
             <[op_tuning_cfg_index := op_tuning_cfg]> (op_tuning_cfg_lst st);
           draws := S (S (draws st)) |}).

(** The state after [n] values have been yielded and consumed. *)
Fixpoint after (n : nat) (st : gen_state) : option gen_state :=
  match n with
  | O => Some st
  | S n' => st' ← after n' st; snd <$> iteration st'
  end.

(** The [n]-th yielded configuration (counting from zero), as the consumer
    reads it when it is yielded. *)
Definition next_tune_cfg (n : nat) (st : gen_state) : option tune_cfg :=
  st' ← after n st;
  '(i, st'') ← iteration st';
  op_tuning_cfg_lst st'' !! i.

End Generator.

(** [np.random.choice(n)] draws from [range(n)], every value with the same
    probability and independently of the other calls: the outcomes of one
    call, all equally likely. *)
Definition choice_outcomes (n : nat) : list nat := seq 0 n.

(** The random source whose first values are the listed ones. *)
Definition source_of (values : list nat) : nat -> nat :=
  fun k => nth k values 0%nat.

End RandomStrategy.

(** ** Predicates of the statements *)

(** A finite entry that is not negative. *)
Definition finite_nonneg (x : fval) : Prop :=
  exists r, x = Real r /\ (0 <= r)%R.

(** Finite tensors, given by their real entries. *)
Definition reals (l : list R) : vec := map Real l.
Definition real_rows (m : list (list R)) : mat := map reals m.

(** A group of [absorb_to_layer] that [remove_unsupported_layers] keeps:
    the absorbing layer and every layer of the group are of a supported
    type, and the layers pass the convolution check. *)
Definition group_kept (m : model) (kv : string * list string) : bool :=
  Trace.supported_type (class_name (get_module m (fst kv)))
  && forallb (Trace.layer_supported m) (snd kv).

(** ** Example inputs *)

(** A layer normalisation of two features followed by a linear layer of
    two input channels, and a grouped convolution that is not depthwise. *)
Definition example_norm (w b : vec) : module :=
  LayerNorm "LayerNorm" true (Some w) (Some b).

Definition example_linear (w : mat) : module := Linear "Linear" w None.

Definition example_grouped_conv : module :=
  Conv2d "Conv2d" 2 4 8 [] None.

Definition example_model (modules : odict module) : model :=
  {| model_cls := "Sequential"; is_torch_module := true; is_peft := false;
     named_modules := modules |}.

(** The running statistics of a layer are absent, or have [c] channels. *)
Definition hook_state_ok (name : string) (c : nat) (st : Calib.stats) : Prop :=
  Calib.input_maxes st !! name = None
  \/ exists mn mx,
       Calib.input_mins st !! name = Some mn
       /\ Calib.input_maxes st !! name = Some mx
       /\ length mn = c /\ length mx = c.

(** An input of the hook has [c] channels, if it has any. *)
Definition has_channels (l : module) (c : nat) (input : tensor) : Prop :=
  forall n, Calib.channels l input = Some n -> n = c.

(** An environment with a dataloader and no calibration function, whose
    forward passes are given, and whose example input is not a dictionary:
    either every call of [torch.jit.trace] raises, or tracing and freezing
    succeed and the trace has the given nodes. *)
Definition example_env (nodes : option (list (string * option string)))
    (events : list (string * tensor)) : env :=
  {| has_q_func := false; has_dataloader := true;
     forward_events := fun _ _ => events;
     input_is_dict := false;
     torch_jit_trace := fun _ _ => (fun ns _ => ns) <$> nodes;
     torch_jit_freeze := fun g => Some g |}.

(** The forward pass of a model that applies the named sub-modules one
    after the other, as [torch.nn.Sequential] does. *)
Definition sequential (normalize : vec -> vec) (m : model)
    (names : list string) (X : mat) : option mat :=
  fold_left (fun acc name =>
               X ← acc; Forward.forward normalize (get_module m name) X)
    names (Some X).

(** The model of the scenario: a layer normalisation ["norm"] followed by
    a linear layer ["fc"]. *)
Definition norm_linear_model (w b : vec) (W : mat) (lb : option vec) : model :=
  example_model [("norm", example_norm w b); ("fc", Linear "Linear" W lb)].

(** An object whose cached call parameters exist once statistics do, and
    whose minima and maxima are over the same layers with matching
    shapes; [transform] keeps objects so. *)
Definition consistent (s : SmoothQuant.t) : Prop :=
  (SmoothQuant.input_maxes s = ∅
   \/ (is_Some (SmoothQuant.alpha s) /\ is_Some (SmoothQuant.percentile s)
       /\ is_Some (SmoothQuant.op_types s)
       /\ is_Some (SmoothQuant.scales_per_op s)
       /\ is_Some (SmoothQuant.calib_iter s)))
  /\ is_Some (SmoothQuant.abs_maxes (SmoothQuant.input_mins s)
                (SmoothQuant.input_maxes s)).

(** A model of one linear layer ["fc"]. *)
Definition linear_model (W : mat) : model :=
  example_model [("fc", example_linear W)].

(** Two objects that differ at most in their model's sub-modules and in
    their scale records. *)
Definition same_but_model (s s' : SmoothQuant.t) : Prop :=
  SmoothQuant.input_maxes s' = SmoothQuant.input_maxes s
  /\ SmoothQuant.input_mins s' = SmoothQuant.input_mins s
  /\ SmoothQuant.input_maxes_abs s' = SmoothQuant.input_maxes_abs s
  /\ SmoothQuant.insert_mul s' = SmoothQuant.insert_mul s
  /\ SmoothQuant.allow_absorb s' = SmoothQuant.allow_absorb s
  /\ SmoothQuant.record_max_info s' = SmoothQuant.record_max_info s
  /\ SmoothQuant.absorb_to_layer s' = SmoothQuant.absorb_to_layer s
  /\ SmoothQuant.need_calibration s' = SmoothQuant.need_calibration s
  /\ SmoothQuant.alpha s' = SmoothQuant.alpha s
  /\ SmoothQuant.percentile s' = SmoothQuant.percentile s
  /\ SmoothQuant.op_types s' = SmoothQuant.op_types s
  /\ SmoothQuant.scales_per_op s' = SmoothQuant.scales_per_op s
  /\ SmoothQuant.calib_iter s' = SmoothQuant.calib_iter s
  /\ is_torch_module (SmoothQuant.model s')
     = is_torch_module (SmoothQuant.model s)
  /\ is_peft (SmoothQuant.model s') = is_peft (SmoothQuant.model s).

(** The statistics of a calibration of [m] over [op_types]: minima and
    maxima are stored for the same layers, which are sub-modules of [m] of
    one of the types, and have the same size, which is not zero. *)
Definition stats_ok (m : model) (op_types : list op_type) (st : Calib.stats)
    : Prop :=
  forall k,
    match Calib.input_mins st !! k, Calib.input_maxes st !! k with
    | None, None => True
    | Some mn, Some mx =>
        length mn = length mx /\ mx <> []
        /\ exists l, dict_get (named_modules m) k = Some l
                     /\ isinstance_any l op_types = true
    | _, _ => False
    end.

(** Two statistics agree at one layer. *)
Definition agree_at (name : string) (st st' : Calib.stats) : Prop :=
  Calib.input_mins st !! name = Calib.input_mins st' !! name
  /\ Calib.input_maxes st !! name = Calib.input_maxes st' !! name.

(** The layers that the trace reports under the absorbing node [k], in the
    order of the trace; nodes with an empty layer name or an empty
    absorbing name are skipped. *)
Definition absorbed_by (k : string) (nodes : list (string * option string))
    : list string :=
  fst <$> filter (fun n => snd n = Some k /\ fst n <> "" /\ k <> "") nodes.

(** The traced nodes that [get_absorb_to_layer] does not skip. *)
Definition named_node (n : string * option string) : bool :=
  match snd n with
  | None => true
  | Some k => negb (String.eqb (fst n) "" || String.eqb k "")
  end.

(** Every call of [torch.jit.trace] that [GraphTrace.trace] makes on the
    model raises: the one call for a dictionary input, both calls
    otherwise. *)
Definition tracing_raises (e : env) (m : model) : Prop :=
  if input_is_dict e then torch_jit_trace e m Kwargs = None
  else torch_jit_trace e m Whole = None /\ torch_jit_trace e m First = None.

(** An [alpha] that is not a negative float. *)
Definition alpha_accepted (a : SmoothQuant.alpha_t) : Prop :=
  match a with
  | SmoothQuant.AlphaFloat r => (0 <= r)%R
  | _ => True
  end.


(** * Properties *)

(** ** Arithmetic of the entries *)

Section FloatFacts.

Local Open Scope R_scope.

Lemma sgn_pos r : 0 < r -> sgn r = Gt.
Proof. intros H. unfold sgn. destruct (Rcompare_spec r 0); lra || done. Qed.

Lemma sgn_neg r : r < 0 -> sgn r = Lt.
Proof. intros H. unfold sgn. destruct (Rcompare_spec r 0); lra || done. Qed.

Lemma sgn_zero : sgn 0 = Eq.
Proof. unfold sgn. destruct (Rcompare_spec 0 0); lra || done. Qed.

Lemma sgn_Eq r : sgn r = Eq -> r = 0.
Proof. unfold sgn. destruct (Rcompare_spec r 0); done || lra. Qed.

Lemma sgn_Gt r : sgn r = Gt -> 0 < r.
Proof. unfold sgn. destruct (Rcompare_spec r 0); done || lra. Qed.

Lemma sgn_Lt r : sgn r = Lt -> r < 0.
Proof. unfold sgn. destruct (Rcompare_spec r 0); done || lra. Qed.

Lemma eq0_real r : r = 0 -> eq0 (Real r) = true.
Proof. intros ->. unfold eq0. destruct (Req_dec_T 0 0); lra || done. Qed.

Lemma eq0_real_ne r : r <> 0 -> eq0 (Real r) = false.
Proof. intros H. unfold eq0. destruct (Req_dec_T r 0); done. Qed.

Lemma eq0_true x : eq0 x = true -> x = zero.
Proof.
  destruct x as [r| | |]; simpl; try done.
  destruct (Req_dec_T r 0) as [->|]; done.
Qed.

Lemma Rpower_gt0 x y : 0 < Rpower x y.
Proof. unfold Rpower. apply exp_pos. Qed.

Lemma fdiv_real a b : b <> 0 -> fdiv (Real a) (Real b) = Real (a / b).
Proof. intros H. simpl. destruct (Req_dec_T b 0); done. Qed.

Lemma fdiv_real_zero a : fdiv (Real a) (Real 0) = signed_inf (sgn a).
Proof. simpl. destruct (Req_dec_T 0 0); lra || done. Qed.

Lemma fmul_real a b : fmul (Real a) (Real b) = Real (a * b).
Proof. done. Qed.

Lemma fpow_pos r a : a <> 0 -> 0 < r -> fpow (Real r) a = Real (Rpower r a).
Proof.
  intros Ha Hr. unfold fpow. rewrite (sgn_pos r Hr).
  destruct (sgn a) eqn:E; try done. apply sgn_Eq in E. done.
Qed.

Lemma fpow_zero r a : 0 < a -> r = 0 -> fpow (Real r) a = Real 0.
Proof. intros Ha ->. unfold fpow. by rewrite (sgn_pos a Ha), sgn_zero. Qed.

Lemma fpow_exp0 x : fpow x 0 = Real 1.
Proof. unfold fpow. by rewrite sgn_zero. Qed.

Lemma half_pos : 0 < / 2.
Proof. lra. Qed.

Lemma one_minus_half : 1 - / 2 = / 2.
Proof. lra. Qed.

End FloatFacts.

(** ** [cal_scale], channel by channel *)

Section CalScale.

Local Open Scope R_scope.

Lemma mask_set_same_length mask c t :
  length mask = length t ->
  mask_set mask c t
  = Some (zip_with (fun (b : bool) x => if b then c else x) mask t).
Proof. intros H. unfold mask_set. by rewrite H, Nat.eqb_refl. Qed.

Lemma bcast_outer_same_length {A : Type} (f : A -> fval -> A) xs s :
  length xs = length s -> bcast_outer f xs s = Some (zip_with f xs s).
Proof. intros H. unfold bcast_outer. by rewrite H, Nat.eqb_refl. Qed.

Lemma inplace_outer_same_length {A : Type} (f : A -> fval -> A) xs s :
  length xs = length s -> inplace_outer f xs s = Some (zip_with f xs s).
Proof. intros H. unfold inplace_outer. by rewrite H, Nat.eqb_refl. Qed.

Lemma scale_entries_same_size alpha (input_max wm : vec) :
  zip_with (fun (b : bool) x => if b then zero else x)
    (map eq0 (map (fun x => fpow x (1 - alpha)) wm))
    (zip_with (fun (b : bool) x => if b then one else x)
       (map eq0 (map (fun x => fpow x alpha) input_max))
       (map (clip_min scale_eps)
          (zip_with fdiv (map (fun x => fpow x alpha) input_max)
             (map (fun x => fpow x (1 - alpha)) wm))))
  = zip_with (scale_entry alpha) input_max wm.
Proof.
  revert wm. induction input_max as [|x xs IH]; intros [|w ws]; simpl; try done.
  by rewrite IH.
Qed.

Lemma scale_entries_bcast alpha (input_max : vec) (w : fval) :
  zip_with (fun (b : bool) x => if b then one else x)
    (map eq0 (map (fun x => fpow x alpha) input_max))
    (map (clip_min scale_eps)
       (map (fun x => fdiv x (fpow w (1 - alpha)))
          (map (fun x => fpow x alpha) input_max)))
  = map (scale_entry_bcast alpha w) input_max.
Proof. induction input_max as [|x xs IH]; simpl; [done|]. by rewrite IH. Qed.

(** The result of [cal_scale] when the weight power has the size of the
    input power. *)
Lemma cal_scale_same_size input_max weights alpha wm :
  weight_max_per_channel weights = Some wm ->
  length wm = length input_max ->
  input_max <> [] ->
  cal_scale input_max weights alpha
  = Some (zip_with (scale_entry alpha) input_max wm).
Proof.
  intros Hwm Hlen Hne. unfold cal_scale. rewrite Hwm.
  cbn [mbind option_bind].
  destruct input_max as [|x0 xs]; [done|].
  cbn [mbind option_bind].
  rewrite bcast_outer_same_length by (by rewrite !length_map).
  cbn [mbind option_bind].
  rewrite mask_set_same_length
    by (rewrite !length_map, length_zip_with, !length_map, Hlen; lia).
  cbn [mbind option_bind].
  rewrite !length_map, Hlen, Nat.eqb_refl.
  rewrite mask_set_same_length
    by (rewrite ?length_map, ?length_zip_with, ?length_map, ?length_zip_with,
          ?length_map, Hlen; lia).
  by rewrite scale_entries_same_size.
Qed.

Lemma bcast_outer_single {A : Type} (f : A -> fval -> A) xs c :
  length xs <> 1%nat -> bcast_outer f xs [c] = Some (map (fun x => f x c) xs).
Proof.
  intros H. unfold bcast_outer. simpl length.
  rewrite (proj2 (Nat.eqb_neq _ _) H). by destruct xs as [|? [|]].
Qed.

(** The result when the weight power is a single entry and the input power
    is not: the entry is repeated and nothing is set to zero. *)
Lemma cal_scale_bcast input_max weights alpha w :
  weight_max_per_channel weights = Some [w] ->
  length input_max <> 1%nat ->
  input_max <> [] ->
  cal_scale input_max weights alpha
  = Some (map (scale_entry_bcast alpha w) input_max).
Proof.
  intros Hwm Hlen Hne. unfold cal_scale. rewrite Hwm.
  cbn [mbind option_bind].
  destruct input_max as [|x0 xs]; [done|].
  cbn [mbind option_bind].
  change (map (fun x => fpow x (1 - alpha)) [w]) with [fpow w (1 - alpha)].
  rewrite bcast_outer_single by (by rewrite length_map).
  cbn [mbind option_bind].
  rewrite mask_set_same_length by (by rewrite !length_map).
  cbn [mbind option_bind].
  rewrite !length_map. simpl length at 2.
  rewrite (proj2 (Nat.eqb_neq _ _) Hlen).
  f_equal. apply (scale_entries_bcast alpha (x0 :: xs) w).
Qed.

End CalScale.

Section CalScaleClaims.

Local Open Scope R_scope.

Lemma fabs_finite_nonneg x : is_finite x = true -> finite_nonneg (fabs x).
Proof.
  destruct x as [r| | |]; try done. intros _. exists (Rabs r).
  split; [done|apply Rabs_pos].
Qed.

Lemma fmax_finite_nonneg x y :
  finite_nonneg x -> finite_nonneg y -> finite_nonneg (fmax x y).
Proof.
  intros (a & -> & Ha) (b & -> & Hb). exists (Rmax a b). split; [done|].
  unfold Rmax. destruct (Rle_dec a b); lra.
Qed.

Lemma zip_fmax_finite_nonneg (u v : vec) :
  Forall finite_nonneg u -> Forall finite_nonneg v ->
  Forall finite_nonneg (zip_with fmax u v).
Proof.
  intros Hu. revert v. induction Hu as [|x u Hx Hu IH]; intros v Hv; [constructor|].
  destruct Hv as [|y v Hy Hv]; simpl; [constructor|].
  constructor; [by apply fmax_finite_nonneg|by apply IH].
Qed.

Lemma foldl_fmax_finite_nonneg (rows : mat) (r : vec) :
  Forall finite_nonneg r -> Forall (Forall finite_nonneg) rows ->
  Forall finite_nonneg (foldl (zip_with fmax) r rows).
Proof.
  intros Hr Hrows. revert r Hr.
  induction Hrows as [|row rows Hrow Hrows IH]; intros r Hr; simpl; [done|].
  apply IH. by apply zip_fmax_finite_nonneg.
Qed.

(** The per-channel maximum of the absolute values of finite weights is
    finite and not negative. *)
Lemma weight_max_finite_nonneg weights wm :
  weight_max_per_channel weights = Some wm ->
  Forall (Forall (Forall (fun x => is_finite x = true))) weights ->
  Forall finite_nonneg wm.
Proof.
  unfold weight_max_per_channel, cat0. intros H Hfin.
  destruct weights as [|w0 ws]; [done|].
  destruct (uniform (concat (w0 :: ws))); [|done].
  cbn [mbind option_bind] in H.
  assert (Hrows : Forall (Forall finite_nonneg)
                    (map (map fabs) (concat (w0 :: ws)))).
  { apply Forall_map. apply Forall_concat in Hfin.
    eapply Forall_impl; [exact Hfin|]. intros row Hrow. simpl.
    apply Forall_map. eapply Forall_impl; [exact Hrow|].
    intros x Hx. by apply fabs_finite_nonneg. }
  unfold reduce0 in H.
  destruct (map (map fabs) (concat (w0 :: ws))) as [|r rest]; [done|].
  destruct (uniform (r :: rest)); [|done].
  injection H as <-. inversion Hrows; subst.
  by apply foldl_fmax_finite_nonneg.
Qed.

Lemma scale_entry_zero_weight alpha x :
  alpha < 1 -> scale_entry alpha x zero = zero.
Proof.
  intros Ha. unfold scale_entry, zero.
  rewrite (fpow_zero 0 (1 - alpha)) by lra. by rewrite eq0_real.
Qed.

Lemma zero_ne_one : zero <> one.
Proof. unfold zero, one. intros [=]. lra. Qed.

(** [cal_scale] at one channel of weight max zero under an activation max
    of two. *)
Lemma cal_scale_at_zero_weight :
  weight_max_per_channel [[[zero]]] = Some [zero]
  /\ cal_scale [Real 2] [[[zero]]] (/ 2) = Some [zero].
Proof.
  assert (Hwm : weight_max_per_channel [[[zero]]] = Some [zero]).
  { unfold weight_max_per_channel. simpl. unfold zero. by rewrite Rabs_R0. }
  split; [done|].
  rewrite (cal_scale_same_size _ _ _ [zero]) by done.
  simpl. by rewrite scale_entry_zero_weight by lra.
Qed.

(** A channel whose weight max is zero gets the scale [0.0], which is not
    [1.0]. *)
Lemma cal_scale_zero_weight_gets_zero :
  weight_max_per_channel [[[zero]]] = Some [zero]
  /\ cal_scale [Real 2] [[[zero]]] (/ 2) = Some [zero]
  /\ zero <> one.
Proof.
  destruct cal_scale_at_zero_weight as [Hwm Hcode].
  repeat split; [done|done|apply zero_ne_one].
Qed.

(** C2, as the code has it: for [alpha < 1], whatever the activation
    maxima are, when the weight maxima have their size, [cal_scale] returns
    a scale of that size in which every channel whose weight max is zero is
    exactly [0.0]: not [1.0], and neither NaN nor infinite.  (Nothing is
    said of the other channels, whose quotient can overflow in floating
    point.) *)
Theorem cal_scale_zero_weight_channel input_max weights alpha wm :
  alpha < 1 ->
  weight_max_per_channel weights = Some wm ->
  length wm = length input_max ->
  input_max <> [] ->
  exists scale,
    cal_scale input_max weights alpha = Some scale
    /\ length scale = length input_max
    /\ forall i,
         wm !! i = Some zero ->
         exists s, scale !! i = Some s
                   /\ s = zero /\ s <> one
                   /\ is_nan s = false /\ is_inf s = false.
Proof.
  intros Ha Hwm Hlen Hne.
  exists (zip_with (scale_entry alpha) input_max wm).
  split; [by apply cal_scale_same_size|].
  split; [rewrite length_zip_with; lia|].
  intros i Hi. exists zero. split.
  - rewrite lookup_zip_with.
    destruct (lookup_lt_is_Some_2 input_max i) as [x Hx].
    { rewrite <- Hlen. by eapply lookup_lt_Some. }
    rewrite Hx, Hi. simpl. f_equal. by apply scale_entry_zero_weight.
  - split; [done|]. split; [apply zero_ne_one|]. by split.
Qed.

Lemma cal_scale_zero_weight_channel_witness :
  exists scale,
    cal_scale [Real 2; PosInf] [[[Real 1; zero]]] (/ 2) = Some scale
    /\ length scale = 2%nat
    /\ forall i,
         [fabs (Real 1); fabs zero] !! i = Some zero ->
         exists s, scale !! i = Some s
                   /\ s = zero /\ s <> one
                   /\ is_nan s = false /\ is_inf s = false.
Proof.
  apply (cal_scale_zero_weight_channel [Real 2; PosInf] [[[Real 1; zero]]]
           (/ 2) [fabs (Real 1); fabs zero]).
  - lra.
  - reflexivity.
  - reflexivity.
  - discriminate.
Defined.

End CalScaleClaims.

Section CalScaleSizes.

Local Open Scope R_scope.

(** At an input whose two powers have the same size, the code sets the
    scale of the channel of zero weight power to zero, where the wording
    of the specification leaves the clipped quotient. *)
Lemma cal_scale_not_as_specified :
  cal_scale [Real 2] [[[zero]]] (/ 2) = Some [zero]
  /\ cal_scale_as_specified [Real 2] [[[zero]]] (/ 2) = Some [PosInf]
  /\ cal_scale [Real 2] [[[zero]]] (/ 2)
     <> cal_scale_as_specified [Real 2] [[[zero]]] (/ 2).
Proof.
  destruct cal_scale_at_zero_weight as (Hwm & Hcode).
  assert (Hspec : cal_scale_as_specified [Real 2] [[[zero]]] (/ 2)
                  = Some [PosInf]).
  { unfold cal_scale_as_specified. rewrite Hwm.
    cbn [mbind option_bind map].
    unfold zero. rewrite (fpow_zero 0 (1 - / 2)) by lra.
    rewrite (fpow_pos 2 (/ 2)) by lra.
    pose proof (Rpower_gt0 2 (/ 2)) as Hp.
    rewrite bcast_outer_same_length by done.
    cbn [mbind option_bind map zip_with].
    rewrite fdiv_real_zero, (sgn_pos _ Hp). simpl signed_inf. simpl clip_min.
    rewrite mask_set_same_length by done.
    cbn [mbind option_bind map zip_with length].
    by rewrite (eq0_real_ne (Rpower 2 (/ 2))) by lra. }
  split; [done|]. split; [done|]. by rewrite Hcode, Hspec.
Qed.

(** C3, as the code has it: [cal_scale] is, channel by channel, the
    quotient of the activation power by the weight power clipped from below
    at [1e-5]; a channel whose activation power is zero is set to one; and
    a channel whose weight power is zero is then set to zero exactly when
    the two powers have the same size.  When the weight power is a single
    entry under a longer activation power, it is repeated and nothing is
    set to zero. *)
Theorem cal_scale_channels input_max weights alpha wm :
  weight_max_per_channel weights = Some wm ->
  input_max <> [] ->
  (length wm = length input_max ->
   exists scale,
     cal_scale input_max weights alpha = Some scale
     /\ length scale = length input_max
     /\ forall i x w,
          input_max !! i = Some x -> wm !! i = Some w ->
          scale !! i
          = Some (if eq0 (fpow w (1 - alpha)) then zero
                  else if eq0 (fpow x alpha) then one
                  else clip_min scale_eps
                         (fdiv (fpow x alpha) (fpow w (1 - alpha)))))
  /\ (forall w,
        wm = [w] -> length input_max <> 1%nat ->
        exists scale,
          cal_scale input_max weights alpha = Some scale
          /\ length scale = length input_max
          /\ forall i x,
               input_max !! i = Some x ->
               scale !! i
               = Some (if eq0 (fpow x alpha) then one
                       else clip_min scale_eps
                              (fdiv (fpow x alpha) (fpow w (1 - alpha))))).
Proof.
  intros Hwm Hne. split.
  - intros Hlen. exists (zip_with (scale_entry alpha) input_max wm).
    split; [by apply cal_scale_same_size|].
    split; [rewrite length_zip_with; lia|].
    intros i x w Hx Hw. rewrite lookup_zip_with, Hx, Hw. done.
  - intros w -> Hlen. exists (map (scale_entry_bcast alpha w) input_max).
    split; [by apply cal_scale_bcast|].
    split; [by rewrite length_map|].
    intros i x Hx.
    change (map (scale_entry_bcast alpha w) input_max)
      with (scale_entry_bcast alpha w <$> input_max).
    rewrite list_lookup_fmap, Hx. done.
Qed.

Lemma cal_scale_channels_witness :
  exists scale,
    cal_scale [Real 2; Real 4] [[[Real 1; zero]]] (/ 2) = Some scale
    /\ length scale = 2%nat
    /\ forall i x w,
         [Real 2; Real 4] !! i = Some x ->
         [fabs (Real 1); fabs zero] !! i = Some w ->
         scale !! i
         = Some (if eq0 (fpow w (1 - / 2)) then zero
                 else if eq0 (fpow x (/ 2)) then one
                 else clip_min scale_eps
                        (fdiv (fpow x (/ 2)) (fpow w (1 - / 2)))).
Proof.
  apply (proj1 (cal_scale_channels [Real 2; Real 4] [[[Real 1; zero]]] (/ 2)
                  [fabs (Real 1); fabs zero] eq_refl ltac:(discriminate))).
  reflexivity.
Defined.

End CalScaleSizes.

(** ** The inserted wrapper computes what the wrapped layer computed *)

Section WrapperForward.

Local Open Scope R_scope.

Lemma mapM_all_Some {A B : Type} (f : A -> option B) (g : A -> B) l :
  Forall (fun x => f x = Some (g x)) l -> mapM f l = Some (map g l).
Proof.
  induction 1 as [|x l Hx Hl IH]; [done|].
  cbn. rewrite Hx. cbn. by rewrite IH.
Qed.

Lemma length_reals l : length (reals l) = length l.
Proof. apply length_map. Qed.

(** A row divided by a positive scale against an input multiplied by it. *)
Lemma dot_scaled (x w s : list R) :
  length x = length s -> length w = length s -> Forall (fun c => 0 < c) s ->
  Forward.dot (zip_with fmul (reals x) (reals s))
    (zip_with fdiv (reals w) (reals s))
  = Forward.dot (reals x) (reals w).
Proof.
  intros Hx Hw Hs. revert x w Hx Hw.
  induction Hs as [|c s Hc Hs IH]; intros [|a x] [|b w] Hx Hw; try done.
  simpl in Hx, Hw. unfold Forward.dot in *. simpl.
  rewrite IH by lia. destruct (Req_dec_T c 0) as [->|_]; [lra|].
  replace (a * c * (b / c)) with (a * b) by (field; lra). done.
Qed.

Lemma linear_scaled (W : list (list R)) (b : option vec) (s x : list R) :
  Forall (fun row => length row = length s) W ->
  length x = length s -> Forall (fun c => 0 < c) s ->
  Forward.linear (map (fun row => zip_with fdiv row (reals s)) (real_rows W))
    b (zip_with fmul (reals x) (reals s))
  = Forward.linear (real_rows W) b (reals x).
Proof.
  intros HW Hx Hs. unfold Forward.linear.
  assert (Hchk : forall rows (y : vec) n,
             Forall (fun row : vec => length row = n) rows -> length y = n ->
             forallb (fun row => (length row =? length y)%nat) rows = true).
  { intros rows y n Hrows Hy. apply forallb_forall. intros row Hin.
    rewrite Forall_forall in Hrows. apply Nat.eqb_eq.
    rewrite Hy. apply Hrows. by apply list_elem_of_In. }
  rewrite (Hchk _ _ (length s)); cycle 1.
  { apply Forall_map, Forall_map. eapply Forall_impl; [exact HW|].
    intros row Hrow. simpl in Hrow |- *. rewrite length_zip_with, !length_reals. lia. }
  { rewrite length_zip_with, !length_reals. lia. }
  rewrite (Hchk _ _ (length s)); cycle 1.
  { apply Forall_map. eapply Forall_impl; [exact HW|].
    intros row Hrow. simpl in Hrow |- *. by rewrite length_reals. }
  { by rewrite length_reals. }
  replace (map (Forward.dot (zip_with fmul (reals x) (reals s)))
             (map (fun row => zip_with fdiv row (reals s)) (real_rows W)))
    with (map (Forward.dot (reals x)) (real_rows W)); [done|].
  unfold real_rows. rewrite !map_map. apply map_ext_Forall.
  eapply Forall_impl; [exact HW|]. intros row Hrow. simpl in Hrow |- *.
  symmetry. by apply dot_scaled.
Qed.

(** C5: for a [torch.nn.Linear] module, a strictly positive scale of the
    size of its input channels, and an input of rows of that size, the
    construction of the [SQLinearWrapper] succeeds, and in exact real
    arithmetic the forward pass of the wrapper, which multiplies the input
    by the scale before the linear layer whose weight was divided by it,
    gives the output of the original module. *)
Theorem sq_linear_wrapper_forward (normalize : vec -> vec) (cls : string)
    (W : list (list R)) (b : option vec) (s lo hi : list R) (alpha : R)
    (X : list (list R)) :
  s <> [] ->
  Forall (fun c => 0 < c) s ->
  Forall (fun row => length row = length s) W ->
  Forall (fun x => length x = length s) X ->
  length lo = length s -> length hi = length s ->
  exists w,
    SQWrapper.__init__ (Linear cls (real_rows W) b) (reals s)
      (Some (reals lo, reals hi)) alpha = Some w
    /\ w = SQLinearWrapper (reals s) alpha
             (Linear cls (map (fun row => zip_with fdiv row (reals s))
                            (real_rows W)) b) false
    /\ Forward.forward normalize w (real_rows X)
       = Forward.forward normalize (Linear cls (real_rows W) b) (real_rows X).
Proof.
  intros Hne Hs HW HX Hlo Hhi.
  eexists. split; [|split; [reflexivity|]].
  - unfold SQWrapper.__init__. cbn [mbind option_bind].
    unfold SQWrapper._calculate_qparams. cbn [fst snd].
    rewrite !bcast_outer_same_length by (rewrite !length_reals; lia).
    cbn [mbind option_bind].
    destruct s as [|c s]; [done|].
    destruct lo as [|l0 lo]; [done|]. destruct hi as [|h0 hi]; [done|].
    cbn [reals map zip_with mbind option_bind].
    unfold SQWrapper._update_sq_linear, SQWrapper.weight_inplace,
      SQWrapper.rows_inplace.
    rewrite (mapM_all_Some _ (fun row => zip_with fdiv row (reals (c :: s)))).
    + done.
    + apply Forall_map. eapply Forall_impl; [exact HW|]. intros row Hrow.
      simpl in Hrow |- *. apply inplace_outer_same_length.
      unfold reals. simpl. rewrite !length_map. done.
  - cbn [Forward.forward].
    rewrite (mapM_all_Some _ (fun x => zip_with fmul x (reals s))); cycle 1.
    { apply Forall_map. eapply Forall_impl; [exact HX|]. intros x Hx.
      simpl in Hx |- *. apply bcast_outer_same_length. by rewrite !length_reals. }
    cbn [mbind option_bind].
    unfold real_rows at 2 3. rewrite map_map.
    induction HX as [|x X Hx HX IH]; [done|].
    cbn [map mapM]. rewrite IH. by rewrite linear_scaled.
Qed.

Lemma sq_linear_wrapper_forward_witness :
  exists w,
    SQWrapper.__init__ (Linear "Linear" (real_rows [[1; 2]]) None)
      (reals [2; 4]) (Some (reals [0; 0], reals [1; 1])) (/ 2) = Some w
    /\ w = SQLinearWrapper (reals [2; 4]) (/ 2)
             (Linear "Linear"
                (map (fun row => zip_with fdiv row (reals [2; 4]))
                   (real_rows [[1; 2]])) None) false
    /\ Forward.forward (fun x => x) w (real_rows [[3; 5]])
       = Forward.forward (fun x => x) (Linear "Linear" (real_rows [[1; 2]]) None)
           (real_rows [[3; 5]]).
Proof.
  apply (sq_linear_wrapper_forward (fun x => x) "Linear" [[1; 2]] None
           [2; 4] [0; 0] [1; 1] (/ 2) [[3; 5]]).
  - discriminate.
  - repeat constructor; lra.
  - repeat constructor.
  - repeat constructor.
  - reflexivity.
  - reflexivity.
Defined.

End WrapperForward.

(** ** Dictionaries *)

Section DictFacts.

Context {V : Type}.
Implicit Types (d : odict V) (k : string) (v : V).

Lemma dict_get_elem_of d k v : dict_get d k = Some v -> (k, v) ∈ d.
Proof.
  induction d as [|[k' v'] d IH]; simpl; [done|].
  destruct (String.eqb_spec k' k) as [->|Hne].
  - intros [= ->]. apply elem_of_cons. by left.
  - intros H. apply elem_of_cons. right. by apply IH.
Qed.

Lemma dict_get_None d k : dict_get d k = None <-> k ∉ dict_keys d.
Proof.
  unfold dict_keys. induction d as [|[k' v'] d IH]; simpl.
  - split; [intros _; apply not_elem_of_nil|done].
  - rewrite not_elem_of_cons.
    destruct (String.eqb_spec k' k) as [->|Hne].
    + split; [done|]. by intros [? _].
    + rewrite IH. split; [intros ?; split; [congruence|done]|by intros [_ ?]].
Qed.

Lemma dict_get_NoDup d k v :
  NoDup (dict_keys d) -> (k, v) ∈ d -> dict_get d k = Some v.
Proof.
  unfold dict_keys. induction d as [|[k' v'] d IH]; simpl.
  - intros _ H. by apply elem_of_nil in H.
  - rewrite NoDup_cons. intros [Hk' Hd] Hin.
    apply elem_of_cons in Hin as [[= -> ->]|Hin].
    + by rewrite String.eqb_refl.
    + destruct (String.eqb_spec k' k) as [->|Hne]; [|by apply IH].
      exfalso. apply Hk'. apply (list_elem_of_fmap_2 fst) in Hin. done.
Qed.

Lemma dict_set_fresh d k v :
  k ∉ dict_keys d -> dict_set d k v = d ++ [(k, v)].
Proof.
  unfold dict_keys. induction d as [|[k' v'] d IH]; simpl; [done|].
  rewrite not_elem_of_cons. intros [Hne Hk].
  destruct (String.eqb_spec k' k) as [->|_]; [done|]. by rewrite IH.
Qed.

End DictFacts.

(** ** [remove_unsupported_layers] is a filter *)

Section RemoveUnsupported.

Lemma remove_unsupported_loop_spec m absorb_to_layer res no_absorb_layers :
  NoDup (dict_keys res ++ dict_keys absorb_to_layer) ->
  Trace.remove_unsupported_loop m absorb_to_layer res no_absorb_layers
  = (res ++ filter (fun kv => group_kept m kv) absorb_to_layer,
     no_absorb_layers
     ++ concat (snd <$> filter (fun kv => ¬ group_kept m kv) absorb_to_layer)).
Proof.
  revert res no_absorb_layers.
  induction absorb_to_layer as [|[key layers] rest IH]; intros res na Hnd.
  { simpl. by rewrite !app_nil_r. }
  simpl in Hnd. cbn [Trace.remove_unsupported_loop].
  assert (Hfresh : key ∉ dict_keys res).
  { apply NoDup_app in Hnd as (_ & Hdisj & _). intros Hin.
    apply (Hdisj _ Hin). apply elem_of_cons. by left. }
  assert (Hnd1 : NoDup (dict_keys res ++ dict_keys rest)).
  { apply NoDup_app in Hnd as (H1 & H2 & H3). apply NoDup_app.
    split; [done|]. split.
    - intros x Hx Hx'. apply (H2 x Hx). apply elem_of_cons. by right.
    - by apply NoDup_cons in H3 as [_ ?]. }
  assert (Hnd2 : NoDup (dict_keys (res ++ [(key, layers)]) ++ dict_keys rest)).
  { unfold dict_keys in *. rewrite map_app. simpl. rewrite <- app_assoc.
    simpl. exact Hnd. }
  destruct (Trace.supported_type (class_name (get_module m key))) eqn:Hs;
    cbn [negb andb].
  - destruct (forallb (Trace.layer_supported m) layers) eqn:Hf.
    + assert (Hk : group_kept m (key, layers) = true)
        by (unfold group_kept; simpl; by rewrite Hs, Hf).
      rewrite dict_set_fresh by done. rewrite IH by done.
      rewrite filter_cons_True by (rewrite Hk; simpl; tauto).
      rewrite filter_cons_False by (rewrite Hk; simpl; tauto).
      by rewrite <- app_assoc.
    + assert (Hk : group_kept m (key, layers) = false)
        by (unfold group_kept; simpl; by rewrite Hs, Hf).
      rewrite IH by done.
      rewrite filter_cons_False by (rewrite Hk; simpl; tauto).
      rewrite filter_cons_True by (rewrite Hk; simpl; tauto).
      simpl. by rewrite <- app_assoc.
  - assert (Hk : group_kept m (key, layers) = false)
      by (unfold group_kept; simpl; by rewrite Hs).
    rewrite IH by done.
    rewrite filter_cons_False by (rewrite Hk; simpl; tauto).
    rewrite filter_cons_True by (rewrite Hk; simpl; tauto).
    simpl. by rewrite <- app_assoc.
Qed.

(** C8: after [remove_unsupported_layers], every layer name listed in the
    returned dictionary refers to a module whose class is in the supported
    set and which passes the convolution check, and every layer of a group
    that contains an unsupported layer is absent from the dictionary and
    present in the no-absorb list. *)
Theorem remove_unsupported_layers_invariant m absorb_to_layer no_absorb_layers :
  NoDup (dict_keys absorb_to_layer) ->
  let '(res, no_absorb_layers') :=
    Trace.remove_unsupported_layers m absorb_to_layer no_absorb_layers in
  (forall key layers name,
     dict_get res key = Some layers -> name ∈ layers ->
     Trace.supported_type (class_name (get_module m name)) = true
     /\ Trace._check_valid_conv (get_module m name) = true)
  /\ (forall key layers bad,
        dict_get absorb_to_layer key = Some layers ->
        bad ∈ layers -> Trace.layer_supported m bad = false ->
        dict_get res key = None
        /\ forall name, name ∈ layers -> name ∈ no_absorb_layers')
  /\ (forall name, name ∈ no_absorb_layers -> name ∈ no_absorb_layers').
Proof.
  intros Hnd. unfold Trace.remove_unsupported_layers.
  rewrite remove_unsupported_loop_spec by done. simpl app at 1.
  split; [|split].
  - intros key layers name Hget Hin.
    apply dict_get_elem_of, list_elem_of_filter in Hget as [Hok _].
    unfold group_kept in Hok. simpl in Hok.
    apply andb_prop_elim in Hok as [_ Hall].
    apply Is_true_eq_true in Hall. rewrite forallb_forall in Hall.
    specialize (Hall name (proj1 (list_elem_of_In _ _) Hin)).
    unfold Trace.layer_supported in Hall.
    by apply andb_true_iff in Hall.
  - intros key layers bad Hget Hbad Hunsup.
    assert (Hnot : ¬ group_kept m (key, layers)).
    { unfold group_kept. simpl. intros H.
      apply andb_prop_elim in H as [_ Hall].
      apply Is_true_eq_true in Hall. rewrite forallb_forall in Hall.
      specialize (Hall bad (proj1 (list_elem_of_In _ _) Hbad)). congruence. }
    split.
    + destruct (dict_get (filter (fun kv => group_kept m kv) absorb_to_layer)
                  key) as [layers'|] eqn:E;
        [|done].
      apply dict_get_elem_of, list_elem_of_filter in E as [Hok Hin].
      rewrite (dict_get_NoDup _ _ _ Hnd Hin) in Hget.
      injection Hget as ->. done.
    + intros name Hname. apply elem_of_app. right.
      apply list_elem_of_In, in_concat. exists layers. split.
      * apply list_elem_of_In. apply (list_elem_of_fmap_2' snd _ (key, layers));
          [|done].
        apply list_elem_of_filter. split; [done|by apply dict_get_elem_of].
      * by apply list_elem_of_In.
  - intros name Hname. apply elem_of_app. by left.
Qed.

Lemma remove_unsupported_layers_invariant_witness :
  let m := example_model
             [("norm", example_norm [] []); ("fc", example_linear []);
              ("conv", example_grouped_conv)] in
  let '(res, no_absorb_layers') :=
    Trace.remove_unsupported_layers m
      [("norm", ["fc"]); ("fc", ["conv"; "fc"])] ["head"] in
  (forall key layers name,
     dict_get res key = Some layers -> name ∈ layers ->
     Trace.supported_type (class_name (get_module m name)) = true
     /\ Trace._check_valid_conv (get_module m name) = true)
  /\ (forall key layers bad,
        dict_get [("norm", ["fc"]); ("fc", ["conv"; "fc"])] key = Some layers ->
        bad ∈ layers -> Trace.layer_supported m bad = false ->
        dict_get res key = None
        /\ forall name, name ∈ layers -> name ∈ no_absorb_layers')
  /\ (forall name, name ∈ ["head"] -> name ∈ no_absorb_layers').
Proof.
  apply (remove_unsupported_layers_invariant
           (example_model
              [("norm", example_norm [] []); ("fc", example_linear []);
               ("conv", example_grouped_conv)])
           [("norm", ["fc"]); ("fc", ["conv"; "fc"])] ["head"]).
  apply (bool_decide_unpack _). vm_compute. exact I.
Defined.

Example remove_unsupported_layers_example :
  Trace.remove_unsupported_layers
    (example_model
       [("norm", example_norm [] []); ("fc", example_linear []);
        ("conv", example_grouped_conv)])
    [("norm", ["fc"]); ("fc", ["conv"; "fc"])] ["head"]
  = ([("norm", ["fc"])], ["head"; "conv"; "fc"]).
Proof. reflexivity. Qed.

End RemoveUnsupported.

(** ** The first call of [_check_need_calibration] *)

Section NeedCalibration.

Import SmoothQuant.

(** C10: on the first call, when no input statistics have been collected,
    [_check_need_calibration] records [alpha], [percentile], [op_types],
    [scales_per_op] and [calib_iter] on the object, changes nothing else,
    and returns [False] exactly when [alpha] is ["auto"] and the model is
    not a PEFT model; in every other case it returns [True]. *)
Theorem check_need_calibration_first_call (s : SmoothQuant.t)
    (a : alpha_t) (p : Z) (o : list op_type) (sp : bool) (ci : Z) :
  input_maxes s = ∅ ->
  exists need s',
    _check_need_calibration a p o sp ci s = Some (need, s')
    /\ (need = false <-> a = AlphaAuto /\ is_peft (model s) = false)
    /\ (need = true <-> a <> AlphaAuto \/ is_peft (model s) = true)
    /\ alpha s' = Some a /\ percentile s' = Some p /\ op_types s' = Some o
    /\ scales_per_op s' = Some sp /\ calib_iter s' = Some ci
    /\ s' = set_params a p o sp ci s.
Proof.
  intros Hempty. unfold _check_need_calibration.
  rewrite Hempty, map_size_empty. simpl.
  eexists _, _. split; [reflexivity|].
  repeat split; try done.
  - destruct a; simpl in *; try done.
  - destruct a, (is_peft (model s)); simpl in *; done.
  - intros []; subst. by destruct (is_peft (model s)).
  - destruct a, (is_peft (model s)); simpl; intros H; try done;
      try (left; done); right; done.
  - destruct a, (is_peft (model s)); simpl; try done; intros [H|H]; done.
Qed.

Lemma check_need_calibration_first_call_witness :
  let s := SmoothQuant.__init__ (example_model []) true false in
  exists need s',
    _check_need_calibration AlphaAuto 100 [TLinear; TConv2d] false 100 s
    = Some (need, s')
    /\ (need = false
        <-> AlphaAuto = AlphaAuto /\ is_peft (model s) = false)
    /\ (need = true <-> AlphaAuto <> AlphaAuto \/ is_peft (model s) = true)
    /\ alpha s' = Some AlphaAuto /\ percentile s' = Some 100%Z
    /\ op_types s' = Some [TLinear; TConv2d]
    /\ scales_per_op s' = Some false /\ calib_iter s' = Some 100%Z
    /\ s' = set_params AlphaAuto 100 [TLinear; TConv2d] false 100 s.
Proof.
  apply (check_need_calibration_first_call
           (SmoothQuant.__init__ (example_model []) true false)
           AlphaAuto 100 [TLinear; TConv2d] false 100).
  reflexivity.
Defined.

End NeedCalibration.

(** ** The random strategy never runs out of configurations *)

Section RandomGenerator.

Import RandomStrategy.

Context {OpCfg : Type}.
Variable source : nat -> nat.
Variable calib_sampling_size_lst : list Z.

Implicit Types (st : @gen_state OpCfg) (cfgs : list (@tune_cfg OpCfg)).

Lemma choice_Some n k :
  n <> 0%nat -> choice source n k = Some (source k mod n)%nat.
Proof. intros H. unfold choice. by rewrite (proj2 (Nat.eqb_neq _ _) H). Qed.

(** One iteration from a state whose lists are not empty. *)
Lemma iteration_spec st :
  calib_sampling_size_lst <> [] -> op_tuning_cfg_lst st <> [] ->
  exists size cfg,
    calib_sampling_size_lst
      !! (source (draws st) mod length calib_sampling_size_lst)%nat
    = Some size
    /\ op_tuning_cfg_lst st
         !! (source (S (draws st)) mod length (op_tuning_cfg_lst st))%nat
       = Some cfg
    /\ iteration source calib_sampling_size_lst st
       = Some ((source (S (draws st)) mod length (op_tuning_cfg_lst st))%nat,
               {| op_tuning_cfg_lst :=
                    <[(source (S (draws st))
                       mod length (op_tuning_cfg_lst st))%nat :=
                        {| op_cfg := op_cfg cfg;
                           calib_sampling_size := Some size |}]>
                      (op_tuning_cfg_lst st);
                  draws := S (S (draws st)) |}).
Proof.
  intros Hc Ho.
  assert (Hlc : length calib_sampling_size_lst <> 0%nat)
    by (by destruct calib_sampling_size_lst).
  assert (Hlo : length (op_tuning_cfg_lst st) <> 0%nat)
    by (by destruct (op_tuning_cfg_lst st)).
  destruct (lookup_lt_is_Some_2 calib_sampling_size_lst
              (source (draws st) mod length calib_sampling_size_lst)%nat)
    as [size Hsize]; [by apply Nat.mod_upper_bound|].
  destruct (lookup_lt_is_Some_2 (op_tuning_cfg_lst st)
              (source (S (draws st)) mod length (op_tuning_cfg_lst st))%nat)
    as [cfg Hcfg]; [by apply Nat.mod_upper_bound|].
  exists size, cfg. split; [done|]. split; [done|].
  unfold iteration. rewrite !choice_Some by done.
  cbn [mbind option_bind]. rewrite Hsize. cbn [mbind option_bind].
  rewrite Hcfg. done.
Qed.

(** The operator-wise assignments of the list never change, and two values
    of the random source are read per iteration. *)
Lemma after_spec n cfgs :
  calib_sampling_size_lst <> [] -> cfgs <> [] ->
  exists st,
    after source calib_sampling_size_lst n
      {| op_tuning_cfg_lst := cfgs; draws := 0 |} = Some st
    /\ draws st = (2 * n)%nat
    /\ op_cfg <$> op_tuning_cfg_lst st = op_cfg <$> cfgs.
Proof.
  intros Hc Ho. induction n as [|n (st & Hst & Hd & Hops)].
  { eexists. split; [reflexivity|]. done. }
  assert (Hne : op_tuning_cfg_lst st <> []).
  { intros E. rewrite E in Hops. by destruct cfgs. }
  destruct (iteration_spec st Hc Hne) as (size & cfg & _ & Hcfg & Hit).
  eexists. split.
  { cbn [after]. rewrite Hst. cbn [mbind option_bind]. rewrite Hit.
    reflexivity. }
  cbn [snd draws op_tuning_cfg_lst]. split; [lia|].
  rewrite list_fmap_insert. cbn [op_cfg]. rewrite <- Hops.
  apply list_insert_id. by rewrite list_lookup_fmap, Hcfg.
Qed.

(** The [n]-th configuration, for any random source: the operator-wise
    assignment and the sampling size at the indices that the two draws of
    iteration [n] give. *)
Lemma next_tune_cfg_nth n cfgs :
  calib_sampling_size_lst <> [] -> cfgs <> [] ->
  exists size cfg,
    calib_sampling_size_lst
      !! (source (2 * n) mod length calib_sampling_size_lst)%nat = Some size
    /\ cfgs !! (source (2 * n + 1) mod length cfgs)%nat = Some cfg
    /\ next_tune_cfg source calib_sampling_size_lst n
         {| op_tuning_cfg_lst := cfgs; draws := 0 |}
       = Some {| op_cfg := op_cfg cfg; calib_sampling_size := Some size |}.
Proof.
  intros Hc Ho.
  destruct (after_spec n cfgs Hc Ho) as (st & Hst & Hd & Hops).
  assert (Hlen : length (op_tuning_cfg_lst st) = length cfgs).
  { by rewrite <- (length_fmap op_cfg), Hops, length_fmap. }
  assert (Hne : op_tuning_cfg_lst st <> []).
  { intros E. rewrite E in Hlen. by destruct cfgs. }
  destruct (iteration_spec st Hc Hne) as (size & cfg' & Hsize & Hcfg' & Hit).
  rewrite Hd, Hlen in *.
  replace (S (2 * n)) with (2 * n + 1)%nat in * by lia.
  assert (Hcfg : exists cfg, cfgs !! (source (2 * n + 1) mod length cfgs)%nat
                             = Some cfg /\ op_cfg cfg = op_cfg cfg').
  { pose proof (f_equal (fun l => l !! (source (2 * n + 1)
                                        mod length cfgs)%nat) Hops) as E.
    cbv beta in E. rewrite !list_lookup_fmap, Hcfg' in E.
    destruct (cfgs !! _) as [cfg|]; [|done]. exists cfg.
    split; [done|]. cbn [fmap option_fmap option_map] in E. congruence. }
  destruct Hcfg as (cfg & Hcfg & Hop).
  exists size, cfg. split; [done|]. split; [done|].
  unfold next_tune_cfg. rewrite Hst. cbn [mbind option_bind].
  rewrite Hit. cbn [mbind option_bind op_tuning_cfg_lst].
  rewrite list_lookup_insert_eq by (rewrite Hlen; apply Nat.mod_upper_bound;
                                    by destruct cfgs).
  by rewrite Hop.
Qed.

End RandomGenerator.

(** The outcomes of a draw from [range(length l)], read through [l], are
    the entries of [l]. *)
Lemma bind_seq_lookup {A B : Type} (l : list A) (F : nat -> list B)
    (G : A -> list B) (s : nat) :
  (forall i x, l !! i = Some x -> F (s + i)%nat = G x) ->
  seq s (length l) ≫= F = l ≫= G.
Proof.
  revert s. induction l as [|x l IH]; intros s H; [done|].
  cbn [length seq]. rewrite !bind_cons. f_equal.
  - rewrite <- (H 0%nat x) by done. by rewrite Nat.add_0_r.
  - apply IH. intros i y Hy. rewrite <- (H (S i) y Hy). f_equal. lia.
Qed.

Lemma source_of_next (earlier : list nat) (a b : nat) :
  RandomStrategy.source_of (earlier ++ [a; b]) (length earlier) = a
  /\ RandomStrategy.source_of (earlier ++ [a; b]) (length earlier + 1) = b.
Proof.
  unfold RandomStrategy.source_of. split.
  - rewrite app_nth2 by lia. by rewrite Nat.sub_diag.
  - rewrite app_nth2 by lia.
    by replace (length earlier + 1 - length earlier)%nat with 1%nat by lia.
Qed.

(** C9, as the code has it: when the two lists that the loop draws from
    are not empty, the generator yields an [n]-th configuration for every
    [n]; that configuration is the operator-wise assignment at the index
    drawn for it from the precomputed list, with the sampling size at the
    index drawn for it from the option list, the two indices being the two
    values that the random source gives in iteration [n] reduced to the
    ranges of the lists.  With [np.random.choice] uniform on its range,
    whatever the earlier draws were, the equally likely outcomes of the two
    draws of iteration [n] yield every pair of a sampling size of the
    option list and an assignment of the precomputed list exactly once:
    the [n]-th configuration is uniform on the product of the two lists
    and independent of the earlier draws. *)
Theorem next_tune_cfg_every_n {OpCfg : Type} (source : nat -> nat)
    (calib_sampling_size_lst : list Z) (n : nat)
    (cfgs : list (@RandomStrategy.tune_cfg OpCfg)) :
  calib_sampling_size_lst <> [] -> cfgs <> [] ->
  (exists size cfg,
     calib_sampling_size_lst
       !! (source (2 * n) mod length calib_sampling_size_lst)%nat = Some size
     /\ cfgs !! (source (2 * n + 1) mod length cfgs)%nat = Some cfg
     /\ RandomStrategy.next_tune_cfg source calib_sampling_size_lst n
          {| RandomStrategy.op_tuning_cfg_lst := cfgs;
             RandomStrategy.draws := 0 |}
        = Some {| RandomStrategy.op_cfg := RandomStrategy.op_cfg cfg;
                  RandomStrategy.calib_sampling_size := Some size |})
  /\ forall earlier : list nat,
       length earlier = (2 * n)%nat ->
       (calib_index ←
          RandomStrategy.choice_outcomes (length calib_sampling_size_lst);
        op_tuning_cfg_index ← RandomStrategy.choice_outcomes (length cfgs);
        [RandomStrategy.next_tune_cfg
           (RandomStrategy.source_of
              (earlier ++ [calib_index; op_tuning_cfg_index]))
           calib_sampling_size_lst n
           {| RandomStrategy.op_tuning_cfg_lst := cfgs;
              RandomStrategy.draws := 0 |}])
       = (size ← calib_sampling_size_lst;
          cfg ← cfgs;
          [Some {| RandomStrategy.op_cfg := RandomStrategy.op_cfg cfg;
                   RandomStrategy.calib_sampling_size := Some size |}]).
Proof.
  intros Hc Ho. split; [by apply next_tune_cfg_nth|].
  intros earlier Hlen. unfold RandomStrategy.choice_outcomes.
  apply bind_seq_lookup. intros a size Hsize.
  apply bind_seq_lookup. intros b cfg Hcfg.
  cbn [Nat.add]. f_equal.
  destruct (next_tune_cfg_nth
              (RandomStrategy.source_of (earlier ++ [a; b]))
              calib_sampling_size_lst n cfgs Hc Ho)
    as (size' & cfg' & Hsize' & Hcfg' & ->).
  destruct (source_of_next earlier a b) as [Ha Hb].
  rewrite Hlen in Ha, Hb. rewrite Ha in Hsize'. rewrite Hb in Hcfg'.
  rewrite Nat.mod_small in Hsize' by (by eapply lookup_lt_Some).
  rewrite Nat.mod_small in Hcfg' by (by eapply lookup_lt_Some).
  congruence.
Qed.

Lemma next_tune_cfg_every_n_witness :
  let sizes := [100%Z; 200%Z] in
  let cfgs := [ {| RandomStrategy.op_cfg := "int8";
                   RandomStrategy.calib_sampling_size := None |};
                {| RandomStrategy.op_cfg := "fp32";
                   RandomStrategy.calib_sampling_size := None |} ] in
  (exists size cfg,
     sizes !! ((fun k => k) (2 * 3) mod length sizes)%nat = Some size
     /\ cfgs !! ((fun k => k) (2 * 3 + 1) mod length cfgs)%nat = Some cfg
     /\ RandomStrategy.next_tune_cfg (fun k => k) sizes 3
          {| RandomStrategy.op_tuning_cfg_lst := cfgs;
             RandomStrategy.draws := 0 |}
        = Some {| RandomStrategy.op_cfg := RandomStrategy.op_cfg cfg;
                  RandomStrategy.calib_sampling_size := Some size |})
  /\ forall earlier : list nat,
       length earlier = (2 * 3)%nat ->
       (calib_index ← RandomStrategy.choice_outcomes (length sizes);
        op_tuning_cfg_index ← RandomStrategy.choice_outcomes (length cfgs);
        [RandomStrategy.next_tune_cfg
           (RandomStrategy.source_of
              (earlier ++ [calib_index; op_tuning_cfg_index]))
           sizes 3
           {| RandomStrategy.op_tuning_cfg_lst := cfgs;
              RandomStrategy.draws := 0 |}])
       = (size ← sizes;
          cfg ← cfgs;
          [Some {| RandomStrategy.op_cfg := RandomStrategy.op_cfg cfg;
                   RandomStrategy.calib_sampling_size := Some size |}]).
Proof.
  intros sizes cfgs.
  apply (next_tune_cfg_every_n (fun k => k) sizes 3 cfgs); discriminate.
Defined.

(** ** The random strategy on an empty option list *)

Section RandomGeneratorEmpty.

Import RandomStrategy.

Context {OpCfg : Type}.
Variable source : nat -> nat.

Implicit Types (st : @gen_state OpCfg).

(** With an empty list to draw from, [np.random.choice(0)] raises in the
    first iteration that is run. *)
Lemma iteration_empty sizes st :
  sizes = [] \/ op_tuning_cfg_lst st = [] ->
  iteration source sizes st = None.
Proof.
  unfold iteration, choice. intros [->|Hst].
  - done.
  - destruct (length sizes =? 0)%nat; [done|]. cbn [mbind option_bind].
    destruct (sizes !! _); [|done]. cbn [mbind option_bind].
    by rewrite Hst.
Qed.

Lemma next_tune_cfg_empty sizes n st :
  sizes = [] \/ op_tuning_cfg_lst st = [] ->
  next_tune_cfg source sizes n st = None.
Proof.
  intros H. unfold next_tune_cfg.
  assert (Hafter : after source sizes n st = None \/ n = 0%nat).
  { induction n as [|n IH]; [by right|]. left. cbn [after].
    destruct IH as [->| ->]; [done|]. cbn [after mbind option_bind].
    by rewrite iteration_empty. }
  destruct Hafter as [->| ->]; [done|].
  cbn [after mbind option_bind]. by rewrite iteration_empty.
Qed.

End RandomGeneratorEmpty.

(** With an empty list of calibration sampling sizes the generator yields
    nothing: the first [next] raises, so that there is neither a first
    configuration nor a later one. *)
Lemma next_tune_cfg_empty_options :
  RandomStrategy.next_tune_cfg (fun k => k) [] 0
    {| RandomStrategy.op_tuning_cfg_lst :=
         [ {| RandomStrategy.op_cfg := "int8";
              RandomStrategy.calib_sampling_size := None |} ];
       RandomStrategy.draws := 0 |}
  = None
  /\ RandomStrategy.next_tune_cfg (fun k => k) [] 3
       {| RandomStrategy.op_tuning_cfg_lst :=
            [ {| RandomStrategy.op_cfg := "int8";
                 RandomStrategy.calib_sampling_size := None |} ];
          RandomStrategy.draws := 0 |}
     = None.
Proof. split; apply next_tune_cfg_empty; by left. Qed.

(** ** The running minimum and maximum do not depend on the order of the
    batches *)

Section CalibrationOrder.

Import Calib.

Lemma fmax_comm x y : fmax x y = fmax y x.
Proof. destruct x, y; simpl; try done. f_equal. apply Rmax_comm. Qed.

Lemma fmin_comm x y : fmin x y = fmin y x.
Proof. destruct x, y; simpl; try done. f_equal. apply Rmin_comm. Qed.

Lemma fmax_assoc x y z : fmax (fmax x y) z = fmax x (fmax y z).
Proof. destruct x, y, z; simpl; try done. f_equal. symmetry. apply Rmax_assoc. Qed.

Lemma fmin_assoc x y z : fmin (fmin x y) z = fmin x (fmin y z).
Proof. destruct x, y, z; simpl; try done. f_equal. symmetry. apply Rmin_assoc. Qed.

Lemma zip_with_comm (f : fval -> fval -> fval) (u v : vec) :
  (forall x y, f x y = f y x) -> zip_with f u v = zip_with f v u.
Proof.
  intros Hf. revert v. induction u as [|x u IH]; intros [|y v]; simpl; try done.
  by rewrite Hf, IH.
Qed.

(** Merging [x] and then [y] into [old] is merging [y] and then [x]. *)
Lemma zip_with_swap (f : fval -> fval -> fval) (old u v : vec) :
  (forall x y, f x y = f y x) ->
  (forall x y z, f (f x y) z = f x (f y z)) ->
  zip_with f (zip_with f old u) v = zip_with f (zip_with f old v) u.
Proof.
  intros Hc Ha. revert u v.
  induction old as [|o old IH]; intros [|x u] [|y v]; simpl; try done.
  rewrite IH. f_equal. by rewrite !Ha, (Hc x y).
Qed.

Lemma foldl_zip_with_length (f : fval -> fval -> fval) (rest : mat) (r : vec) :
  Forall (fun r' => length r' = length r) rest ->
  length (foldl (zip_with f) r rest) = length r.
Proof.
  intros H. revert r H. induction rest as [|r' rest IH]; intros r H; [done|].
  inversion H as [|?? Hr' Hrest]; subst. simpl. rewrite IH.
  - rewrite length_zip_with. lia.
  - eapply Forall_impl; [exact Hrest|]. intros r'' Hr''. simpl in Hr''.
    rewrite length_zip_with. lia.
Qed.

Lemma reduce0_length (f : fval -> fval -> fval) (rows : mat) (v : vec) :
  reduce0 f rows = Some v ->
  exists r, head rows = Some r /\ length v = length r.
Proof.
  unfold reduce0. destruct rows as [|r rest]; [done|].
  destruct (uniform (r :: rest)) eqn:Hu; [|done]. intros [= <-].
  exists r. split; [done|]. apply foldl_zip_with_length.
  simpl in Hu. apply Forall_forall. intros r' Hin.
  rewrite forallb_forall in Hu.
  apply Nat.eqb_eq, Hu. by apply list_elem_of_In.
Qed.

Lemma batch_min_max_length l c b mn mx :
  has_channels l c b -> batch_min_max l b = Some (mn, mx) ->
  length mn = c /\ length mx = c.
Proof.
  unfold has_channels, channels, batch_min_max. intros Hc H.
  destruct (hook_rows l b) as [rows|]; [|done].
  cbn [mbind option_bind] in *.
  destruct (reduce0 fmax rows) as [mx'|] eqn:Emax; [|done].
  destruct (reduce0 fmin rows) as [mn'|] eqn:Emin; [|done].
  cbn [mbind option_bind] in H. injection H as -> ->.
  apply reduce0_length in Emax as (r & Hr & Hmx).
  apply reduce0_length in Emin as (r' & Hr' & Hmn).
  rewrite Hr in Hr'. injection Hr' as <-. rewrite Hr in Hc.
  specialize (Hc _ eq_refl). lia.
Qed.

(** The hook, on a state and an input of [c] channels. *)
Lemma save_input_hook_spec name l c b st :
  hook_state_ok name c st -> has_channels l c b ->
  save_input_hook name l b st
  = '(mn, mx) ← batch_min_max l b;
    Some {| input_mins :=
              <[name := match input_maxes st !! name, input_mins st !! name with
                        | Some _, Some old => zip_with fmin old mn
                        | _, _ => mn
                        end]> (input_mins st);
            input_maxes :=
              <[name := match input_maxes st !! name with
                        | Some old => zip_with fmax old mx
                        | None => mx
                        end]> (input_maxes st) |}.
Proof.
  intros Hst Hb. unfold save_input_hook.
  destruct (batch_min_max l b) as [[mn mx]|] eqn:E; [|done].
  cbn [mbind option_bind].
  destruct (batch_min_max_length _ _ _ _ _ Hb E) as [Hmn Hmx].
  destruct Hst as [->|(omn & omx & -> & -> & Homn & Homx)]; [done|].
  cbn [mbind option_bind].
  rewrite !bcast_outer_same_length by lia. done.
Qed.

Lemma save_input_hook_ok name l c b st st' :
  hook_state_ok name c st -> has_channels l c b ->
  save_input_hook name l b st = Some st' -> hook_state_ok name c st'.
Proof.
  intros Hst Hb. rewrite (save_input_hook_spec _ _ c) by done.
  destruct (batch_min_max l b) as [[mn mx]|] eqn:E; [|done].
  destruct (batch_min_max_length _ _ _ _ _ Hb E) as [Hmn Hmx].
  cbn [mbind option_bind]. intros [= <-]. right. simpl.
  rewrite !lookup_insert_eq. eexists _, _. split; [done|]. split; [done|].
  destruct Hst as [->|(omn & omx & -> & -> & Homn & Homx)]; [done|].
  rewrite !length_zip_with. lia.
Qed.

(** Two calls of the hook commute. *)
Lemma save_input_hook_comm name l c x y st :
  hook_state_ok name c st -> has_channels l c x -> has_channels l c y ->
  (st' ← save_input_hook name l x st; save_input_hook name l y st')
  = (st' ← save_input_hook name l y st; save_input_hook name l x st').
Proof.
  intros Hst Hx Hy.
  destruct (save_input_hook name l x st) as [sx|] eqn:Ex;
    destruct (save_input_hook name l y st) as [sy|] eqn:Ey;
    cbn [mbind option_bind].
  - pose proof (save_input_hook_ok _ _ _ _ _ _ Hst Hx Ex) as Hsx.
    pose proof (save_input_hook_ok _ _ _ _ _ _ Hst Hy Ey) as Hsy.
    rewrite (save_input_hook_spec _ _ c) by done.
    rewrite (save_input_hook_spec _ _ c _ sy) by done.
    rewrite (save_input_hook_spec _ _ c) in Ex, Ey by done.
    destruct (batch_min_max l x) as [[mnx mxx]|] eqn:Bx; [|done].
    destruct (batch_min_max l y) as [[mny mxy]|] eqn:By; [|done].
    destruct (batch_min_max_length _ _ _ _ _ Hx Bx) as [Hmnx Hmxx].
    destruct (batch_min_max_length _ _ _ _ _ Hy By) as [Hmny Hmxy].
    cbn [mbind option_bind] in *.
    injection Ex as <-. injection Ey as <-. simpl.
    rewrite !lookup_insert_eq, !insert_insert_eq. f_equal.
    destruct Hst as [->|(omn & omx & -> & -> & Homn & Homx)].
    + f_equal; f_equal;
        [apply zip_with_comm, fmin_comm|apply zip_with_comm, fmax_comm].
    + f_equal; f_equal;
        [apply zip_with_swap; [apply fmin_comm|apply fmin_assoc]
        |apply zip_with_swap; [apply fmax_comm|apply fmax_assoc]].
  - pose proof (save_input_hook_ok _ _ _ _ _ _ Hst Hx Ex) as Hsx.
    rewrite (save_input_hook_spec _ _ c) by done.
    rewrite (save_input_hook_spec _ _ c) in Ey by done.
    by destruct (batch_min_max l y) as [[mny mxy]|].
  - pose proof (save_input_hook_ok _ _ _ _ _ _ Hst Hy Ey) as Hsy.
    rewrite (save_input_hook_spec _ _ c) by done.
    rewrite (save_input_hook_spec _ _ c) in Ex by done.
    by destruct (batch_min_max l x) as [[mnx mxx]|].
  - done.
Qed.

Lemma feed_permutation name l c bs bs' :
  Permutation bs bs' ->
  Forall (has_channels l c) bs ->
  forall st, hook_state_ok name c st -> feed name l bs st = feed name l bs' st.
Proof.
  unfold feed.
  induction 1 as [|x bs bs' Hp IH|x y bs|bs1 bs2 bs3 Hp1 IH1 Hp2 IH2];
    intros Hall st Hst.
  - done.
  - inversion Hall as [|?? Hx Hbs]; subst. cbn [for_each].
    destruct (save_input_hook name l x st) as [sx|] eqn:Ex; [|done].
    cbn [mbind option_bind]. apply IH; [done|].
    by eapply save_input_hook_ok.
  - inversion Hall as [|?? Hy Hall']; subst.
    inversion Hall' as [|?? Hx Hbs]; subst. cbn [for_each].
    pose proof (save_input_hook_comm name l c y x st Hst Hy Hx) as Hcomm.
    destruct (save_input_hook name l y st) as [sy|];
      destruct (save_input_hook name l x st) as [sx|];
      cbn [mbind option_bind] in *; try done.
    + by rewrite Hcomm.
    + by rewrite Hcomm.
    + by rewrite <- Hcomm.
  - rewrite IH1 by done. apply IH2; [|done].
    eapply Permutation_Forall; [|exact Hall]. done.
Qed.

Lemma feed_is_Some name l c bs :
  Forall (has_channels l c) bs ->
  Forall (fun b => is_Some (batch_min_max l b)) bs ->
  forall st, hook_state_ok name c st ->
  exists st', feed name l bs st = Some st' /\ hook_state_ok name c st'.
Proof.
  unfold feed. induction bs as [|b bs IH]; intros Hall Hsome st Hst.
  { by exists st. }
  inversion Hall as [|?? Hb Hbs]; subst.
  inversion Hsome as [|?? [[mn mx] Hmm] Hsome']; subst.
  cbn [for_each].
  destruct (save_input_hook name l b st) as [sb|] eqn:Eb.
  - cbn [mbind option_bind]. apply IH; [done|done|].
    by eapply save_input_hook_ok.
  - rewrite (save_input_hook_spec _ _ c) in Eb by done.
    by rewrite Hmm in Eb.
Qed.

(** C6: for every hooked layer and all batches of its number of channels,
    the calls of the observation hook on any permutation of the batches,
    starting as [calibrate] does from no statistics for the layer, end in
    the same state, hence in the same per-channel running minimum and
    maximum for the layer; and when every batch can be reduced, that state
    exists. *)
Theorem calibration_order_independent name l c bs bs' st :
  Permutation bs bs' ->
  Forall (has_channels l c) bs ->
  input_maxes st !! name = None ->
  feed name l bs st = feed name l bs' st
  /\ (Forall (fun b => is_Some (batch_min_max l b)) bs ->
      exists st', feed name l bs st = Some st'
                  /\ feed name l bs' st = Some st'
                  /\ hook_state_ok name c st').
Proof.
  intros Hp Hall Hfresh.
  assert (Hst : hook_state_ok name c st) by by left.
  pose proof (feed_permutation name l c bs bs' Hp Hall st Hst) as Heq.
  split; [done|]. intros Hsome.
  destruct (feed_is_Some name l c bs Hall Hsome st Hst) as (st' & Hst' & Hok).
  exists st'. rewrite <- Heq. done.
Qed.

Lemma calibration_order_independent_witness :
  let l := example_linear [[Real 1; Real 1]] in
  let b1 := T2 [[Real 1; Real 2]; [Real 5; Real 0]] in
  let b2 := T3 [[[Real 3; Real 0]]] in
  feed "fc" l [b1; b2] empty_stats = feed "fc" l [b2; b1] empty_stats
  /\ (Forall (fun b => is_Some (batch_min_max l b)) [b1; b2] ->
      exists st', feed "fc" l [b1; b2] empty_stats = Some st'
                  /\ feed "fc" l [b2; b1] empty_stats = Some st'
                  /\ hook_state_ok "fc" 2 st').
Proof.
  apply (calibration_order_independent "fc"
           (example_linear [[Real 1; Real 1]]) 2
           [T2 [[Real 1; Real 2]; [Real 5; Real 0]]; T3 [[[Real 3; Real 0]]]]
           [T3 [[[Real 3; Real 0]]]; T2 [[Real 1; Real 2]; [Real 5; Real 0]]]
           empty_stats).
  - apply perm_swap.
  - repeat constructor; intros n [= <-]; reflexivity.
  - reflexivity.
Defined.

End CalibrationOrder.

(** ** The fold transform of a normalisation layer followed by a linear
    layer *)

Section FoldNormLinear.

Import SmoothQuant.

Lemma length_absorb_scale_of scale :
  length (absorb_scale_of scale) = length scale.
Proof.
  unfold absorb_scale_of, reciprocal. rewrite length_zip_with, !length_map. lia.
Qed.

Lemma length_reciprocal v : length (reciprocal v) = length v.
Proof. apply length_map. Qed.

Lemma rows_bcast_same_length f (s : vec) (W : mat) :
  Forall (fun row => length row = length s) W ->
  SQWrapper.rows_bcast f s W = Some (map (fun row => zip_with f row s) W).
Proof.
  intros H. unfold SQWrapper.rows_bcast. apply mapM_all_Some.
  eapply Forall_impl; [exact H|]. intros row Hrow. simpl in Hrow |- *.
  by apply bcast_outer_same_length.
Qed.

Lemma rows_inplace_same_length f (s : vec) (W : mat) :
  Forall (fun row => length row = length s) W ->
  SQWrapper.rows_inplace f s W = Some (map (fun row => zip_with f row s) W).
Proof.
  intros H. unfold SQWrapper.rows_inplace. apply mapM_all_Some.
  eapply Forall_impl; [exact H|]. intros row Hrow. simpl in Hrow |- *.
  by apply inplace_outer_same_length.
Qed.

(** The two layers of the scenario, and the layers that the fold transform
    leaves for a given scale. *)
Lemma adjust_parameters_norm_linear (s : SmoothQuant.t) c1 c2
    (w b : vec) (W : mat) (lb : option vec) (lo hi im scale : vec)
    (maxes_abs : gmap string vec) (a : R) :
  named_modules (model s)
  = [("norm", LayerNorm c1 true (Some w) (Some b)); ("fc", Linear c2 W lb)] ->
  insert_mul s = false -> allow_absorb s = true ->
  input_mins s !! "fc" = Some lo -> input_maxes s !! "fc" = Some hi ->
  maxes_abs !! "fc" = Some im ->
  cal_scale im [W] a = Some scale ->
  length w = length scale -> length b = length scale ->
  Forall (fun row => length row = length scale) W ->
  _adjust_parameters [("norm", ["fc"])] maxes_abs (AlphaFloat a) s
  = Some (set_model
            (with_modules (model s)
               [("norm", LayerNorm c1 true
                           (Some (zip_with fmul w (absorb_scale_of scale)))
                           (Some (zip_with fmul b (absorb_scale_of scale))));
                ("fc", Linear c2 (map (fun row => zip_with fmul row scale) W)
                         lb)]) s,
          ([("fc", scale)], [("norm", absorb_scale_of scale)])).
Proof.
  intros Hm Hins Habs Hlo Hhi Him Hscale Hw Hb HW.
  unfold _adjust_parameters, _cal_scales.
  cbn [mapM mbind option_bind snd head].
  rewrite Him. cbn [mbind option_bind fmap option_fmap option_map mret option_ret].
  cbn [cal_scales_loop alpha_for mbind option_bind head].
  rewrite Him. cbn [mbind option_bind mapM].
  unfold reshape_in_channel_to_last, get_module. rewrite Hm.
  cbn [dict_get String.eqb Ascii.eqb Bool.eqb weight_rows].
  cbn [mbind option_bind fmap option_fmap option_map mret option_ret].
  rewrite Hscale.
  cbn [mbind option_bind cal_scales_loop fold_left dict_set].
  cbn [adjust_loop mbind option_bind fmap option_fmap option_map dict_get
         String.eqb Ascii.eqb Bool.eqb].
  unfold _absorb_scales. rewrite Hins, Habs. cbn [orb negb].
  unfold get_module. rewrite Hm.
  cbn [dict_get String.eqb Ascii.eqb Bool.eqb absorb mbind option_bind].
  rewrite !inplace_outer_same_length by (by rewrite length_absorb_scale_of).
  cbn [mbind option_bind fmap option_fmap option_map].
  unfold put_module, dict_mem. rewrite Hm.
  cbn [dict_get String.eqb Ascii.eqb Bool.eqb].
  unfold set_module. rewrite Hm. cbn [dict_set String.eqb Ascii.eqb Bool.eqb].
  cbn [scale_layers set_model input_mins input_maxes].
  rewrite Hlo, Hhi. cbn [mbind option_bind dict_get String.eqb Ascii.eqb Bool.eqb].
  unfold _scale_layer_weight.
  cbn [set_model insert_mul allow_absorb model]. rewrite Hins, Habs.
  unfold get_module.
  cbn [with_modules named_modules dict_get String.eqb Ascii.eqb Bool.eqb
         scale_weight].
  rewrite rows_bcast_same_length by done.
  cbn [mbind option_bind]. unfold put_module, dict_mem.
  cbn [with_modules named_modules dict_get String.eqb Ascii.eqb Bool.eqb
         set_module dict_set model_cls is_torch_module is_peft].
  reflexivity.
Qed.

(** Reverting the two layers. *)
Lemma revert_norm_linear (s : SmoothQuant.t) c1 c2
    (w b : vec) (W : mat) (lb : option vec) (scale ab : vec) :
  named_modules (model s)
  = [("norm", LayerNorm c1 true (Some w) (Some b)); ("fc", Linear c2 W lb)] ->
  insert_mul s = false -> allow_absorb s = true ->
  weight_scale_info s = [("fc", scale)] ->
  absorb_scales_info s = [("norm", ab)] ->
  length w = length ab -> length b = length ab ->
  Forall (fun row => length row = length scale) W ->
  revert s
  = Some (set_scale_info [] []
            (set_model
               (with_modules (model s)
                  [("norm", LayerNorm c1 true
                              (Some (zip_with fmul w (reciprocal ab)))
                              (Some (zip_with fmul b (reciprocal ab))));
                   ("fc", Linear c2
                            (map (fun row => zip_with fmul row
                                               (reciprocal scale)) W) lb)])
               s)).
Proof.
  intros Hm Hins Habs Hws Has Hw Hb HW.
  unfold revert. rewrite Hws, Has.
  cbn [for_each fst snd mbind option_bind].
  unfold _scale_layer_weight. rewrite Hins, Habs.
  unfold get_module. rewrite Hm.
  cbn [dict_get String.eqb Ascii.eqb Bool.eqb scale_weight].
  rewrite rows_bcast_same_length
    by (eapply Forall_impl; [exact HW|]; intros row Hrow; simpl in Hrow |- *;
        by rewrite length_reciprocal).
  cbn [mbind option_bind]. unfold put_module, dict_mem. rewrite Hm.
  cbn [dict_get String.eqb Ascii.eqb Bool.eqb].
  unfold set_module. rewrite Hm. cbn [dict_set String.eqb Ascii.eqb Bool.eqb].
  unfold _absorb_scales.
  cbn [set_model insert_mul allow_absorb model]. rewrite Hins, Habs.
  cbn [orb negb]. unfold get_module.
  cbn [with_modules named_modules dict_get String.eqb Ascii.eqb Bool.eqb
         absorb mbind option_bind].
  rewrite !inplace_outer_same_length by (by rewrite length_reciprocal).
  cbn [mbind option_bind fmap option_fmap option_map].
  unfold put_module, dict_mem.
  cbn [with_modules named_modules dict_get String.eqb Ascii.eqb Bool.eqb
         set_module dict_set model_cls is_torch_module is_peft].
  reflexivity.
Qed.

Lemma pop_all_nil v : pop_all v [] = [].
Proof. unfold pop_all. induction v as [|i v IH]; [done|]. simpl. exact IH. Qed.

Lemma fold_pop_all_nil (a : odict (list string)) :
  fold_left (fun d kv => pop_all (snd kv) d) a [] = [].
Proof.
  induction a as [|kv a IH]; [done|]. simpl. by rewrite pop_all_nil.
Qed.

(** [revert] on an object with no recorded scales only clears the two
    (empty) records. *)
Lemma revert_nothing_recorded (s : SmoothQuant.t) :
  weight_scale_info s = [] -> absorb_scales_info s = [] ->
  revert s = Some (set_scale_info [] [] s).
Proof.
  intros Hws Has. unfold revert. rewrite Hws.
  cbn [for_each mbind option_bind]. rewrite Has. reflexivity.
Qed.

(** [_check_need_calibration] while no statistics are stored. *)
Lemma check_need_calibration_no_stats al p o sp ci (s : SmoothQuant.t) :
  input_maxes s = ∅ ->
  _check_need_calibration al p o sp ci s
  = Some (if is_auto al && negb (Model.is_peft (model s)) then false else true,
          set_params al p o sp ci s).
Proof.
  intros Hmax. unfold _check_need_calibration.
  rewrite Hmax, map_size_empty. reflexivity.
Qed.

(** [_parse_absorb_to_layers] in fold mode, when the trace succeeds. *)
Lemma parse_absorb_to_layers_fold (e : env) o (s : SmoothQuant.t) a2l nal :
  insert_mul s = false -> allow_absorb s = true ->
  Trace.get_absorb_to_layer e (model s) (map op_type_name o) true
  = (Some a2l, Some nal) ->
  _parse_absorb_to_layers e o true s
  = Some (set_absorb_to_layer (Some a2l) (set_absorb_to_layer (Some a2l) s),
          Some a2l).
Proof.
  intros Him Haa Htr. unfold _parse_absorb_to_layers.
  rewrite Him, Haa. cbn [mbind option_bind]. unfold _trace. rewrite Htr.
  cbn [set_absorb_to_layer absorb_to_layer mbind option_bind].
  rewrite fold_pop_all_nil. reflexivity.
Qed.

(** The first [transform] of an object in fold mode with a fixed [alpha]:
    the trace gives the groups, the calibration gives the statistics, and
    the parameters are adjusted on the object so prepared. *)
Lemma transform_fold_first_call (e : env) (a : R) (p : Z) (o : list op_type)
    (sp : bool) (ci : Z) (s : SmoothQuant.t) a2l nal st am :
  is_torch_module (model s) = true -> (0 <= a)%R ->
  weight_scale_info s = [] -> absorb_scales_info s = [] ->
  input_maxes s = ∅ -> input_mins s = ∅ -> record_max_info s = false ->
  Trace.get_absorb_to_layer e (model s) (map op_type_name o) true
  = (Some a2l, Some nal) ->
  Calib.calibrate e (model s) ci o = Some st ->
  abs_maxes (Calib.input_mins st) (Calib.input_maxes st) = Some am ->
  exists s1,
    transform e (AlphaFloat a) true p o sp ci s
    = ('(s2, (ws, abs)) ← _adjust_parameters a2l am (AlphaFloat a) s1;
       Some (set_scale_info ws abs s2))
    /\ model s1 = model s /\ insert_mul s1 = false /\ allow_absorb s1 = true
    /\ input_mins s1 = Calib.input_mins st
    /\ input_maxes s1 = Calib.input_maxes st.
Proof.
  intros Hmod Ha Hws Has Hmax Hmin Hrec Htrace Hcal Habs.
  unfold transform. rewrite Hmod. cbn [negb].
  destruct (Rlt_dec a 0) as [Hlt|_];
    [exfalso; exact (Rlt_not_le _ _ Hlt Ha)|].
  rewrite (revert_nothing_recorded (set_mode false true s) Hws Has).
  cbn [mbind option_bind].
  rewrite (check_need_calibration_no_stats _ _ _ _ _
             (set_scale_info [] [] (set_mode false true s)) Hmax).
  cbn [is_auto andb mbind option_bind].
  set (S0 := set_need_calibration true
               (set_params (AlphaFloat a) p o sp ci
                  (set_scale_info [] [] (set_mode false true s)))).
  rewrite (parse_absorb_to_layers_fold e o S0 a2l nal eq_refl eq_refl Htrace).
  cbn [mbind option_bind].
  set (S1 := set_absorb_to_layer (Some a2l)
               (set_absorb_to_layer (Some a2l)
                  (set_absorb_to_layer (Some a2l) S0))).
  set (S2 := set_stats (Calib.input_mins st) (Calib.input_maxes st) S1).
  assert (H1 : input_mins S1 = ∅) by exact Hmin.
  assert (H2 : absorb_to_layer S1 = Some a2l) by reflexivity.
  assert (H3 : need_calibration S1 = true) by reflexivity.
  assert (H4 : model S1 = model s) by reflexivity.
  assert (H5 : record_max_info S2 = false) by exact Hrec.
  assert (H6 : alpha S2 = Some (AlphaFloat a)) by reflexivity.
  assert (H7 : input_mins S2 = Calib.input_mins st) by reflexivity.
  assert (H8 : input_maxes S2 = Calib.input_maxes st) by reflexivity.
  exists S2. split; [|by repeat split].
  clearbody S1. rewrite H1, map_size_empty.
  cbn [Nat.eqb mbind option_bind]. rewrite H2, H3, H4, Hcal.
  cbn [mbind option_bind]. fold S2. clearbody S2.
  rewrite H7, H8, Habs. cbn [mbind option_bind].
  rewrite H5, H6. reflexivity.
Qed.


End FoldNormLinear.

(** ** Numbers of the scenario *)

Section ScenarioNumbers.

Local Open Scope R_scope.

Lemma Rpower_one y : Rpower 1 y = 1.
Proof. unfold Rpower. rewrite ln_1, Rmult_0_r. apply exp_0. Qed.

Lemma sqrt_4 : sqrt 4 = 2.
Proof. replace 4 with (2 * 2) by lra. apply sqrt_square. lra. Qed.

Lemma sqrt_2_ge_1 : 1 <= sqrt 2.
Proof. rewrite <- sqrt_1 at 1. apply sqrt_le_1_alt. lra. Qed.

Lemma sqrt_2_pos : 0 < sqrt 2.
Proof. pose proof sqrt_2_ge_1. lra. Qed.

(** A channel of weight max one with [alpha = 0.5]: the square root of the
    activation max. *)
Lemma scale_entry_half_unit x :
  0 < x -> 1 <= sqrt x -> scale_entry (/ 2) (Real x) (Real 1) = Real (sqrt x).
Proof.
  intros Hx Hs. unfold scale_entry.
  rewrite (fpow_pos 1 (1 - / 2)) by lra. rewrite Rpower_one.
  rewrite (eq0_real_ne 1) by lra.
  rewrite (fpow_pos x (/ 2)) by lra. rewrite Rpower_sqrt by lra.
  rewrite (eq0_real_ne (sqrt x)) by lra.
  rewrite fdiv_real by lra. simpl. f_equal.
  unfold scale_eps. rewrite Rmax_left; lra.
Qed.

Lemma absorb_scale_of_reals (s : list R) :
  Forall (fun c => c <> 0) s ->
  SmoothQuant.absorb_scale_of (reals s) = reals (map Rinv s).
Proof.
  unfold SmoothQuant.absorb_scale_of, reciprocal, reals.
  induction 1 as [|c s Hc Hs IH]; [done|].
  cbn [map zip_with]. rewrite IH. rewrite eq0_real_ne by done.
  unfold one. rewrite fdiv_real by done. do 2 f_equal. field. done.
Qed.

Lemma zip_fmul_reals (u v : list R) :
  zip_with fmul (reals u) (reals v) = reals (zip_with Rmult u v).
Proof.
  revert v. induction u as [|x u IH]; intros [|y v]; try done.
  simpl. f_equal. apply IH.
Qed.

Lemma zip_fadd_reals (u v : list R) :
  zip_with fadd (reals u) (reals v) = reals (zip_with Rplus u v).
Proof.
  revert v. induction u as [|x u IH]; intros [|y v]; try done.
  simpl. f_equal. apply IH.
Qed.

Lemma rows_fmul_reals (W : list (list R)) (s : list R) :
  map (fun row => zip_with fmul row (reals s)) (real_rows W)
  = real_rows (map (fun row => zip_with Rmult row s) W).
Proof.
  unfold real_rows. rewrite !map_map. apply map_ext. intros row.
  apply zip_fmul_reals.
Qed.

Lemma weight_max_unit_row :
  weight_max_per_channel [real_rows [[1; 1]]] = Some (reals [1; 1]).
Proof.
  unfold weight_max_per_channel. simpl. by rewrite Rabs_R1.
Qed.

Lemma weight_max_zero_column :
  weight_max_per_channel [real_rows [[1; 0]]] = Some (reals [1; 0]).
Proof.
  unfold weight_max_per_channel. simpl. by rewrite Rabs_R1, Rabs_R0.
Qed.

(** The scales of the scenario: activation maxima two and four, weight
    maxima one, [alpha = 0.5]. *)
Lemma cal_scale_scenario (W : mat) :
  weight_max_per_channel [W] = Some (reals [1; 1]) ->
  cal_scale (reals [2; 4]) [W] (/ 2) = Some (reals [sqrt 2; 2]).
Proof.
  intros Hwm. rewrite (cal_scale_same_size _ _ _ _ Hwm) by done.
  cbn [reals map zip_with].
  rewrite (scale_entry_half_unit 2) by (lra || apply sqrt_2_ge_1).
  rewrite (scale_entry_half_unit 4) by (rewrite ?sqrt_4; lra).
  by rewrite sqrt_4.
Qed.

(** The scales when the second input channel of the weight is zero. *)
Lemma cal_scale_zero_column (W : mat) :
  weight_max_per_channel [W] = Some (reals [1; 0]) ->
  cal_scale (reals [2; 4]) [W] (/ 2) = Some [Real (sqrt 2); zero].
Proof.
  intros Hwm. rewrite (cal_scale_same_size _ _ _ _ Hwm) by done.
  cbn [reals map zip_with].
  rewrite (scale_entry_half_unit 2) by (lra || apply sqrt_2_ge_1).
  change (Real 0) with zero. by rewrite scale_entry_zero_weight by lra.
Qed.

End ScenarioNumbers.

(** ** The first fold transform of the scenario model *)

Section FoldScenario.

Import SmoothQuant.

Lemma abs_maxes_lookup (mins maxes am : gmap string vec) k v :
  abs_maxes mins maxes = Some am -> am !! k = Some v ->
  exists lo hi, mins !! k = Some lo /\ maxes !! k = Some hi.
Proof.
  unfold abs_maxes. intros H Hk.
  destruct (mapM _ (map_to_list mins)) as [kvs|] eqn:E; [|done].
  cbn [mbind option_bind] in H. injection H as <-.
  apply elem_of_list_to_map_2 in Hk.
  apply list_elem_of_lookup in Hk as [i Hi].
  apply mapM_Some_1 in E.
  destruct (Forall2_lookup_r _ _ _ _ _ E Hi) as ([k' lo] & Hx & Hf).
  cbn [fst snd] in Hf.
  destruct (maxes !! k') as [hi|] eqn:Ehi; [|done].
  cbn [mbind option_bind] in Hf.
  destruct (bcast_outer fmax (map fabs lo) (map fabs hi)); [|done].
  cbn [mbind option_bind] in Hf. injection Hf as -> _.
  exists lo, hi. split; [|done].
  apply elem_of_map_to_list. apply list_elem_of_lookup. by exists i.
Qed.

Lemma abs_maxes_singleton k (lo hi : vec) :
  length lo = length hi ->
  abs_maxes {[k := lo]} {[k := hi]}
  = Some {[k := zip_with fmax (map fabs lo) (map fabs hi)]}.
Proof.
  intros Hlen. unfold abs_maxes. rewrite map_to_list_singleton.
  cbn [mapM mbind option_bind fst snd]. rewrite lookup_singleton_eq.
  cbn [mbind option_bind].
  rewrite bcast_outer_same_length by (by rewrite !length_map).
  cbn [mbind option_bind fmap option_fmap option_map mret option_ret].
  cbn [list_to_map foldr fst snd uncurry]. by rewrite insert_empty.
Qed.

(** The trace of the scenario: the linear layer is absorbed by the
    normalisation layer. *)
Lemma example_trace evs (w b : vec) (W : mat) lb names :
  Trace.get_absorb_to_layer (example_env (Some [("fc", Some "norm")]) evs)
    (norm_linear_model w b W lb) names true
  = (Some [("norm", ["fc"])], Some []).
Proof. reflexivity. Qed.

(** A calibration that sees one row at the linear layer. *)
Lemma example_calibrate nodes (x : fval) (v w b : vec) (W : mat) lb ci :
  Calib.calibrate (example_env nodes [("fc", T2 [x :: v])])
    (norm_linear_model w b W lb) ci [TLinear; TConv2d]
  = Some {| Calib.input_mins := {[ "fc" := x :: v ]};
            Calib.input_maxes := {[ "fc" := x :: v ]} |}.
Proof.
  unfold Calib.calibrate, Calib._dump_min_max.
  cbn [example_env has_q_func has_dataloader orb forward_events
         mbind option_bind Calib.run_hooks].
  unfold Calib.on_forward, norm_linear_model, example_model.
  cbn [fst snd named_modules dict_get String.eqb Ascii.eqb Bool.eqb
         isinstance_any existsb isinstance orb].
  unfold Calib.save_input_hook, Calib.batch_min_max, Calib.hook_rows.
  cbn [Calib.weight_rank mbind option_bind Nat.eqb reshape_last reduce0
         uniform forallb foldl Calib.empty_stats Calib.input_maxes
         Calib.input_mins].
  rewrite lookup_empty. by rewrite !insert_empty.
Qed.

Lemma fmax_fabs_nonneg r : (0 <= r)%R -> fmax (fabs (Real r)) (fabs (Real r)) = Real r.
Proof.
  intros H. simpl. f_equal. rewrite Rabs_pos_eq by done.
  apply Rmax_left. lra.
Qed.

(** The statistics of the scenario: per-channel maxima two and four. *)
Lemma example_abs_maxes :
  abs_maxes {[ "fc" := reals [2; 4]%R ]} {[ "fc" := reals [2; 4]%R ]}
  = Some {[ "fc" := reals [2; 4]%R ]}.
Proof.
  rewrite abs_maxes_singleton by done. cbn [reals map zip_with].
  rewrite !fmax_fabs_nonneg by lra. done.
Qed.

(** The first fold transform of a fresh object on the scenario model, for
    a scale that [cal_scale] computes from the calibrated maxima. *)
Lemma transform_norm_linear (e : env) (w b : vec) (W : mat) lb (a : R)
    (p : Z) (o : list op_type) (sp : bool) (ci : Z) nal st am im scale :
  (0 <= a)%R ->
  Trace.get_absorb_to_layer e (norm_linear_model w b W lb)
    (map op_type_name o) true = (Some [("norm", ["fc"])], Some nal) ->
  Calib.calibrate e (norm_linear_model w b W lb) ci o = Some st ->
  abs_maxes (Calib.input_mins st) (Calib.input_maxes st) = Some am ->
  am !! "fc" = Some im ->
  cal_scale im [W] a = Some scale ->
  length w = length scale -> length b = length scale ->
  Forall (fun row => length row = length scale) W ->
  exists s1,
    transform e (AlphaFloat a) true p o sp ci
      (SmoothQuant.__init__ (norm_linear_model w b W lb) true false) = Some s1
    /\ model s1
       = norm_linear_model (zip_with fmul w (absorb_scale_of scale))
           (zip_with fmul b (absorb_scale_of scale))
           (map (fun row => zip_with fmul row scale) W) lb
    /\ weight_scale_info s1 = [("fc", scale)]
    /\ absorb_scales_info s1 = [("norm", absorb_scale_of scale)]
    /\ insert_mul s1 = false /\ allow_absorb s1 = true.
Proof.
  intros Ha Htrace Hcal Habs Him Hscale Hw Hb HW.
  destruct (transform_fold_first_call e a p o sp ci
              (SmoothQuant.__init__ (norm_linear_model w b W lb) true false)
              _ _ _ _ eq_refl Ha eq_refl eq_refl eq_refl eq_refl eq_refl
              Htrace Hcal Habs)
    as (s0 & Htr & Hmodel & Hins & Hallow & Hmins & Hmaxes).
  destruct (abs_maxes_lookup _ _ _ _ _ Habs Him) as (lo & hi & Hlo & Hhi).
  rewrite <- Hmins in Hlo. rewrite <- Hmaxes in Hhi.
  rewrite (adjust_parameters_norm_linear s0 "LayerNorm" "Linear" w b W lb
             lo hi im scale am a) in Htr; try done.
  2:{ by rewrite Hmodel. }
  cbn [mbind option_bind] in Htr.
  eexists. split; [exact Htr|].
  cbn [set_scale_info set_model model weight_scale_info absorb_scales_info
         insert_mul allow_absorb].
  rewrite Hmodel. by repeat split.
Qed.

End FoldScenario.

(** ** The end-to-end scenario *)

Section EndToEnd.

Import SmoothQuant.

Local Open Scope R_scope.

Lemma mapM_bind {A B C : Type} (f : A -> option B) (g : B -> option C) l :
  mapM f l ≫= mapM g = mapM (fun x => f x ≫= g) l.
Proof.
  induction l as [|x l IH]; [done|].
  cbn [mapM]. destruct (f x) as [y|]; cbn [mbind option_bind]; [|done].
  rewrite <- IH.
  destruct (mapM f l) as [ys|]; cbn [mbind option_bind mret option_ret mapM];
    [done|by destruct (g y)].
Qed.

(** A linear layer whose input channels were multiplied by a scale, on an
    input whose channels were divided by it. *)
Lemma linear_rescaled_2 (W : list (list R)) (lb : option vec) (y0 y1 s0 s1 : R) :
  s0 <> 0 -> s1 <> 0 -> Forall (fun row => length row = 2%nat) W ->
  Forward.linear
    (real_rows (map (fun row => zip_with Rmult row [s0; s1]) W)) lb
    (reals [y0 * / s0; y1 * / s1])
  = Forward.linear (real_rows W) lb (reals [y0; y1]).
Proof.
  intros H0 H1 HW. unfold Forward.linear.
  replace (forallb _ (real_rows (map _ W))) with true; cycle 1.
  { symmetry. apply forallb_forall. intros row Hin.
    unfold real_rows in Hin. rewrite map_map in Hin.
    apply in_map_iff in Hin as (r & <- & Hr).
    rewrite Forall_forall in HW. apply list_elem_of_In, HW in Hr.
    destruct r as [|? [|? [|]]]; done. }
  replace (forallb _ (real_rows W)) with true; cycle 1.
  { symmetry. apply forallb_forall. intros row Hin.
    apply in_map_iff in Hin as (r & <- & Hr).
    rewrite Forall_forall in HW. apply list_elem_of_In, HW in Hr.
    destruct r as [|? [|? [|]]]; done. }
  replace (map (Forward.dot (reals [y0 * / s0; y1 * / s1]))
             (real_rows (map (fun row => zip_with Rmult row [s0; s1]) W)))
    with (map (Forward.dot (reals [y0; y1])) (real_rows W)); [done|].
  unfold real_rows. rewrite !map_map. apply map_ext_Forall.
  eapply Forall_impl; [exact HW|]. intros row Hrow. simpl in Hrow.
  destruct row as [|u [|v [|]]]; try done.
  unfold Forward.dot. simpl. do 2 f_equal; field; done.
Qed.

(** The layers and the scale records after the fold transform of the
    scenario. *)
Lemma fold_scenario_layers (e : env) (w0 w1 b0 b1 : R) (W : list (list R))
    (lb : option vec) (p : Z) (o : list op_type) (sp : bool) (ci : Z)
    nal st am :
  Trace.get_absorb_to_layer e
    (norm_linear_model (reals [w0; w1]) (reals [b0; b1]) (real_rows W) lb)
    (map op_type_name o) true = (Some [("norm", ["fc"])], Some nal) ->
  Calib.calibrate e
    (norm_linear_model (reals [w0; w1]) (reals [b0; b1]) (real_rows W) lb)
    ci o = Some st ->
  abs_maxes (Calib.input_mins st) (Calib.input_maxes st) = Some am ->
  am !! "fc" = Some (reals [2; 4]) ->
  weight_max_per_channel [real_rows W] = Some (reals [1; 1]) ->
  Forall (fun row => length row = 2%nat) W ->
  exists s1,
    transform e (AlphaFloat (/ 2)) true p o sp ci
      (SmoothQuant.__init__
         (norm_linear_model (reals [w0; w1]) (reals [b0; b1]) (real_rows W) lb)
         true false) = Some s1
    /\ weight_scale_info s1 = [("fc", reals [sqrt 2; 2])]
    /\ absorb_scales_info s1 = [("norm", reals [/ sqrt 2; / 2])]
    /\ model s1
       = norm_linear_model (reals [w0 * / sqrt 2; w1 * / 2])
           (reals [b0 * / sqrt 2; b1 * / 2])
           (real_rows (map (fun row => zip_with Rmult row [sqrt 2; 2]) W)) lb
    /\ insert_mul s1 = false /\ allow_absorb s1 = true.
Proof.
  intros Htrace Hcal Habs Him Hwm HW.
  pose proof sqrt_2_pos as Hs2.
  destruct (transform_norm_linear e (reals [w0; w1]) (reals [b0; b1])
              (real_rows W) lb (/ 2) p o sp ci nal st am (reals [2; 4])
              (reals [sqrt 2; 2]))
    as (s1 & Htr & Hmodel & Hws & Has & Hins & Hallow); try done.
  - lra.
  - by apply cal_scale_scenario.
  - apply Forall_map. eapply Forall_impl; [exact HW|].
    intros row Hrow. simpl in Hrow |- *. by rewrite length_reals.
  - exists s1. split; [done|]. split; [done|].
    rewrite absorb_scale_of_reals in Has, Hmodel
      by (repeat constructor; lra).
    split; [done|]. split; [|done].
    rewrite Hmodel, !zip_fmul_reals, rows_fmul_reals. done.
Qed.

(** C4, as the code has it: in the scenario of a linear layer behind a
    layer normalisation, with calibrated per-channel maxima two and four,
    per-channel weight maxima one and [alpha = 0.5], the weight scale is
    [sqrt 2] and [2], and the absorb scale is its reciprocal; the fold
    transform multiplies the weight and the bias of the normalisation layer
    by the reciprocal, [1 / sqrt 2] and [1 / 2], and the input channels of
    the linear weight by [sqrt 2] and [2]; and in exact real arithmetic the
    output of the model is the same as before. *)
Theorem fold_transform_scenario (e : env) (w0 w1 b0 b1 : R)
    (W : list (list R)) (lb : option vec) (p : Z) (o : list op_type)
    (sp : bool) (ci : Z) nal st am :
  Trace.get_absorb_to_layer e
    (norm_linear_model (reals [w0; w1]) (reals [b0; b1]) (real_rows W) lb)
    (map op_type_name o) true = (Some [("norm", ["fc"])], Some nal) ->
  Calib.calibrate e
    (norm_linear_model (reals [w0; w1]) (reals [b0; b1]) (real_rows W) lb)
    ci o = Some st ->
  abs_maxes (Calib.input_mins st) (Calib.input_maxes st) = Some am ->
  am !! "fc" = Some (reals [2; 4]) ->
  weight_max_per_channel [real_rows W] = Some (reals [1; 1]) ->
  Forall (fun row => length row = 2%nat) W ->
  exists s1,
    transform e (AlphaFloat (/ 2)) true p o sp ci
      (SmoothQuant.__init__
         (norm_linear_model (reals [w0; w1]) (reals [b0; b1]) (real_rows W) lb)
         true false) = Some s1
    /\ weight_scale_info s1 = [("fc", reals [sqrt 2; 2])]
    /\ absorb_scales_info s1 = [("norm", reals [/ sqrt 2; / 2])]
    /\ model s1
       = norm_linear_model (reals [w0 * / sqrt 2; w1 * / 2])
           (reals [b0 * / sqrt 2; b1 * / 2])
           (real_rows (map (fun row => zip_with Rmult row [sqrt 2; 2]) W)) lb
    /\ forall (normalize : vec -> vec) (X : mat),
         Forall (fun x => exists n0 n1, normalize x = reals [n0; n1]) X ->
         sequential normalize (model s1) ["norm"; "fc"] X
         = sequential normalize
             (norm_linear_model (reals [w0; w1]) (reals [b0; b1])
                (real_rows W) lb)
             ["norm"; "fc"] X.
Proof.
  intros Htrace Hcal Habs Him Hwm HW.
  destruct (fold_scenario_layers e w0 w1 b0 b1 W lb p o sp ci nal st am
              Htrace Hcal Habs Him Hwm HW)
    as (s1 & Htr & Hws & Has & Hmodel & _).
  exists s1. do 4 (split; [done|]).
  intros normalize X HX. rewrite Hmodel.
  unfold sequential, norm_linear_model, example_model, example_norm, get_module.
  cbn [fold_left named_modules dict_get String.eqb Ascii.eqb Bool.eqb
         mbind option_bind Forward.forward].
  rewrite !mapM_bind. apply Forall_mapM_ext.
  eapply Forall_impl; [exact HX|]. intros x (n0 & n1 & Hn). simpl.
  unfold Forward.layer_norm. rewrite Hn.
  unfold Forward.zip_strict.
  cbn [reals map length Nat.eqb zip_with mbind option_bind fmul fadd].
  pose proof sqrt_2_pos as Hs2.
  replace (n0 * (w0 * / sqrt 2) + b0 * / sqrt 2)
    with ((n0 * w0 + b0) * / sqrt 2) by (field; lra).
  replace (n1 * (w1 * / 2) + b1 * / 2) with ((n1 * w1 + b1) * / 2) by field.
  apply (linear_rescaled_2 W lb (n0 * w0 + b0) (n1 * w1 + b1) (sqrt 2) 2);
    [lra|lra|done].
Qed.

Lemma fold_transform_scenario_witness :
  exists s1,
    transform (example_env (Some [("fc", Some "norm")])
                 [("fc", T2 [reals [2; 4]])])
      (AlphaFloat (/ 2)) true 100 [TLinear; TConv2d] false 100
      (SmoothQuant.__init__
         (norm_linear_model (reals [1; 1]) (reals [1; 1]) (real_rows [[1; 1]])
            None) true false) = Some s1
    /\ weight_scale_info s1 = [("fc", reals [sqrt 2; 2])]
    /\ absorb_scales_info s1 = [("norm", reals [/ sqrt 2; / 2])].
Proof.
  destruct (fold_transform_scenario
              (example_env (Some [("fc", Some "norm")])
                 [("fc", T2 [reals [2; 4]])])
              1 1 1 1 [[1; 1]] None 100 [TLinear; TConv2d] false 100 []
              {| Calib.input_mins := {[ "fc" := reals [2; 4] ]};
                 Calib.input_maxes := {[ "fc" := reals [2; 4] ]} |}
              {[ "fc" := reals [2; 4] ]})
    as (s1 & Htr & Hws & Has & _).
  - apply example_trace.
  - apply example_calibrate.
  - apply example_abs_maxes.
  - apply lookup_singleton_eq.
  - apply weight_max_unit_row.
  - repeat constructor.
  - exists s1. by repeat split.
Defined.

(** In the scenario the normalisation layer is multiplied by [1 / sqrt 2]
    and [1 / 2] and the linear weight by [sqrt 2] and [2], and not the
    other way round. *)
Lemma fold_scenario_direction :
  exists s1,
    transform (example_env (Some [("fc", Some "norm")])
                 [("fc", T2 [reals [2; 4]])])
      (AlphaFloat (/ 2)) true 100 [TLinear; TConv2d] false 100
      (SmoothQuant.__init__
         (norm_linear_model (reals [1; 1]) (reals [1; 1]) (real_rows [[1; 1]])
            None) true false) = Some s1
    /\ absorb_scales_info s1 = [("norm", reals [/ sqrt 2; / 2])]
    /\ get_module (model s1) "norm"
       = example_norm (reals [1 * / sqrt 2; 1 * / 2])
           (reals [1 * / sqrt 2; 1 * / 2])
    /\ get_module (model s1) "fc"
       = Linear "Linear" (real_rows [[1 * sqrt 2; 1 * 2]]) None
    /\ reals [/ sqrt 2; / 2] <> reals [sqrt 2; 2]
    /\ example_norm (reals [1 * / sqrt 2; 1 * / 2])
         (reals [1 * / sqrt 2; 1 * / 2])
       <> example_norm (reals [1 * sqrt 2; 1 * 2]) (reals [1 * sqrt 2; 1 * 2])
    /\ Linear "Linear" (real_rows [[1 * sqrt 2; 1 * 2]]) None
       <> Linear "Linear" (real_rows [[1 * / sqrt 2; 1 * / 2]]) None.
Proof.
  destruct (fold_scenario_layers
              (example_env (Some [("fc", Some "norm")])
                 [("fc", T2 [reals [2; 4]])])
              1 1 1 1 [[1; 1]] None 100 [TLinear; TConv2d] false 100 []
              {| Calib.input_mins := {[ "fc" := reals [2; 4] ]};
                 Calib.input_maxes := {[ "fc" := reals [2; 4] ]} |}
              {[ "fc" := reals [2; 4] ]})
    as (s1 & Htr & Hws & Has & Hmodel & _).
  - apply example_trace.
  - apply example_calibrate.
  - apply example_abs_maxes.
  - apply lookup_singleton_eq.
  - apply weight_max_unit_row.
  - repeat constructor.
  - exists s1. split; [done|]. split; [done|]. rewrite Hmodel.
    split; [done|]. split; [done|].
    repeat split; unfold example_norm; simpl; intros [=]; lra.
Qed.

End EndToEnd.

(** ** Fold, then revert, over a channel whose weights are zero *)

Section FoldRevert.

Import SmoothQuant.

Local Open Scope R_scope.

Lemma fdiv_one_zero : fdiv one zero = PosInf.
Proof. unfold one, zero. by rewrite fdiv_real_zero, sgn_pos by lra. Qed.

Lemma reciprocal_reals (s : list R) :
  Forall (fun c => c <> 0) s -> reciprocal (reals s) = reals (map Rinv s).
Proof.
  unfold reciprocal, reals. induction 1 as [|c s Hc Hs IH]; [done|].
  cbn [map]. rewrite IH. unfold one. rewrite fdiv_real by done.
  do 2 f_equal. field. done.
Qed.

Lemma zip_Rmult_there_and_back (w s : list R) :
  length w = length s -> Forall (fun c => c <> 0) s ->
  zip_with Rmult (zip_with Rmult w s) (map Rinv s) = w.
Proof.
  intros Hlen Hs. revert w Hlen.
  induction Hs as [|c s Hc Hs IH]; intros [|x w] Hlen; try done.
  simpl in Hlen |- *. rewrite IH by lia. f_equal. field. done.
Qed.

Lemma Forall_Rinv_neq_0 (s : list R) :
  Forall (fun c => c <> 0) s -> Forall (fun c => c <> 0) (map Rinv s).
Proof.
  intros H. apply Forall_map. eapply Forall_impl; [exact H|].
  intros c Hc. simpl. by apply Rinv_neq_0_compat.
Qed.

(** When no entry of the scale is zero, [revert] after the fold transform
    restores the two layers of the scenario model. *)
Lemma fold_revert_round_trip (e : env) (w b : list R) (W : list (list R))
    (lb : option vec) (a : R) (p : Z) (o : list op_type) (sp : bool) (ci : Z)
    nal st am im (s : list R) :
  0 <= a ->
  Trace.get_absorb_to_layer e
    (norm_linear_model (reals w) (reals b) (real_rows W) lb)
    (map op_type_name o) true = (Some [("norm", ["fc"])], Some nal) ->
  Calib.calibrate e (norm_linear_model (reals w) (reals b) (real_rows W) lb)
    ci o = Some st ->
  abs_maxes (Calib.input_mins st) (Calib.input_maxes st) = Some am ->
  am !! "fc" = Some im ->
  cal_scale im [real_rows W] a = Some (reals s) ->
  Forall (fun c => c <> 0) s ->
  length w = length s -> length b = length s ->
  Forall (fun row => length row = length s) W ->
  exists s1 s2,
    transform e (AlphaFloat a) true p o sp ci
      (SmoothQuant.__init__
         (norm_linear_model (reals w) (reals b) (real_rows W) lb) true false)
    = Some s1
    /\ revert s1 = Some s2
    /\ weight_scale_info s2 = [] /\ absorb_scales_info s2 = []
    /\ model s2 = norm_linear_model (reals w) (reals b) (real_rows W) lb.
Proof.
  intros Ha Htrace Hcal Habs Him Hscale Hs Hw Hb HW.
  destruct (transform_norm_linear e (reals w) (reals b) (real_rows W) lb a
              p o sp ci nal st am im (reals s))
    as (s1 & Htr & Hmodel & Hws & Has & Hins & Hallow); try done.
  { by rewrite !length_reals. }
  { by rewrite !length_reals. }
  { apply Forall_map. eapply Forall_impl; [exact HW|].
    intros row Hrow. simpl in Hrow |- *. by rewrite !length_reals. }
  rewrite absorb_scale_of_reals in Hmodel, Has by done.
  rewrite !zip_fmul_reals, rows_fmul_reals in Hmodel.
  exists s1. eexists. split; [exact Htr|]. split.
  { eapply (revert_norm_linear s1 "LayerNorm" "Linear").
    - rewrite Hmodel. reflexivity.
    - exact Hins.
    - exact Hallow.
    - exact Hws.
    - exact Has.
    - rewrite !length_reals, length_zip_with, length_map. lia.
    - rewrite !length_reals, length_zip_with, length_map. lia.
    - apply Forall_map, Forall_map. eapply Forall_impl; [exact HW|].
      intros row Hrow. simpl in Hrow |- *.
      rewrite !length_reals, length_zip_with. lia. }
  cbn [set_scale_info set_model weight_scale_info absorb_scales_info model].
  split; [done|]. split; [done|].
  rewrite Hmodel.
  rewrite !reciprocal_reals by (done || by apply Forall_Rinv_neq_0).
  rewrite !zip_fmul_reals, rows_fmul_reals.
  unfold norm_linear_model, example_model, example_norm, with_modules.
  cbn [model_cls is_torch_module is_peft].
  assert (Hinv : forall v : list R, length v = length s ->
            zip_with Rmult (zip_with Rmult v (map Rinv s))
              (map Rinv (map Rinv s)) = v).
  { intros v Hv. apply zip_Rmult_there_and_back;
      [by rewrite length_map|by apply Forall_Rinv_neq_0]. }
  rewrite !Hinv by done.
  rewrite map_map.
  replace (map (fun row => zip_with Rmult (zip_with Rmult row s) (map Rinv s)) W)
    with W; [done|].
  symmetry. rewrite <- (map_id W) at 2. apply map_ext_Forall.
  eapply Forall_impl; [exact HW|]. intros row Hrow. simpl in Hrow |- *.
  by apply zip_Rmult_there_and_back.
Qed.

Lemma absorb_scale_of_zero_column :
  absorb_scale_of [Real (sqrt 2); zero] = [Real (/ sqrt 2); zero].
Proof.
  pose proof sqrt_2_pos. unfold absorb_scale_of, reciprocal.
  cbn [map zip_with]. rewrite (eq0_real_ne (sqrt 2)) by lra.
  unfold zero at 1. rewrite (eq0_real 0) by done.
  unfold one. rewrite fdiv_real by lra. do 2 f_equal. field. lra.
Qed.

Lemma reciprocal_zero_column :
  reciprocal [Real (sqrt 2); zero] = [Real (/ sqrt 2); PosInf].
Proof.
  pose proof sqrt_2_pos. unfold reciprocal. cbn [map].
  rewrite fdiv_one_zero. unfold one. rewrite fdiv_real by lra.
  do 2 f_equal. field. lra.
Qed.

Lemma reciprocal_absorb_zero_column :
  reciprocal [Real (/ sqrt 2); zero] = [Real (sqrt 2); PosInf].
Proof.
  pose proof sqrt_2_pos. unfold reciprocal. cbn [map].
  rewrite fdiv_one_zero. unfold one.
  assert (/ sqrt 2 <> 0) by (apply Rinv_neq_0_compat; lra).
  rewrite fdiv_real by done. do 2 f_equal. field. lra.
Qed.

(** C1 at a failing input: a layer normalisation with weight and bias one,
    followed by a linear layer whose second input channel has only zero
    weights, calibrated maxima two and four, [alpha = 0.5].  The fold
    transform succeeds, the scale of the second channel is zero, and
    [revert], which multiplies by [1.0 / 0], leaves NaN in the second
    channel of the weight and the bias of the normalisation layer and of
    the weight of the linear layer: the weights of before the transform
    are not restored.  The scale records are cleared. *)
Theorem fold_revert_zero_weight_channel :
  exists s1 s2,
    transform (example_env (Some [("fc", Some "norm")])
                 [("fc", T2 [reals [2; 4]])])
      (AlphaFloat (/ 2)) true 100 [TLinear; TConv2d] false 100
      (SmoothQuant.__init__
         (norm_linear_model (reals [1; 1]) (reals [1; 1]) (real_rows [[1; 0]])
            None) true false) = Some s1
    /\ weight_scale_info s1 = [("fc", [Real (sqrt 2); zero])]
    /\ absorb_scales_info s1 = [("norm", [Real (/ sqrt 2); zero])]
    /\ revert s1 = Some s2
    /\ weight_scale_info s2 = [] /\ absorb_scales_info s2 = []
    /\ model s2
       = norm_linear_model [Real 1; NaN] [Real 1; NaN] [[Real 1; NaN]] None
    /\ model s2
       <> norm_linear_model (reals [1; 1]) (reals [1; 1]) (real_rows [[1; 0]])
            None.
Proof.
  pose proof sqrt_2_pos as Hs2.
  destruct (transform_norm_linear
              (example_env (Some [("fc", Some "norm")])
                 [("fc", T2 [reals [2; 4]])])
              (reals [1; 1]) (reals [1; 1]) (real_rows [[1; 0]]) None (/ 2)
              100 [TLinear; TConv2d] false 100 []
              {| Calib.input_mins := {[ "fc" := reals [2; 4] ]};
                 Calib.input_maxes := {[ "fc" := reals [2; 4] ]} |}
              {[ "fc" := reals [2; 4] ]} (reals [2; 4])
              [Real (sqrt 2); zero])
    as (s1 & Htr & Hmodel & Hws & Has & Hins & Hallow).
  { lra. }
  { apply example_trace. }
  { apply example_calibrate. }
  { apply example_abs_maxes. }
  { apply lookup_singleton_eq. }
  { apply cal_scale_zero_column, weight_max_zero_column. }
  { done. }
  { done. }
  { repeat constructor. }
  rewrite absorb_scale_of_zero_column in Hmodel, Has.
  exists s1.
  eexists. split; [exact Htr|]. split; [exact Hws|]. split; [exact Has|].
  split.
  { eapply (revert_norm_linear s1 "LayerNorm" "Linear").
    - rewrite Hmodel. reflexivity.
    - exact Hins.
    - exact Hallow.
    - exact Hws.
    - exact Has.
    - reflexivity.
    - reflexivity.
    - repeat constructor. }
  cbn [set_scale_info set_model weight_scale_info absorb_scales_info model].
  split; [done|]. split; [done|].
  assert (Hfinal :
    with_modules (model s1)
      [("norm",
        LayerNorm "LayerNorm" true
          (Some (zip_with fmul
                   (zip_with fmul (reals [1; 1]) [Real (/ sqrt 2); zero])
                   (reciprocal [Real (/ sqrt 2); zero])))
          (Some (zip_with fmul
                   (zip_with fmul (reals [1; 1]) [Real (/ sqrt 2); zero])
                   (reciprocal [Real (/ sqrt 2); zero]))));
       ("fc",
        Linear "Linear"
          (map (fun row => zip_with fmul row (reciprocal [Real (sqrt 2); zero]))
             (map (fun row => zip_with fmul row [Real (sqrt 2); zero])
                (real_rows [[1; 0]]))) None)]
    = norm_linear_model [Real 1; NaN] [Real 1; NaN] [[Real 1; NaN]] None).
  { rewrite Hmodel, reciprocal_absorb_zero_column, reciprocal_zero_column.
    unfold norm_linear_model, example_model, example_norm, with_modules, zero.
    cbn [reals real_rows map zip_with fmul model_cls is_torch_module is_peft].
    replace (1 * 0) with 0 by lra. replace (0 * 0) with 0 by lra.
    rewrite sgn_zero. cbn [signed_inf].
    replace (1 * / sqrt 2 * sqrt 2) with 1 by (field; lra).
    replace (1 * sqrt 2 * / sqrt 2) with 1 by (field; lra).
    done. }
  split; [exact Hfinal|].
  rewrite Hfinal. unfold norm_linear_model, example_model, example_norm.
  intros [=].
Qed.

End FoldRevert.

(** ** A failed trace *)

Section FailedTrace.

Import SmoothQuant.

Lemma same_but_model_refl s : same_but_model s s.
Proof. by repeat split. Qed.

Lemma same_but_model_trans s1 s2 s3 :
  same_but_model s1 s2 -> same_but_model s2 s3 -> same_but_model s1 s3.
Proof. unfold same_but_model. intuition congruence. Qed.

Lemma same_but_model_set_model s m :
  is_torch_module m = is_torch_module (model s) ->
  is_peft m = is_peft (model s) ->
  same_but_model s (set_model m s).
Proof. intros H1 H2. by repeat split. Qed.

Lemma same_but_model_set_module s key l :
  same_but_model s (set_model (set_module (model s) key l) s).
Proof. by apply same_but_model_set_model. Qed.

Lemma same_but_model_put_module s key l :
  same_but_model s (set_model (put_module (model s) key l) s).
Proof.
  apply same_but_model_set_model; unfold put_module;
    by destruct (dict_mem _ _).
Qed.

Lemma scale_layer_weight_same n scale a mm s s' :
  _scale_layer_weight n scale a mm s = Some s' -> same_but_model s s'.
Proof.
  unfold _scale_layer_weight. destruct (insert_mul s).
  - destruct (get_module (model s) n);
      match goal with
      | |- context [SQWrapper._recover_sq_linear ?i ?l] =>
          destruct (SQWrapper._recover_sq_linear i l)
      | |- context [SQWrapper.__init__ ?l ?i ?m ?b] =>
          destruct (SQWrapper.__init__ l i m b)
      end; cbn [mbind option_bind]; intros [= <-];
      apply same_but_model_set_module.
  - destruct (allow_absorb s).
    + destruct (scale_weight _ _); cbn [mbind option_bind]; intros [= <-].
      apply same_but_model_put_module.
    + intros [= <-]. apply same_but_model_refl.
Qed.

Lemma absorb_scales_same n scale s s' :
  _absorb_scales n scale s = Some s' -> same_but_model s s'.
Proof.
  unfold _absorb_scales. destruct (insert_mul s || negb (allow_absorb s)).
  - intros [= <-]. apply same_but_model_refl.
  - destruct (get_module (model s) n);
      match goal with
      | |- (?x ≫= _) = Some _ -> _ => destruct x
      end; cbn [mbind option_bind]; intros [= <-];
      apply same_but_model_put_module.
Qed.

Lemma for_each_same {A : Type} (body : A -> SmoothQuant.t -> option SmoothQuant.t)
    (l : list A) :
  (forall x s s', body x s = Some s' -> same_but_model s s') ->
  forall s s', for_each body l s = Some s' -> same_but_model s s'.
Proof.
  intros Hbody. induction l as [|x l IH]; intros s s'; cbn [for_each].
  - intros [= <-]. apply same_but_model_refl.
  - destruct (body x s) as [s1|] eqn:E; [|done]. cbn [mbind option_bind].
    intros H. eapply same_but_model_trans; [by eapply Hbody|by apply IH].
Qed.

(** [revert] clears the scale records and leaves every other attribute but
    the sub-modules. *)
Lemma revert_same s s' :
  revert s = Some s' ->
  same_but_model s s' /\ weight_scale_info s' = []
  /\ absorb_scales_info s' = [].
Proof.
  unfold revert.
  destruct (for_each _ (weight_scale_info s) s) as [s1|] eqn:E1; [|done].
  cbn [mbind option_bind].
  destruct (for_each _ (absorb_scales_info s) s1) as [s2|] eqn:E2; [|done].
  cbn [mbind option_bind]. intros [= <-]. split; [|done].
  apply for_each_same in E1;
    [|intros x s0 s0'; apply scale_layer_weight_same].
  apply for_each_same in E2; [|intros x s0 s0'; apply absorb_scales_same].
  eapply same_but_model_trans; [exact E1|].
  eapply same_but_model_trans; [exact E2|]. by repeat split.
Qed.

Lemma check_need_calibration_is_Some a p o sp ci s :
  input_maxes s = ∅
  \/ (is_Some (alpha s) /\ is_Some (percentile s) /\ is_Some (op_types s)
      /\ is_Some (scales_per_op s) /\ is_Some (calib_iter s)) ->
  exists need,
    _check_need_calibration a p o sp ci s
    = Some (need, set_params a p o sp ci s).
Proof.
  unfold _check_need_calibration. intros [H|(Ha & Hp & Ho & Hsp & Hci)].
  - rewrite H, map_size_empty. cbn [Nat.eqb]. by eexists.
  - destruct (size (input_maxes s) =? 0)%nat; [by eexists|].
    destruct Ha as [? ->], Hp as [? ->], Ho as [? ->], Hsp as [? ->],
      Hci as [? ->].
    cbn [mbind option_bind]. by eexists.
Qed.

(** [GraphTrace.trace] returns [None] exactly when every call of
    [torch.jit.trace] that it makes raises. *)
Lemma trace_None_iff (e : env) (m : Model.model) :
  Trace.trace e m = None <-> tracing_raises e m.
Proof.
  unfold Trace.trace, tracing_raises. destruct (input_is_dict e).
  - destruct (torch_jit_trace e m Kwargs); by split.
  - destruct (torch_jit_trace e m Whole) as [g|].
    + split; [|by intros [? _]].
      destruct (torch_jit_freeze e g); [done|].
      by destruct (torch_jit_trace e m First).
    + destruct (torch_jit_trace e m First); split; try done.
      by intros [_ ?].
Qed.

Lemma alpha_accepted_check (a : alpha_t) :
  alpha_accepted a ->
  match a with
  | AlphaFloat r => if Rlt_dec r 0 then None else Some tt
  | _ => Some tt
  end = Some tt.
Proof.
  destruct a as [r| |]; try done. cbn [alpha_accepted]. intros Hr.
  destruct (Rlt_dec r 0) as [Hlt|_]; [|done].
  exfalso. exact (Rlt_not_le _ _ Hlt Hr).
Qed.

(** C7, as the code has it: when every call of [torch.jit.trace] raises,
    [GraphTrace.trace] catches the exceptions and returns [None],
    [get_absorb_to_layer] returns [(None, None)], and [transform] in fold
    mode, called with an [alpha] that is not a negative float, returns the
    model as its initial [revert] left it, with no scale applied and none
    recorded. *)
Theorem transform_fold_without_trace (e : env) (a : alpha_t) (p : Z)
    (o : list op_type) (sp : bool) (ci : Z) (s sr : SmoothQuant.t) :
  is_torch_module (model s) = true ->
  alpha_accepted a ->
  consistent s ->
  revert (set_mode false true s) = Some sr ->
  tracing_raises e (model sr) ->
  Trace.trace e (model sr) = None
  /\ Trace.get_absorb_to_layer e (model sr) (map op_type_name o) true
     = (None, None)
  /\ exists s1,
       transform e a true p o sp ci s = Some s1
       /\ model s1 = model sr
       /\ absorb_to_layer s1 = None
       /\ weight_scale_info s1 = [] /\ absorb_scales_info s1 = [].
Proof.
  intros Hmod Hacc [Hcached Habs] Hrev Hraises.
  apply trace_None_iff in Hraises.
  assert (Hgat : Trace.get_absorb_to_layer e (model sr) (map op_type_name o)
                   true = (None, None)).
  { unfold Trace.get_absorb_to_layer, Trace.traced_nodes.
    by rewrite Hraises. }
  split; [done|]. split; [done|].
  destruct (revert_same _ _ Hrev) as (Hsame & Hws & Has).
  destruct Hsame as (Hmaxes & Hmins & _ & Hins & Hallow & _ & _ & _ & Halpha
                     & Hperc & Hops & Hspo & Hci & _ & _).
  cbn [set_mode input_maxes input_mins insert_mul allow_absorb alpha
         percentile op_types scales_per_op calib_iter] in *.
  unfold transform. rewrite Hmod. cbn [negb].
  rewrite (alpha_accepted_check a Hacc). cbn [mbind option_bind].
  rewrite Hrev. cbn [mbind option_bind].
  destruct (check_need_calibration_is_Some a p o sp ci sr) as [need Hneed].
  { rewrite Hmaxes, Halpha, Hperc, Hops, Hspo, Hci. exact Hcached. }
  rewrite Hneed. cbn [mbind option_bind].
  unfold _parse_absorb_to_layers.
  cbn [set_need_calibration set_params insert_mul allow_absorb].
  rewrite Hins, Hallow. cbn [mbind option_bind].
  unfold _trace. cbn [set_need_calibration set_params model].
  rewrite Hgat. cbn [mbind option_bind].
  cbn [set_absorb_to_layer set_need_calibration set_params input_mins
         input_maxes].
  rewrite Hmins, Hmaxes.
  destruct (size (input_mins s) =? 0)%nat.
  - cbn [mbind option_bind absorb_to_layer]. eexists. split; [reflexivity|].
    by repeat split.
  - destruct Habs as [m ->]. cbn [mbind option_bind].
    destruct (has_q_func e); cbn [mbind option_bind absorb_to_layer
      set_need_calibration]; (eexists; split; [reflexivity|]);
      by repeat split.
Qed.

End FailedTrace.

Section FailedTraceInsert.

Import SmoothQuant.

Local Open Scope R_scope.

Lemma abs_maxes_empty : abs_maxes ∅ ∅ = Some ∅.
Proof. unfold abs_maxes. by rewrite map_to_list_empty. Qed.

Lemma transform_fold_without_trace_witness :
  Trace.trace (example_env None [("fc", T2 [reals [4; 4]])])
    (linear_model (real_rows [[1; 1]])) = None
  /\ Trace.get_absorb_to_layer
       (example_env None [("fc", T2 [reals [4; 4]])])
       (linear_model (real_rows [[1; 1]]))
       (map op_type_name [TLinear; TConv2d]) true = (None, None)
  /\ exists s1,
       transform (example_env None [("fc", T2 [reals [4; 4]])])
         (AlphaFloat (/ 2)) true 100 [TLinear; TConv2d] false 100
         (SmoothQuant.__init__ (linear_model (real_rows [[1; 1]])) true false)
       = Some s1
       /\ model s1 = linear_model (real_rows [[1; 1]])
       /\ absorb_to_layer s1 = None
       /\ weight_scale_info s1 = [] /\ absorb_scales_info s1 = [].
Proof.
  apply (transform_fold_without_trace
           (example_env None [("fc", T2 [reals [4; 4]])])
           (AlphaFloat (/ 2)) 100 [TLinear; TConv2d] false 100
           (SmoothQuant.__init__ (linear_model (real_rows [[1; 1]])) true false)
           (set_scale_info [] []
              (set_mode false true
                 (SmoothQuant.__init__ (linear_model (real_rows [[1; 1]]))
                    true false)))).
  - reflexivity.
  - cbn [alpha_accepted]. lra.
  - split; [by left|]. cbn [SmoothQuant.__init__ input_mins input_maxes].
    rewrite abs_maxes_empty. by eexists.
  - reflexivity.
  - by split.
Defined.

(** A calibration that sees one row at a linear layer. *)
Lemma calibrate_one_row nodes name (x : fval) (v : vec) (m : Model.model)
    cls W lb ci :
  dict_get (named_modules m) name = Some (Linear cls W lb) ->
  Calib.calibrate (example_env nodes [(name, T2 [x :: v])]) m ci
    [TLinear; TConv2d]
  = Some {| Calib.input_mins := {[ name := x :: v ]};
            Calib.input_maxes := {[ name := x :: v ]} |}.
Proof.
  intros Hget.
  unfold Calib.calibrate, Calib._dump_min_max.
  cbn [example_env has_q_func has_dataloader orb forward_events
         mbind option_bind Calib.run_hooks].
  unfold Calib.on_forward. cbn [fst snd]. rewrite Hget.
  cbn [isinstance_any existsb isinstance orb].
  unfold Calib.save_input_hook, Calib.batch_min_max, Calib.hook_rows.
  cbn [Calib.weight_rank mbind option_bind Nat.eqb reshape_last reduce0
         uniform forallb foldl Calib.empty_stats Calib.input_maxes
         Calib.input_mins].
  rewrite lookup_empty. by rewrite !insert_empty.
Qed.

Lemma cal_scale_four_four :
  cal_scale (reals [4; 4]) [real_rows [[1; 1]]] (/ 2) = Some (reals [2; 2]).
Proof.
  rewrite (cal_scale_same_size _ _ _ _ weight_max_unit_row) by done.
  cbn [reals map zip_with].
  rewrite !(scale_entry_half_unit 4) by (rewrite ?sqrt_4; lra).
  by rewrite sqrt_4.
Qed.

(** [_parse_absorb_to_layers] in insert mode when the trace fails and no
    statistics are stored: the groups are the linear layers, each on its
    own, that a calibration over one batch has seen. *)
Lemma parse_absorb_to_layers_insert_no_trace (e : env) o (s : SmoothQuant.t)
    st1 :
  insert_mul s = true -> allow_absorb s = false ->
  need_calibration s = true -> input_mins s = ∅ ->
  absorb_to_layer s = Some [] ->
  Trace.traced_nodes e (model s) (map op_type_name o) = None ->
  Calib.calibrate e (model s) 1 o = Some st1 ->
  _parse_absorb_to_layers e o false s
  = (let a := filter (fun kv => bool_decide
                                  (is_Some (Calib.input_mins st1 !! fst kv)))
                (dict_update [] (_get_all_layer_names s)) in
     Some (set_absorb_to_layer (Some a)
             (set_stats (Calib.input_mins st1) (Calib.input_maxes st1)
                (set_absorb_to_layer
                   (Some (dict_update [] (_get_all_layer_names s))) s)),
           Some a)).
Proof.
  intros Him Haa Hnc Hmin Ha2l Htr Hcal. unfold _parse_absorb_to_layers.
  rewrite Him, Haa. unfold _trace, Trace.get_absorb_to_layer. rewrite Htr.
  cbn [fst mbind option_bind]. rewrite Ha2l.
  cbn [mbind option_bind fold_left negb andb].
  set (S := set_absorb_to_layer _ s).
  assert (H1 : need_calibration S = true) by exact Hnc.
  assert (H2 : input_mins S = ∅) by exact Hmin.
  assert (H3 : model S = model s) by reflexivity.
  clearbody S. rewrite H1, H2, map_size_empty, H3, Hcal. reflexivity.
Qed.

(** The first [transform] of an object in insert mode when the trace
    fails: the groups are the linear layers that the one-batch calibration
    has seen, each on its own. *)
Lemma transform_insert_no_trace (e : env) (a : R) (p : Z) (o : list op_type)
    (sp : bool) (ci : Z) (s : SmoothQuant.t) st1 am1 st am :
  is_torch_module (model s) = true -> (0 <= a)%R ->
  has_q_func e = false ->
  weight_scale_info s = [] -> absorb_scales_info s = [] ->
  input_maxes s = ∅ -> input_mins s = ∅ -> record_max_info s = false ->
  absorb_to_layer s = Some [] ->
  Trace.traced_nodes e (model s) (map op_type_name o) = None ->
  Calib.calibrate e (model s) 1 o = Some st1 ->
  size (Calib.input_mins st1) <> 0%nat ->
  abs_maxes (Calib.input_mins st1) (Calib.input_maxes st1) = Some am1 ->
  Calib.calibrate e (model s) ci o = Some st ->
  abs_maxes (Calib.input_mins st) (Calib.input_maxes st) = Some am ->
  exists s0,
    transform e (AlphaFloat a) false p o sp ci s
    = ('(s2, (ws, abs)) ←
         _adjust_parameters
           (filter (fun kv => bool_decide
                                (is_Some (Calib.input_mins st1 !! fst kv)))
              (dict_update [] (_get_all_layer_names s)))
           am (AlphaFloat a) s0;
       Some (set_scale_info ws abs s2))
    /\ model s0 = model s /\ insert_mul s0 = true
    /\ input_mins s0 = Calib.input_mins st
    /\ input_maxes s0 = Calib.input_maxes st.
Proof.
  intros Hmod Ha Hq Hws Has Hmax Hmin Hrec Ha2l Htrace Hcal1 Hsize Habs1
    Hcal Habs.
  unfold transform. rewrite Hmod. cbn [negb].
  destruct (Rlt_dec a 0) as [Hlt|_];
    [exfalso; exact (Rlt_not_le _ _ Hlt Ha)|].
  rewrite (revert_nothing_recorded (set_mode true false s) Hws Has).
  cbn [mbind option_bind].
  rewrite (check_need_calibration_no_stats _ _ _ _ _
             (set_scale_info [] [] (set_mode true false s)) Hmax).
  cbn [is_auto andb mbind option_bind].
  set (S0 := set_need_calibration true
               (set_params (AlphaFloat a) p o sp ci
                  (set_scale_info [] [] (set_mode true false s)))).
  rewrite (parse_absorb_to_layers_insert_no_trace e o S0 st1
             eq_refl eq_refl eq_refl Hmin Ha2l Htrace Hcal1).
  cbv zeta. cbn [mbind option_bind].
  change (_get_all_layer_names S0) with (_get_all_layer_names s).
  set (A := filter _ (dict_update [] (_get_all_layer_names s))).
  set (S1 := set_absorb_to_layer (Some A) (set_absorb_to_layer (Some A) _)).
  set (S2 := set_stats (Calib.input_mins st) (Calib.input_maxes st) S1).
  assert (H1 : input_mins S1 = Calib.input_mins st1) by reflexivity.
  assert (H2 : input_maxes S1 = Calib.input_maxes st1) by reflexivity.
  assert (H3 : absorb_to_layer S1 = Some A) by reflexivity.
  assert (H4 : need_calibration S1 = true) by reflexivity.
  assert (H5 : model S1 = model s) by reflexivity.
  assert (H6 : record_max_info S2 = false) by exact Hrec.
  assert (H7 : alpha S2 = Some (AlphaFloat a)) by reflexivity.
  assert (H8 : input_mins S2 = Calib.input_mins st) by reflexivity.
  assert (H9 : input_maxes S2 = Calib.input_maxes st) by reflexivity.
  exists S2. split; [|by repeat split].
  clearbody S1.
  rewrite H1, H2, (proj2 (Nat.eqb_neq _ _) Hsize), Habs1, Hq.
  cbn [mbind option_bind]. rewrite H3, H4, H5, Hcal.
  cbn [mbind option_bind]. fold S2. clearbody S2.
  rewrite H8, H9, Habs. cbn [mbind option_bind].
  rewrite H6, H7. reflexivity.
Qed.

(** Insert mode on one linear layer: the layer is wrapped. *)
Lemma adjust_parameters_insert_linear (s : SmoothQuant.t) c (W : mat)
    (lb : option vec) (lo hi im scale : vec) (am : gmap string vec) (a : R) :
  named_modules (model s) = [("fc", Linear c W lb)] ->
  insert_mul s = true ->
  input_mins s !! "fc" = Some lo -> input_maxes s !! "fc" = Some hi ->
  am !! "fc" = Some im ->
  cal_scale im [W] a = Some scale ->
  scale <> [] -> length lo = length scale -> length hi = length scale ->
  Forall (fun row => length row = length scale) W ->
  _adjust_parameters [("fc", ["fc"])] am (AlphaFloat a) s
  = Some (set_model
            (with_modules (model s)
               [("fc", SQLinearWrapper (reciprocal scale) a
                         (Linear c
                            (map (fun row => zip_with fdiv row
                                               (reciprocal scale)) W) lb)
                         false)]) s,
          ([("fc", scale)], [("fc", absorb_scale_of scale)])).
Proof.
  intros Hm Hins Hlo Hhi Him Hscale Hne Hllo Hlhi HW.
  unfold _adjust_parameters, _cal_scales.
  cbn [mapM mbind option_bind snd head].
  rewrite Him. cbn [mbind option_bind fmap option_fmap option_map mret option_ret].
  cbn [cal_scales_loop alpha_for mbind option_bind head].
  rewrite Him. cbn [mbind option_bind mapM].
  unfold reshape_in_channel_to_last, get_module. rewrite Hm.
  cbn [dict_get String.eqb Ascii.eqb Bool.eqb weight_rows].
  cbn [mbind option_bind fmap option_fmap option_map mret option_ret].
  rewrite Hscale.
  cbn [mbind option_bind cal_scales_loop fold_left dict_set].
  cbn [adjust_loop mbind option_bind fmap option_fmap option_map dict_get
         String.eqb Ascii.eqb Bool.eqb].
  unfold _absorb_scales. rewrite Hins. cbn [orb mbind option_bind].
  cbn [scale_layers]. rewrite Hlo, Hhi.
  cbn [mbind option_bind dict_get String.eqb Ascii.eqb Bool.eqb].
  unfold _scale_layer_weight. rewrite Hins.
  unfold get_module. rewrite Hm.
  cbn [dict_get String.eqb Ascii.eqb Bool.eqb].
  unfold SQWrapper.__init__. cbn [mbind option_bind].
  unfold SQWrapper._calculate_qparams. cbn [fst snd].
  rewrite !bcast_outer_same_length by (by rewrite length_reciprocal).
  cbn [mbind option_bind].
  destruct scale as [|c0 scale]; [done|].
  destruct lo as [|l0 lo]; [done|]. destruct hi as [|h0 hi]; [done|].
  cbn [reciprocal map zip_with mbind option_bind].
  unfold SQWrapper._update_sq_linear, SQWrapper.weight_inplace.
  rewrite rows_inplace_same_length
    by (eapply Forall_impl; [exact HW|]; intros row Hrow;
        simpl in Hrow |- *; by rewrite !length_map).
  cbn [mbind option_bind]. unfold set_module. rewrite Hm.
  cbn [dict_set String.eqb Ascii.eqb Bool.eqb]. reflexivity.
Qed.

Lemma reciprocal_two_two : reciprocal (reals [2; 2]) = reals [/ 2; / 2].
Proof.
  unfold reciprocal, reals, one. cbn [map].
  rewrite !fdiv_real by lra. do 3 f_equal; field.
Qed.

(** In insert mode, the default, a failed trace does not stop the
    transform: the linear layer is wrapped and its weight is rescaled. *)
Lemma transform_insert_without_trace :
  Trace.get_absorb_to_layer
    (example_env None [("fc", T2 [reals [4; 4]])])
    (linear_model (real_rows [[1; 1]])) (map op_type_name [TLinear; TConv2d])
    true = (None, None)
  /\ exists s1,
       transform (example_env None [("fc", T2 [reals [4; 4]])])
         (AlphaFloat (/ 2)) false 100 [TLinear; TConv2d] false 100
         (SmoothQuant.__init__ (linear_model (real_rows [[1; 1]])) true false)
       = Some s1
       /\ get_module (model s1) "fc"
          = SQLinearWrapper (reals [/ 2; / 2]) (/ 2)
              (Linear "Linear" (real_rows [[2; 2]]) None) false
       /\ model s1 <> linear_model (real_rows [[1; 1]])
       /\ real_rows [[2; 2]] <> real_rows [[1; 1]].
Proof.
  split; [reflexivity|].
  destruct (transform_insert_no_trace
              (example_env None [("fc", T2 [reals [4; 4]])])
              (/ 2) 100 [TLinear; TConv2d] false 100
              (SmoothQuant.__init__ (linear_model (real_rows [[1; 1]]))
                 true false)
              {| Calib.input_mins := {[ "fc" := reals [4; 4] ]};
                 Calib.input_maxes := {[ "fc" := reals [4; 4] ]} |}
              {[ "fc" := reals [4; 4] ]}
              {| Calib.input_mins := {[ "fc" := reals [4; 4] ]};
                 Calib.input_maxes := {[ "fc" := reals [4; 4] ]} |}
              {[ "fc" := reals [4; 4] ]}
              eq_refl ltac:(lra) eq_refl eq_refl eq_refl eq_refl eq_refl
              eq_refl eq_refl eq_refl)
    as (s0 & Htr & Hmodel & Hins & Hmins & Hmaxes).
  { by apply (calibrate_one_row None "fc" (Real 4) [Real 4] _ "Linear"
                (real_rows [[1; 1]]) None). }
  { cbn [Calib.input_mins]. by rewrite map_size_singleton. }
  { cbn [Calib.input_mins Calib.input_maxes].
    rewrite abs_maxes_singleton by done. cbn [reals map zip_with].
    by rewrite !fmax_fabs_nonneg by lra. }
  { by apply (calibrate_one_row None "fc" (Real 4) [Real 4] _ "Linear"
                (real_rows [[1; 1]]) None). }
  { cbn [Calib.input_mins Calib.input_maxes].
    rewrite abs_maxes_singleton by done. cbn [reals map zip_with].
    by rewrite !fmax_fabs_nonneg by lra. }
  assert (Hgroups :
            filter (fun kv : string * list string =>
                      bool_decide
                        (is_Some (({[ "fc" := reals [4; 4] ]}
                                   : gmap string vec) !! fst kv)))
              (dict_update []
                 (_get_all_layer_names
                    (SmoothQuant.__init__ (linear_model (real_rows [[1; 1]]))
                       true false)))
            = [("fc", ["fc"])]).
  { cbn [_get_all_layer_names SmoothQuant.__init__ model linear_model
           example_model named_modules omap fst snd example_linear isinstance
           list_omap dict_update fold_left dict_set].
    rewrite filter_cons_True
      by (apply bool_decide_pack; cbn [fst]; by rewrite lookup_singleton_eq).
    reflexivity. }
  cbn [Calib.input_mins Calib.input_maxes] in Htr, Hmins, Hmaxes.
  rewrite Hgroups in Htr.
  rewrite (adjust_parameters_insert_linear s0 "Linear" (real_rows [[1; 1]])
             None (reals [4; 4]) (reals [4; 4]) (reals [4; 4]) (reals [2; 2])
             _ (/ 2)) in Htr.
  - cbn [mbind option_bind] in Htr. eexists. split; [exact Htr|].
    cbn [set_scale_info set_model model].
    set (M := with_modules _ _).
    assert (Hfc : get_module M "fc"
                  = SQLinearWrapper (reals [/ 2; / 2]) (/ 2)
                      (Linear "Linear" (real_rows [[2; 2]]) None) false).
    { unfold get_module, M.
      cbn [with_modules named_modules dict_get String.eqb Ascii.eqb Bool.eqb].
      rewrite reciprocal_two_two. unfold real_rows, reals.
      cbn [map zip_with]. rewrite !fdiv_real by lra.
      do 6 f_equal; field. }
    split; [exact Hfc|]. split.
    + intros Heq. rewrite Heq in Hfc. discriminate Hfc.
    + unfold real_rows, reals. cbn [map]. intros Heq.
      injection Heq as Heq _. lra.
  - by rewrite Hmodel.
  - exact Hins.
  - by rewrite Hmins, lookup_singleton_eq.
  - by rewrite Hmaxes, lookup_singleton_eq.
  - by rewrite lookup_singleton_eq.
  - exact cal_scale_four_four.
  - done.
  - done.
  - done.
  - by repeat constructor.
Qed.

End FailedTraceInsert.

(** ** [cal_scale]: when it raises, and the range of its result *)

Section CalScaleShapes.

Local Open Scope R_scope.

Lemma bcast_outer_length {A : Type} (f : A -> fval -> A) xs s ys :
  bcast_outer f xs s = Some ys ->
  (length xs = length s /\ length ys = length xs)
  \/ (length xs <> length s /\ length s = 1%nat /\ length ys = length xs)
  \/ (length xs <> length s /\ length s <> 1%nat /\ length xs = 1%nat
      /\ length ys = length s).
Proof.
  unfold bcast_outer. destruct (Nat.eqb_spec (length xs) (length s)) as [E|E].
  - intros [= <-]. left. rewrite length_zip_with. lia.
  - destruct xs as [|x [|x' xs]], s as [|c [|c' s]]; intros H;
      simplify_eq; cbn [length] in *; rewrite ?length_map; cbn [length];
      first [ right; left; repeat split; (done || lia)
            | right; right; repeat split; (done || lia) ].
Qed.

Lemma mask_set_is_Some mask c t :
  is_Some (mask_set mask c t) -> length mask = length t.
Proof.
  unfold mask_set. destruct (Nat.eqb_spec (length mask) (length t)); [done|].
  by intros [? [=]].
Qed.

Lemma cal_scale_return_shapes input_max weights alpha :
  is_Some (cal_scale input_max weights alpha) ->
  input_max <> []
  /\ exists wm, weight_max_per_channel weights = Some wm
                /\ (length wm = length input_max \/ length wm = 1%nat).
Proof.
  unfold cal_scale. intros [scale H].
  destruct (weight_max_per_channel weights) as [wm|]; [|done].
  cbn [mbind option_bind] in H.
  destruct input_max as [|x0 xs]; [done|].
  split; [done|]. exists wm. split; [done|].
  cbn [mbind option_bind] in H.
  destruct (bcast_outer fdiv _ _) as [q|] eqn:Hq; [|done].
  cbn [mbind option_bind] in H.
  destruct (mask_set _ one _) as [q'|] eqn:Hq'; [|done].
  apply mk_is_Some, mask_set_is_Some in Hq'.
  apply bcast_outer_length in Hq.
  repeat rewrite length_map in Hq. repeat rewrite length_map in Hq'.
  destruct Hq as [?|[?|?]]; lia.
Qed.

Lemma cal_scale_shapes_return input_max weights alpha :
  input_max <> []
  /\ (exists wm, weight_max_per_channel weights = Some wm
                 /\ (length wm = length input_max \/ length wm = 1%nat)) ->
  is_Some (cal_scale input_max weights alpha).
Proof.
  intros (Hne & wm & Hwm & [Hlen|Hlen]).
  - rewrite (cal_scale_same_size _ _ _ _ Hwm Hlen Hne). by eexists.
  - destruct (Nat.eq_dec (length input_max) 1%nat) as [E|E].
    + rewrite (cal_scale_same_size _ _ _ _ Hwm) by (done || lia).
      by eexists.
    + destruct wm as [|w [|]]; try done.
      rewrite (cal_scale_bcast _ _ _ _ Hwm E Hne). by eexists.
Qed.

(** X1: [cal_scale] returns exactly when [input_max] is not empty, the
    weights can be concatenated and reduced to their per-channel maxima, and
    these maxima have the size of [input_max] or are a single entry; for
    every other pair of shapes it raises. *)
Theorem cal_scale_returns_iff input_max weights alpha :
  is_Some (cal_scale input_max weights alpha)
  <-> input_max <> []
      /\ exists wm, weight_max_per_channel weights = Some wm
                    /\ (length wm = length input_max \/ length wm = 1%nat).
Proof.
  split.
  - apply cal_scale_return_shapes.
  - apply cal_scale_shapes_return.
Qed.

Lemma scale_eps_pos : 0 < scale_eps.
Proof. unfold scale_eps. lra. Qed.

(** One channel: the scale is zero, which happens exactly at a zero weight
    max when [alpha < 1], or it is at least [1e-5]. *)
Lemma scale_entry_range alpha x w :
  0 <= alpha <= 1 -> finite_nonneg x -> finite_nonneg w ->
  exists r, scale_entry alpha x w = Real r
            /\ ((r = 0 /\ w = zero /\ alpha < 1) \/ scale_eps <= r).
Proof.
  intros Ha (r & -> & Hr) (q & -> & Hq). unfold scale_entry.
  pose proof scale_eps_pos as He.
  assert (Hone : scale_eps <= 1) by (unfold scale_eps; lra).
  assert (Hw : (q = 0 /\ alpha < 1 /\ fpow (Real q) (1 - alpha) = Real 0)
               \/ exists p, 0 < p /\ fpow (Real q) (1 - alpha) = Real p).
  { destruct (Req_dec_T alpha 1) as [->|Ha1].
    - right. exists 1. split; [lra|].
      replace (1 - 1) with 0 by lra. apply fpow_exp0.
    - destruct (Req_dec_T q 0) as [->|Hq0].
      + left. repeat split; [lra|]. apply fpow_zero; lra.
      + right. exists (Rpower q (1 - alpha)).
        split; [apply Rpower_gt0|]. apply fpow_pos; lra. }
  destruct Hw as [(-> & Ha1 & ->)|(p & Hp & ->)].
  { rewrite eq0_real by done. exists 0. split; [done|]. by left. }
  rewrite (eq0_real_ne p) by lra.
  assert (Hx : fpow (Real r) alpha = Real 0
               \/ exists y, 0 < y /\ fpow (Real r) alpha = Real y).
  { destruct (Req_dec_T alpha 0) as [->|Ha0].
    - right. exists 1. split; [lra|]. apply fpow_exp0.
    - destruct (Req_dec_T r 0) as [->|Hr0].
      + left. apply fpow_zero; lra.
      + right. exists (Rpower r alpha).
        split; [apply Rpower_gt0|]. apply fpow_pos; lra. }
  destruct Hx as [->|(y & Hy & ->)].
  { rewrite eq0_real by done. exists 1. split; [done|]. by right. }
  rewrite (eq0_real_ne y) by lra. rewrite fdiv_real by lra.
  cbn [clip_min]. eexists. split; [done|]. right. apply Rmax_r.
Qed.

(** X2: for [0 <= alpha <= 1], finite non-negative activation maxima and
    finite weights of the same number of channels, no channel of the scale
    that [cal_scale] returns is NaN, and a channel is exactly zero if and
    only if its weight max is zero and [alpha < 1]. *)
Theorem cal_scale_zero_exactly input_max weights alpha wm :
  0 <= alpha <= 1 ->
  weight_max_per_channel weights = Some wm ->
  length wm = length input_max ->
  input_max <> [] ->
  Forall finite_nonneg input_max ->
  Forall (Forall (Forall (fun x => is_finite x = true))) weights ->
  exists scale,
    cal_scale input_max weights alpha = Some scale
    /\ forall i s,
         scale !! i = Some s ->
         is_nan s = false
         /\ (s = zero <-> wm !! i = Some zero /\ alpha < 1).
Proof.
  intros Ha Hwm Hlen Hne Hin Hw.
  exists (zip_with (scale_entry alpha) input_max wm).
  split; [by apply cal_scale_same_size|].
  pose proof (weight_max_finite_nonneg _ _ Hwm Hw) as Hwmf.
  pose proof scale_eps_pos as He.
  intros i s Hs. apply lookup_zip_with_Some in Hs as (x & w & -> & Hx & Hwi).
  destruct (scale_entry_range alpha x w Ha) as (r & Hr & Hcase).
  { by eapply (proj1 (Forall_lookup _ _) Hin). }
  { by eapply (proj1 (Forall_lookup _ _) Hwmf). }
  rewrite Hr. split; [done|]. split.
  - intros [= ->]. destruct Hcase as [(_ & -> & Ha1)|Hge]; [done|lra].
  - intros [Hz Ha1]. rewrite Hwi in Hz. injection Hz as ->.
    rewrite <- Hr. by apply scale_entry_zero_weight.
Qed.

Lemma cal_scale_zero_exactly_witness :
  exists scale,
    cal_scale [Real 2; Real 4] [[[Real 1; zero]]] (/ 2) = Some scale
    /\ forall i s,
         scale !! i = Some s ->
         is_nan s = false
         /\ (s = zero
             <-> [fabs (Real 1); fabs zero] !! i = Some zero /\ / 2 < 1).
Proof.
  apply (cal_scale_zero_exactly [Real 2; Real 4] [[[Real 1; zero]]] (/ 2)
           [fabs (Real 1); fabs zero]).
  - lra.
  - reflexivity.
  - reflexivity.
  - discriminate.
  - repeat constructor; [exists 2|exists 4]; split; try reflexivity; lra.
  - repeat constructor.
Defined.

Lemma Int_part_1 : Int_part 1 = 1%Z.
Proof. symmetry. apply Int_part_spec. simpl. lra. Qed.

Lemma frac_part_1 : frac_part 1 = 0.
Proof. unfold frac_part. rewrite Int_part_1. simpl. lra. Qed.

(** [torch.pow(x, 1.0)] is [x], also at the special values. *)
Lemma fpow_exp1 x : fpow x 1 = x.
Proof.
  unfold fpow. rewrite (sgn_pos 1) by lra.
  unfold is_odd_integer, is_integer. rewrite frac_part_1, Int_part_1.
  destruct (Req_dec_T 0 0) as [_|N]; [|lra]. cbn [Z.odd andb].
  destruct x as [r| | |]; try done.
  destruct (sgn r) eqn:E.
  - apply sgn_Eq in E. by subst.
  - apply sgn_Lt in E. rewrite Rpower_1 by lra. f_equal. lra.
  - apply sgn_Gt in E. by rewrite Rpower_1.
Qed.

Lemma fdiv_one x : fdiv x (Real 1) = x.
Proof.
  destruct x as [r| | |]; try done.
  - rewrite fdiv_real by lra. f_equal. field.
  - cbn [fdiv]. by rewrite (sgn_pos 1) by lra.
  - cbn [fdiv]. by rewrite (sgn_pos 1) by lra.
Qed.

Lemma scale_entry_alpha_one x w :
  scale_entry 1 x w = if eq0 x then one else clip_min scale_eps x.
Proof.
  unfold scale_entry. replace (1 - 1) with 0 by lra.
  rewrite fpow_exp0, fpow_exp1, (eq0_real_ne 1) by lra. by rewrite fdiv_one.
Qed.

Lemma scale_entry_bcast_alpha_one w x :
  scale_entry_bcast 1 w x = if eq0 x then one else clip_min scale_eps x.
Proof.
  unfold scale_entry_bcast. replace (1 - 1) with 0 by lra.
  by rewrite fpow_exp0, fpow_exp1, fdiv_one.
Qed.

(** X3: with [alpha = 1] the weights matter only through their shape:
    whenever [cal_scale] returns, every channel of the scale is the
    activation max clipped from below at [1e-5], and one where the
    activation max is zero; no channel is set to zero, whatever the
    weights are, because [torch.pow(w, 0)] is one also at [w = 0]. *)
Theorem cal_scale_alpha_one input_max weights :
  is_Some (cal_scale input_max weights 1) ->
  cal_scale input_max weights 1
  = Some (map (fun x => if eq0 x then one else clip_min scale_eps x)
            input_max).
Proof.
  intros H. apply cal_scale_return_shapes in H
    as (Hne & wm & Hwm & Hlen).
  destruct (Nat.eq_dec (length wm) (length input_max)) as [E|E].
  - rewrite (cal_scale_same_size _ _ _ _ Hwm E Hne). f_equal.
    clear Hwm Hlen Hne. revert wm E.
    induction input_max as [|x xs IH]; intros [|w ws] E; try done.
    cbn [zip_with map]. rewrite scale_entry_alpha_one. f_equal.
    apply IH. simpl in E. lia.
  - destruct Hlen as [Hlen|Hlen]; [done|].
    destruct wm as [|w [|]]; try done.
    rewrite (cal_scale_bcast _ _ _ _ Hwm) by (done || (simpl in E; lia)).
    f_equal. apply map_ext. intros x. apply scale_entry_bcast_alpha_one.
Qed.

Lemma cal_scale_alpha_one_witness :
  cal_scale [Real 2; zero] [[[zero; Real 1]]] 1
  = Some (map (fun x => if eq0 x then one else clip_min scale_eps x)
            [Real 2; zero]).
Proof.
  apply (cal_scale_alpha_one [Real 2; zero] [[[zero; Real 1]]]).
  apply cal_scale_shapes_return.
  split; [discriminate|]. exists [fabs zero; fabs (Real 1)].
  split; [reflexivity|]. by left.
Defined.

End CalScaleShapes.

(** ** The statistics that [calibrate] returns *)

Section CalibrationStats.

Import Calib.

Lemma rows_check (rows0 rows : mat) (r : vec) :
  match rows0 with [] :: _ => None | _ => Some rows0 end = Some rows ->
  head rows = Some r -> r <> [].
Proof.
  destruct rows0 as [|[|x r0] rest]; intros H Hr; by simplify_eq/=.
Qed.

Lemma reshape_last_head t rows r :
  reshape_last t = Some rows -> head rows = Some r -> r <> [].
Proof. intros H. exact (rows_check _ _ _ H). Qed.

Lemma reduce0_uniform (f : fval -> fval -> fval) (rows : mat) (v : vec) :
  reduce0 f rows = Some v ->
  exists r rest, rows = r :: rest /\ v = foldl (zip_with f) r rest
                 /\ Forall (fun r' => length r' = length r) rest.
Proof.
  unfold reduce0. destruct rows as [|r rest]; [done|].
  destruct (uniform (r :: rest)) eqn:U; [|done]. intros [= <-].
  exists r, rest. repeat split. cbn [uniform] in U.
  apply Is_true_true, forallb_True in U.
  eapply Forall_impl; [exact U|]. intros r' Hr'. simpl in Hr'.
  by apply Nat.eqb_eq, Is_true_true.
Qed.

(** The minima and the maxima of one call have the same size, which is
    not zero. *)
Lemma batch_min_max_sizes l input mn mx :
  batch_min_max l input = Some (mn, mx) ->
  length mn = length mx /\ mx <> [].
Proof.
  unfold batch_min_max. intros H.
  destruct (hook_rows l input) as [rows|] eqn:Hrows; [|done].
  cbn [mbind option_bind] in H.
  destruct (reduce0 fmax rows) as [mx'|] eqn:Hmx; [|done].
  cbn [mbind option_bind] in H.
  destruct (reduce0 fmin rows) as [mn'|] eqn:Hmn; [|done].
  cbn [mbind option_bind] in H. simplify_eq.
  apply reduce0_uniform in Hmx as (r & rest & -> & -> & Hu).
  apply reduce0_uniform in Hmn as (r' & rest' & [= <- <-] & -> & _).
  rewrite !foldl_zip_with_length by done. split; [done|].
  assert (Hr : r <> []).
  { unfold hook_rows in Hrows.
    destruct (weight_rank l) as [n|]; [|done].
    cbn [mbind option_bind] in Hrows.
    destruct (if (n =? 4)%nat then _ else _) as [t|]; [|done].
    cbn [mbind option_bind] in Hrows.
    by eapply reshape_last_head. }
  intros E. apply (f_equal length) in E.
  rewrite foldl_zip_with_length in E by done. by destruct r.
Qed.

Lemma stats_ok_empty m o : stats_ok m o empty_stats.
Proof. intros k. cbn [empty_stats input_mins input_maxes]. by rewrite !lookup_empty. Qed.

(** One call of the hook of a hooked module keeps the statistics well
    formed. *)
Lemma save_input_hook_stats_ok m o name l input st st' :
  dict_get (named_modules m) name = Some l ->
  isinstance_any l o = true ->
  stats_ok m o st ->
  save_input_hook name l input st = Some st' ->
  stats_ok m o st'.
Proof.
  intros Hl Hinst Hok H. unfold save_input_hook in H.
  destruct (batch_min_max l input) as [[mn mx]|] eqn:Hb; [|done].
  cbn [mbind option_bind] in H.
  apply batch_min_max_sizes in Hb as [Hlen Hne].
  pose proof (Hok name) as Hname.
  destruct (input_maxes st !! name) as [old_max|] eqn:Emax.
  - destruct (input_mins st !! name) as [old_min|] eqn:Emin; [|done].
    destruct Hname as (Hlen' & Hne' & _).
    cbn [mbind option_bind] in H.
    destruct (bcast_outer fmin old_min mn) as [new_min|] eqn:Bmin; [|done].
    cbn [mbind option_bind] in H.
    destruct (bcast_outer fmax old_max mx) as [new_max|] eqn:Bmax; [|done].
    cbn [mbind option_bind] in H. simplify_eq.
    apply bcast_outer_length in Bmin, Bmax.
    intros k. cbn [input_mins input_maxes].
    destruct (decide (k = name)) as [->|Hk].
    + rewrite !lookup_insert_eq. split; [|split].
      * destruct Bmin as [?|[?|?]], Bmax as [?|[?|?]]; lia.
      * intros ->. destruct old_max, mx; try done.
        cbn [length] in Bmax. destruct Bmax as [?|[?|?]]; lia.
      * by exists l.
    + rewrite !lookup_insert_ne by done. apply Hok.
  - destruct (input_mins st !! name) as [old_min|] eqn:Emin; [done|].
    simplify_eq. intros k. cbn [input_mins input_maxes].
    destruct (decide (k = name)) as [->|Hk].
    + rewrite !lookup_insert_eq. split; [done|]. split; [done|]. by exists l.
    + rewrite !lookup_insert_ne by done. apply Hok.
Qed.

Lemma run_hooks_stats_ok m o evs st st' :
  stats_ok m o st -> run_hooks m o evs st = Some st' -> stats_ok m o st'.
Proof.
  revert st. induction evs as [|[n x] evs IH]; intros st Hok H.
  - by simplify_eq/=.
  - cbn [run_hooks] in H.
    destruct (on_forward m o st (n, x)) as [st1|] eqn:E; [|done].
    cbn [mbind option_bind] in H. apply (IH st1); [|done].
    unfold on_forward in E. cbn [fst snd] in E.
    destruct (dict_get (named_modules m) n) as [l|] eqn:Hl;
      [|by simplify_eq].
    destruct (isinstance_any l o) eqn:Hi; [|by simplify_eq].
    by eapply save_input_hook_stats_ok.
Qed.

(** On well-formed statistics the absolute maxima are defined. *)
Lemma abs_maxes_stats_ok m o st :
  stats_ok m o st ->
  is_Some (SmoothQuant.abs_maxes (input_mins st) (input_maxes st)).
Proof.
  intros Hok. unfold SmoothQuant.abs_maxes.
  assert (H : is_Some
                (mapM (fun kv : string * vec =>
                         hi ← input_maxes st !! fst kv;
                         v ← bcast_outer fmax (map fabs (snd kv))
                               (map fabs hi);
                         Some (fst kv, v))
                   (map_to_list (input_mins st)))).
  { apply mapM_is_Some, Forall_forall. intros [k lo] Hk.
    apply elem_of_map_to_list in Hk. cbn [fst snd compose].
    pose proof (Hok k) as Hk'. rewrite Hk in Hk'.
    destruct (input_maxes st !! k) as [hi|]; [|done].
    destruct Hk' as (Hlen & _). cbn [mbind option_bind].
    rewrite bcast_outer_same_length by (by rewrite !length_map).
    by eexists. }
  destruct H as [kvs ->]. by eexists.
Qed.

(** X4: the statistics that [calibrate] returns hold minima and maxima for
    the same layers; every such layer is a sub-module of the model that is
    an instance of one of [op_types]; its minima and maxima have the same
    size, which is not zero; and the absolute maxima that [transform]
    computes from them next are defined. *)
Theorem calibrate_stats_well_formed (e : env) m ci o st :
  calibrate e m ci o = Some st ->
  (forall k, is_Some (input_mins st !! k) <-> is_Some (input_maxes st !! k))
  /\ (forall k mx,
        input_maxes st !! k = Some mx ->
        exists l mn,
          dict_get (named_modules m) k = Some l
          /\ isinstance_any l o = true
          /\ input_mins st !! k = Some mn
          /\ length mn = length mx /\ mx <> [])
  /\ is_Some (SmoothQuant.abs_maxes (input_mins st) (input_maxes st)).
Proof.
  unfold calibrate. intros H.
  destruct (_dump_min_max e m ci) as [evs|]; [|done].
  cbn [mbind option_bind] in H.
  pose proof (run_hooks_stats_ok m o evs _ _ (stats_ok_empty m o) H) as Hok.
  split; [|split].
  - intros k. specialize (Hok k).
    destruct (input_mins st !! k), (input_maxes st !! k); try done;
      split; by eexists.
  - intros k mx Hmx. specialize (Hok k). rewrite Hmx in Hok.
    destruct (input_mins st !! k) as [mn|]; [|done].
    destruct Hok as (Hlen & Hne & l & Hl & Hi). by exists l, mn.
  - by eapply abs_maxes_stats_ok.
Qed.

Lemma calibrate_stats_well_formed_witness :
  let e := example_env None [("fc", T2 [[Real 1; Real 2]])] in
  let m := linear_model [[Real 1; Real 1]] in
  let st := {| input_mins := {[ "fc" := [Real 1; Real 2] ]};
               input_maxes := {[ "fc" := [Real 1; Real 2] ]} |} in
  (forall k, is_Some (input_mins st !! k) <-> is_Some (input_maxes st !! k))
  /\ (forall k mx,
        input_maxes st !! k = Some mx ->
        exists l mn,
          dict_get (named_modules m) k = Some l
          /\ isinstance_any l [TLinear; TConv2d] = true
          /\ input_mins st !! k = Some mn
          /\ length mn = length mx /\ mx <> [])
  /\ is_Some (SmoothQuant.abs_maxes (input_mins st) (input_maxes st)).
Proof.
  intros e m st.
  apply (calibrate_stats_well_formed e m 100 [TLinear; TConv2d] st).
  by apply (calibrate_one_row None "fc" (Real 1) [Real 2] m "Linear"
              [[Real 1; Real 1]] None).
Defined.

(** The hook of a layer reads and writes the statistics of that layer
    only. *)
Lemma save_input_hook_agree name l input st1 st1' st2 :
  agree_at name st1 st1' ->
  save_input_hook name l input st1 = Some st2 ->
  exists st2', save_input_hook name l input st1' = Some st2'
               /\ agree_at name st2 st2'.
Proof.
  intros [Hmin Hmax] H. unfold save_input_hook in *.
  destruct (batch_min_max l input) as [[mn mx]|]; [|done].
  cbn [mbind option_bind] in *. rewrite <- Hmax, <- Hmin.
  destruct (input_maxes st1 !! name) as [old_max|].
  - destruct (input_mins st1 !! name) as [old_min|]; [|done].
    cbn [mbind option_bind] in *.
    destruct (bcast_outer fmin old_min mn) as [new_min|]; [|done].
    cbn [mbind option_bind] in *.
    destruct (bcast_outer fmax old_max mx) as [new_max|]; [|done].
    cbn [mbind option_bind] in *. simplify_eq. eexists. split; [done|].
    split; cbn [input_mins input_maxes]; by rewrite !lookup_insert_eq.
  - simplify_eq. eexists. split; [done|].
    split; cbn [input_mins input_maxes]; by rewrite !lookup_insert_eq.
Qed.

Lemma save_input_hook_frame name n l input st st' :
  n <> name -> save_input_hook n l input st = Some st' ->
  agree_at name st st'.
Proof.
  intros Hn H. unfold save_input_hook in H.
  destruct (batch_min_max l input) as [[mn mx]|]; [|done].
  cbn [mbind option_bind] in H.
  destruct (input_maxes st !! n) as [old_max|].
  - destruct (input_mins st !! n) as [old_min|]; [|done].
    cbn [mbind option_bind] in H.
    destruct (bcast_outer fmin old_min mn) as [new_min|]; [|done].
    cbn [mbind option_bind] in H.
    destruct (bcast_outer fmax old_max mx) as [new_max|]; [|done].
    cbn [mbind option_bind] in H. simplify_eq.
    split; cbn [input_mins input_maxes]; by rewrite lookup_insert_ne.
  - simplify_eq.
    split; cbn [input_mins input_maxes]; by rewrite lookup_insert_ne.
Qed.

Lemma run_hooks_agree m o name l evs st1 st1' st :
  dict_get (named_modules m) name = Some l ->
  isinstance_any l o = true ->
  agree_at name st1 st1' ->
  run_hooks m o evs st1 = Some st ->
  exists st',
    feed name l (snd <$> filter (fun ev => fst ev = name) evs) st1' = Some st'
    /\ agree_at name st st'.
Proof.
  intros Hl Hi. revert st1 st1'.
  induction evs as [|[n x] evs IH]; intros st1 st1' Hag H.
  - simplify_eq/=. by exists st1'.
  - cbn [run_hooks] in H.
    destruct (on_forward m o st1 (n, x)) as [st2|] eqn:E; [|done].
    cbn [mbind option_bind] in H. unfold on_forward in E. cbn [fst snd] in E.
    destruct (decide (n = name)) as [->|Hn].
    + rewrite filter_cons_True by done. rewrite Hl, Hi in E.
      destruct (save_input_hook_agree _ _ _ _ _ _ Hag E) as (st2' & E' & Hag').
      destruct (IH _ _ Hag' H) as (st' & Hfeed & Hfin).
      exists st'. split; [|done].
      unfold feed in *. cbn [fmap list_fmap for_each snd]. rewrite E'.
      exact Hfeed.
    + rewrite filter_cons_False by done. apply (IH st2 st1'); [|done].
      destruct Hag as [Hmin Hmax].
      assert (Hfr : agree_at name st1 st2).
      { destruct (dict_get (named_modules m) n) as [l'|]; [|by simplify_eq].
        destruct (isinstance_any l' o); [|by simplify_eq].
        by eapply save_input_hook_frame. }
      destruct Hfr as [Hmin' Hmax']. split; congruence.
Qed.

(** X5: what [calibrate] stores for a hooked layer is what the hook of
    that layer alone computes from the inputs that this layer receives, in
    the order of the forward passes; the calls of the other layers do not
    matter. *)
Theorem calibrate_layer_is_feed (e : env) m ci o st name l :
  calibrate e m ci o = Some st ->
  dict_get (named_modules m) name = Some l ->
  isinstance_any l o = true ->
  exists st',
    feed name l
      (snd <$> filter (fun ev => fst ev = name) (forward_events e m ci))
      empty_stats = Some st'
    /\ input_mins st !! name = input_mins st' !! name
    /\ input_maxes st !! name = input_maxes st' !! name.
Proof.
  unfold calibrate, _dump_min_max. intros H Hl Hi.
  destruct (has_q_func e || has_dataloader e); [|done].
  cbn [mbind option_bind] in H.
  destruct (run_hooks_agree m o name l (forward_events e m ci) empty_stats
              empty_stats st Hl Hi)
    as (st' & Hfeed & Hmin & Hmax); [done|done|].
  by exists st'.
Qed.

Lemma calibrate_layer_is_feed_witness :
  let e := example_env None [("fc", T2 [[Real 1; Real 2]])] in
  let m := linear_model [[Real 1; Real 1]] in
  let st := {| input_mins := {[ "fc" := [Real 1; Real 2] ]};
               input_maxes := {[ "fc" := [Real 1; Real 2] ]} |} in
  exists st',
    feed "fc" (example_linear [[Real 1; Real 1]])
      (snd <$> filter (fun ev => fst ev = "fc") (forward_events e m 100))
      empty_stats = Some st'
    /\ input_mins st !! "fc" = input_mins st' !! "fc"
    /\ input_maxes st !! "fc" = input_maxes st' !! "fc".
Proof.
  intros e m st.
  apply (calibrate_layer_is_feed e m 100 [TLinear; TConv2d] st "fc"
           (example_linear [[Real 1; Real 1]])).
  - by apply (calibrate_one_row None "fc" (Real 1) [Real 2] m "Linear"
                [[Real 1; Real 1]] None).
  - reflexivity.
  - reflexivity.
Defined.

End CalibrationStats.

(** ** The recorded minima and maxima bound every observed input *)

Section HookBounds.

Import Calib.

Local Open Scope R_scope.















End HookBounds.

(** ** The groups that [get_absorb_to_layer] builds from the trace *)

Section GroupNodes.

Lemma dict_get_set {V : Type} (d : odict V) k v k' :
  dict_get (dict_set d k v) k'
  = if String.eqb k k' then Some v else dict_get d k'.
Proof.
  induction d as [|[k0 v0] d IH]; cbn [dict_set dict_get]; [done|].
  destruct (String.eqb_spec k0 k) as [->|Hk0]; cbn [dict_get].
  - destruct (String.eqb_spec k k'); done.
  - rewrite IH. destruct (String.eqb_spec k0 k') as [->|]; [|done].
    by rewrite (proj2 (String.eqb_neq _ _)) by done.
Qed.

Lemma dict_keys_set {V : Type} (d : odict V) k v :
  dict_keys (dict_set d k v)
  = if dict_mem d k then dict_keys d else dict_keys d ++ [k].
Proof.
  unfold dict_keys, dict_mem. induction d as [|[k0 v0] d IH]; simpl; [done|].
  destruct (String.eqb_spec k0 k) as [->|Hk0]; simpl; [done|].
  rewrite IH. by destruct (dict_get d k).
Qed.

Lemma dict_set_NoDup {V : Type} (d : odict V) k v :
  NoDup (dict_keys d) -> NoDup (dict_keys (dict_set d k v)).
Proof.
  intros H. rewrite dict_keys_set. unfold dict_mem.
  destruct (dict_get d k) eqn:E; [done|].
  apply NoDup_app. split; [done|]. split; [|apply NoDup_singleton].
  intros x Hx ->%list_elem_of_singleton. by apply dict_get_None in E.
Qed.

Lemma absorbed_by_cons k l a rest :
  absorbed_by k ((l, a) :: rest)
  = if decide (a = Some k /\ l <> "" /\ k <> "")
    then l :: absorbed_by k rest else absorbed_by k rest.
Proof.
  unfold absorbed_by. destruct (decide _) as [H|H].
  - by rewrite filter_cons_True by done.
  - by rewrite filter_cons_False by done.
Qed.

(** The loop of [get_absorb_to_layer] from any intermediate state. *)
Lemma group_nodes_from nodes acc nal0 :
  let '(a2l, nal) := Trace.group_nodes nodes acc nal0 in
  nal = nal0 ++ (fst <$> filter (fun n => snd n = None) nodes)
  /\ (NoDup (dict_keys acc) -> NoDup (dict_keys a2l))
  /\ forall k,
       dict_get a2l k
       = match dict_get acc k, absorbed_by k nodes with
         | None, [] => None
         | None, v => Some v
         | Some u, v => Some (u ++ v)
         end.
Proof.
  revert acc nal0. induction nodes as [|[l [a|]] nodes IH]; intros acc nal0.
  - cbn [Trace.group_nodes]. split; [by rewrite app_nil_r|]. split; [done|].
    intros k. unfold absorbed_by. cbn. destruct (dict_get acc k); [|done].
    by rewrite app_nil_r.
  - cbn [Trace.group_nodes].
    destruct (String.eqb_spec l "") as [->|Hl]; cbn [orb].
    { specialize (IH acc nal0). destruct (Trace.group_nodes nodes acc nal0)
        as [a2l nal]. destruct IH as (H1 & H2 & H3).
      split; [by rewrite filter_cons_False by done|]. split; [done|].
      intros k. rewrite absorbed_by_cons.
      rewrite decide_False by (by intros (_ & ? & _)). apply H3. }
    destruct (String.eqb_spec a "") as [->|Ha].
    { specialize (IH acc nal0). destruct (Trace.group_nodes nodes acc nal0)
        as [a2l nal]. destruct IH as (H1 & H2 & H3).
      split; [by rewrite filter_cons_False by done|]. split; [done|].
      intros k. rewrite absorbed_by_cons.
      rewrite decide_False by (by intros ([= ->] & _ & ?)). apply H3. }
    set (acc' := match dict_get acc a with
                 | Some layers => dict_set acc a (layers ++ [l])
                 | None => dict_set acc a [l]
                 end).
    assert (Hacc : Trace.group_nodes nodes acc' nal0
                   = match dict_get acc a with
                     | Some layers =>
                         Trace.group_nodes nodes
                           (dict_set acc a (layers ++ [l])) nal0
                     | None =>
                         Trace.group_nodes nodes (dict_set acc a [l]) nal0
                     end).
    { unfold acc'. by destruct (dict_get acc a). }
    rewrite <- Hacc. specialize (IH acc' nal0).
    destruct (Trace.group_nodes nodes acc' nal0) as [a2l nal].
    destruct IH as (H1 & H2 & H3).
    split; [by rewrite filter_cons_False by done|]. split.
    { intros Hnd. apply H2. unfold acc'.
      destruct (dict_get acc a); by apply dict_set_NoDup. }
    intros k. rewrite H3, absorbed_by_cons.
    assert (Hget : dict_get acc' k
                   = if String.eqb a k
                     then Some (default [] (dict_get acc a) ++ [l])
                     else dict_get acc k).
    { unfold acc'. destruct (dict_get acc a); by rewrite dict_get_set. }
    rewrite Hget. destruct (String.eqb_spec a k) as [->|Hak].
    + rewrite decide_True by done.
      destruct (dict_get acc k); cbn [default app]; [|done].
      by rewrite <- app_assoc.
    + rewrite decide_False by (by intros ([= ->] & _)). done.
  - cbn [Trace.group_nodes]. specialize (IH acc (nal0 ++ [l])).
    destruct (Trace.group_nodes nodes acc (nal0 ++ [l])) as [a2l nal].
    destruct IH as (H1 & H2 & H3).
    split; [|split; [done|]].
    + rewrite filter_cons_True by done. rewrite H1.
      cbn [fmap list_fmap fst]. by rewrite <- app_assoc.
    + intros k. rewrite absorbed_by_cons.
      rewrite decide_False by (by intros ([=] & _)). apply H3.
Qed.

(** X7: the loop of [get_absorb_to_layer] over the traced nodes groups
    the layers by their absorbing node: the group of a key is the list, in
    trace order, of the layers traced under that key, a key with no such
    layer is absent, the keys are distinct, and [no_absorb_layers] lists,
    in trace order, the layers for which no absorbing node was found.
    Nodes whose own name or whose absorbing node's name is empty are
    skipped. *)
Theorem group_nodes_spec nodes a2l nal :
  Trace.group_nodes nodes [] [] = (a2l, nal) ->
  NoDup (dict_keys a2l)
  /\ nal = (fst <$> filter (fun n => snd n = None) nodes)
  /\ forall k,
       dict_get a2l k
       = match absorbed_by k nodes with [] => None | v => Some v end.
Proof.
  intros H. pose proof (group_nodes_from nodes [] []) as Hspec.
  rewrite H in Hspec. destruct Hspec as (H1 & H2 & H3).
  split; [apply H2; constructor|]. split; [done|]. intros k. by rewrite H3.
Qed.

Lemma group_nodes_spec_witness :
  let nodes := [("q", Some "norm"); ("out", None); ("k", Some "norm");
                ("", Some "norm"); ("fc", Some "act")] in
  let a2l := [("norm", ["q"; "k"]); ("act", ["fc"])] in
  NoDup (dict_keys a2l)
  /\ ["out"] = (fst <$> filter (fun n => snd n = None) nodes)
  /\ forall k,
       dict_get a2l k
       = match absorbed_by k nodes with [] => None | v => Some v end.
Proof.
  intros nodes a2l. apply (group_nodes_spec nodes a2l ["out"]). reflexivity.
Defined.

Lemma concat_dict_set_append (d : odict (list string)) k v l :
  dict_get d k = Some v ->
  concat (snd <$> dict_set d k (v ++ [l])) ≡ₚ concat (snd <$> d) ++ [l].
Proof.
  induction d as [|[k0 v0] d IH]; cbn [dict_get dict_set]; [done|].
  destruct (String.eqb_spec k0 k) as [->|Hk0].
  - intros [= ->]. cbn [fmap list_fmap snd concat].
    rewrite <- !app_assoc. apply Permutation_app_head, Permutation_app_comm.
  - intros H. cbn [fmap list_fmap snd concat]. rewrite <- app_assoc.
    apply Permutation_app_head. by apply IH.
Qed.

Lemma concat_dict_set_new (d : odict (list string)) k l :
  dict_get d k = None ->
  concat (snd <$> dict_set d k [l]) = concat (snd <$> d) ++ [l].
Proof.
  induction d as [|[k0 v0] d IH]; cbn [dict_get dict_set]; [done|].
  destruct (String.eqb_spec k0 k) as [->|Hk0]; [done|].
  intros H. cbn [fmap list_fmap snd concat]. rewrite <- app_assoc.
  f_equal. by apply IH.
Qed.

(** No layer is lost or duplicated by the grouping. *)
Lemma group_nodes_partition nodes acc nal0 :
  let '(a2l, nal) := Trace.group_nodes nodes acc nal0 in
  concat (snd <$> a2l) ++ nal
  ≡ₚ concat (snd <$> acc) ++ nal0 ++ (fst <$> filter named_node nodes).
Proof.
  revert acc nal0. induction nodes as [|[l [a|]] nodes IH]; intros acc nal0.
  - cbn [Trace.group_nodes]. by rewrite filter_nil, app_nil_r.
  - cbn [Trace.group_nodes].
    destruct (String.eqb l "" || String.eqb a "") eqn:E.
    { specialize (IH acc nal0).
      destruct (Trace.group_nodes nodes acc nal0) as [a2l nal].
      rewrite filter_cons_False; [done|].
      unfold named_node. cbn [fst snd]. rewrite E. cbn. tauto. }
    rewrite filter_cons_True
      by (unfold named_node; cbn [fst snd]; by rewrite E).
    cbn [fmap list_fmap fst].
    destruct (dict_get acc a) as [layers|] eqn:Hget.
    + specialize (IH (dict_set acc a (layers ++ [l])) nal0).
      destruct (Trace.group_nodes nodes _ nal0) as [a2l nal].
      rewrite IH, (concat_dict_set_append _ _ _ _ Hget).
      rewrite <- !app_assoc. apply Permutation_app_head.
      cbn [app]. by rewrite Permutation_middle.
    + specialize (IH (dict_set acc a [l]) nal0).
      destruct (Trace.group_nodes nodes _ nal0) as [a2l nal].
      rewrite IH, (concat_dict_set_new _ _ _ Hget).
      rewrite <- !app_assoc. apply Permutation_app_head.
      cbn [app]. by rewrite Permutation_middle.
  - cbn [Trace.group_nodes]. specialize (IH acc (nal0 ++ [l])).
    destruct (Trace.group_nodes nodes acc (nal0 ++ [l])) as [a2l nal].
    rewrite filter_cons_True by done. rewrite IH.
    cbn [fmap list_fmap fst]. by rewrite <- !app_assoc.
Qed.

Lemma concat_filter_split (P : string * list string -> bool)
    (d : odict (list string)) :
  concat (snd <$> filter (fun kv => P kv) d)
  ++ concat (snd <$> filter (fun kv => ¬ P kv) d)
  ≡ₚ concat (snd <$> d).
Proof.
  induction d as [|kv d IH]; [done|].
  destruct (P kv) eqn:E.
  - rewrite filter_cons_True by (by rewrite E).
    rewrite (filter_cons_False (fun kv => ¬ P kv)) by (rewrite E; intros H; by apply H).
    cbn [fmap list_fmap concat]. rewrite <- app_assoc.
    by apply Permutation_app_head.
  - rewrite filter_cons_False by (rewrite E; by intros []).
    rewrite (filter_cons_True (fun kv => ¬ P kv))
      by (rewrite E; by intros []).
    cbn [fmap list_fmap concat]. rewrite <- IH.
    rewrite !app_assoc. apply Permutation_app_tail, Permutation_app_comm.
Qed.

(** X8: when the trace succeeds, [get_absorb_to_layer] accounts for every
    traced layer exactly once: the layers of the returned groups together
    with [no_absorb_layers] are, up to order, the traced layers (without
    the nodes that have an empty name or an empty absorbing name).  The
    keys of the returned dictionary are distinct, and with
    [skip_unsupported_layers] every returned group passes the support
    check. *)
Theorem get_absorb_to_layer_partition (e : env) m ops skip nodes :
  Trace.traced_nodes e m ops = Some nodes ->
  exists a2l nal,
    Trace.get_absorb_to_layer e m ops skip = (Some a2l, Some nal)
    /\ NoDup (dict_keys a2l)
    /\ concat (snd <$> a2l) ++ nal ≡ₚ fst <$> filter named_node nodes
    /\ (skip = true -> Forall (fun kv => group_kept m kv = true) a2l).
Proof.
  intros Htr. unfold Trace.get_absorb_to_layer. rewrite Htr.
  pose proof (group_nodes_partition nodes [] []) as Hpart.
  pose proof (group_nodes_from nodes [] []) as Hspec.
  destruct (Trace.group_nodes nodes [] []) as [a2l nal].
  destruct Hspec as (_ & Hnd & _). specialize (Hnd (NoDup_nil_2 (A:=string))).
  cbn [fmap list_fmap concat app] in Hpart.
  destruct skip.
  - unfold Trace.remove_unsupported_layers.
    rewrite remove_unsupported_loop_spec by done. cbn [app].
    eexists _, _. split; [done|]. split; [|split].
    + unfold dict_keys. apply (NoDup_fmap_2_strong fst).
      * intros [k1 v1] [k2 v2] H1%list_elem_of_filter H2%list_elem_of_filter.
        cbn [fst]. intros ->. f_equal.
        destruct H1 as [_ H1], H2 as [_ H2].
        apply (dict_get_NoDup _ _ _ Hnd) in H1, H2. congruence.
      * apply NoDup_filter. eapply NoDup_fmap_1. exact Hnd.
    + rewrite <- Hpart. rewrite (Permutation_app_comm nal), app_assoc.
      apply Permutation_app_tail.
      apply (concat_filter_split (group_kept m)).
    + intros _. apply Forall_forall. intros kv [Hk _]%list_elem_of_filter.
      by apply Is_true_true.
  - eexists _, _. split; [done|]. split; [done|]. split; [done|]. done.
Qed.

Lemma get_absorb_to_layer_partition_witness :
  let nodes := [("q", Some "norm"); ("out", None); ("k", Some "norm")] in
  let e := example_env (Some nodes) [] in
  let m := norm_linear_model [] [] [] None in
  exists a2l nal,
    Trace.get_absorb_to_layer e m ["Linear"] true = (Some a2l, Some nal)
    /\ NoDup (dict_keys a2l)
    /\ concat (snd <$> a2l) ++ nal ≡ₚ fst <$> filter named_node nodes
    /\ (true = true -> Forall (fun kv => group_kept m kv = true) a2l).
Proof.
  intros nodes e m.
  apply (get_absorb_to_layer_partition e m ["Linear"] true nodes).
  reflexivity.
Defined.

End GroupNodes.

(** ** The configurations that the random strategy yields are shared *)

Section RandomGeneratorShared.

Import RandomStrategy.

Context {OpCfg : Type}.
Variable source : nat -> nat.
Variable calib_sampling_size_lst : list Z.

Implicit Types (st : @gen_state OpCfg) (cfgs : list (@tune_cfg OpCfg)).


End RandomGeneratorShared.


(** ** Reverting twice, and the later calls of [_check_need_calibration] *)

Section RevertAgain.

Import SmoothQuant.



(** X11: on a later call, when input statistics are stored,
    [_check_need_calibration] records the five parameters and asks for no
    new calibration exactly when [percentile], [op_types], [scales_per_op]
    and [calib_iter] are the recorded ones and either the new [alpha] is a
    float or the recorded [alpha] is ["auto"]. *)
Theorem check_need_calibration_later_call (s : SmoothQuant.t)
    (a a0 : alpha_t) (p p0 : Z) (o o0 : list op_type) (sp sp0 : bool)
    (ci ci0 : Z) :
  input_maxes s <> ∅ ->
  alpha s = Some a0 -> percentile s = Some p0 -> op_types s = Some o0 ->
  scales_per_op s = Some sp0 -> calib_iter s = Some ci0 ->
  exists need,
    _check_need_calibration a p o sp ci s
    = Some (need, set_params a p o sp ci s)
    /\ (need = false
        <-> p0 = p /\ o0 = o /\ sp0 = sp /\ ci0 = ci
            /\ (is_float a = true \/ a0 = AlphaAuto)).
Proof.
  intros Hne Ha Hp Ho Hsp Hci. unfold _check_need_calibration.
  destruct (size (input_maxes s) =? 0)%nat eqn:E.
  { apply Nat.eqb_eq, map_size_empty_iff in E. done. }
  rewrite Ha, Hp, Ho, Hsp, Hci. cbn [mbind option_bind].
  eexists. split; [reflexivity|].
  destruct (decide (p0 = p)) as [->|Np];
    [|rewrite (bool_decide_eq_false_2 _ Np); cbn; split; [done|tauto]].
  destruct (decide (o0 = o)) as [->|No];
    [|rewrite (bool_decide_eq_false_2 _ No), andb_false_r; cbn;
      split; [done|tauto]].
  destruct (decide (sp0 = sp)) as [->|Nsp];
    [|rewrite (bool_decide_eq_false_2 _ Nsp), andb_false_r; cbn;
      split; [done|tauto]].
  destruct (decide (ci0 = ci)) as [->|Nci];
    [|rewrite (bool_decide_eq_false_2 _ Nci), andb_false_r; cbn;
      split; [done|tauto]].
  rewrite !bool_decide_eq_true_2 by done. cbn [andb].
  destruct a as [r|d|], a0 as [r0|d0|]; cbn; split; try done;
    try (intros _; repeat split; try done; by left);
    try (intros _; repeat split; try done; by right);
    intros (_ & _ & _ & _ & [H|H]); done.
Qed.

End RevertAgain.


Lemma check_need_calibration_later_call_witness :
  let s :=
    SmoothQuant.set_params (SmoothQuant.AlphaFloat 1%R) 100 [TLinear] false 100
      (SmoothQuant.set_stats {["fc" := [zero]]} {["fc" := [zero]]}
         (SmoothQuant.__init__ (linear_model (real_rows [[1%R; 1%R]])) true
            false)) in
  exists need,
    SmoothQuant._check_need_calibration (SmoothQuant.AlphaFloat 0%R) 100
      [TLinear] false 100 s
    = Some (need,
            SmoothQuant.set_params (SmoothQuant.AlphaFloat 0%R) 100 [TLinear]
              false 100 s)
    /\ (need = false
        <-> 100%Z = 100%Z /\ [TLinear] = [TLinear] /\ false = false
            /\ 100%Z = 100%Z
            /\ (SmoothQuant.is_float (SmoothQuant.AlphaFloat 0%R) = true
                \/ SmoothQuant.AlphaFloat 1%R = SmoothQuant.AlphaAuto)).
Proof.
  intros s.
  apply (check_need_calibration_later_call s (SmoothQuant.AlphaFloat 0%R)
           (SmoothQuant.AlphaFloat 1%R) 100 100 [TLinear] [TLinear] false false
           100 100); try reflexivity.
  unfold s. cbn [SmoothQuant.set_params SmoothQuant.set_stats
                    SmoothQuant.input_maxes].
  intros E. apply (f_equal (fun m => m !! "fc")) in E.
  by rewrite lookup_singleton_eq in E.
Defined.
